(** * Graph-construction engine of llm-codemap

    A shallow embedding of [src/analyzer/DependencyExtractor.ts] (the
    Node/Edge Builder, the Context Filter and direct graph ingestion)
    together with the part of [TypeScriptAnalyzer.extractImportInfo] that
    produces import facts.

    Conventions of the embedding:
    - a JavaScript [Map<string, V>] is an association list in insertion
      order (iteration order is observable: [findFileByExport] and
      [findNodeByName] return the first match);
    - a JavaScript [Set<string>] is a duplicate-free list in insertion order;
    - the extractor object's three private maps are an explicit
      [ExtractorState] threaded through every operation;
    - [console.log]/[console.warn] output is dropped, except where a claim
      speaks about diagnostics or counters (then it is returned);
    - strings are [string]; [String.length] counts bytes, which agrees with
      JavaScript's [length] on ASCII paths. *)

From Stdlib Require Import String Ascii List Bool Arith Lia.
From Stdlib Require Import Numbers.DecimalString Numbers.DecimalNat.
Import ListNotations.
Open Scope list_scope.
Open Scope string_scope.

(* ===================================================================== *)
(** ** JavaScript string primitives *)
(* ===================================================================== *)

Module Str.

(** A string is truthy in JavaScript iff it is not empty. *)
Definition truthy (s : string) : bool := negb (s =? "").

(** [s.startsWith(p)] *)
Definition startsWith (s p : string) : bool := String.prefix p s.

(** [s.includes(sub)] *)
Fixpoint includes (s sub : string) : bool :=
  String.prefix sub s ||
  match s with
  | EmptyString => false
  | String _ s' => includes s' sub
  end.

(** [s.endsWith(suf)] *)
Fixpoint endsWith (s suf : string) : bool :=
  (s =? suf) ||
  match s with
  | EmptyString => false
  | String _ s' => endsWith s' suf
  end.

(** [s.split(':')[0]]: the part of [s] before its first colon. *)
Fixpoint beforeColon (s : string) : string :=
  match s with
  | EmptyString => EmptyString
  | String c s' => if Ascii.eqb c ":" then EmptyString else String c (beforeColon s')
  end.

(** [s.split(':')]: the colon-separated fields of [s] (never empty). *)
Fixpoint fields (s : string) : list string :=
  match s with
  | EmptyString => [EmptyString]
  | String c s' =>
      if Ascii.eqb c ":" then EmptyString :: fields s'
      else match fields s' with
           | [] => [String c EmptyString]
           | f :: fs => String c f :: fs
           end
  end.

(** No [':'] occurs in [s]. *)
Fixpoint colonFree (s : string) : bool :=
  match s with
  | EmptyString => true
  | String c s' => negb (Ascii.eqb c ":") && colonFree s'
  end.

(** Decimal rendering of a number, as in a template literal. *)
Definition ofNat (n : nat) : string := NilEmpty.string_of_uint (Nat.to_uint n).

Fixpoint rev_chars (s : string) (acc : list ascii) : list ascii :=
  match s with
  | EmptyString => acc
  | String c s' => rev_chars s' (c :: acc)
  end.

(** The characters of [s], last first. *)
Definition reversed (s : string) : list ascii := rev_chars s [].

(** The string whose characters are [l] read backwards. *)
Fixpoint ofReversed (l : list ascii) (acc : string) : string :=
  match l with
  | [] => acc
  | c :: l' => ofReversed l' (String c acc)
  end.

Fixpoint join (sep : string) (l : list string) : string :=
  match l with
  | [] => EmptyString
  | [x] => x
  | x :: l' => x ++ sep ++ join sep l'
  end.

End Str.

(* ===================================================================== *)
(** ** Node's [path] module (POSIX flavour)

    These are library functions, not code of the repository; they are
    modelled after Node's [path.posix] implementation. *)
(* ===================================================================== *)

Module Path.

Definition slash : ascii := "/"%char.

(** [path.isAbsolute(p)] *)
Definition isAbsolute (p : string) : bool :=
  match p with
  | String c _ => Ascii.eqb c slash
  | EmptyString => false
  end.

Fixpoint dropSlashes (l : list ascii) : list ascii :=
  match l with
  | c :: l' => if Ascii.eqb c slash then dropSlashes l' else l
  | [] => []
  end.

Fixpoint takeSegment (l : list ascii) : list ascii :=
  match l with
  | c :: l' => if Ascii.eqb c slash then [] else c :: takeSegment l'
  | [] => []
  end.

Fixpoint dropSegment (l : list ascii) : list ascii :=
  match l with
  | c :: l' => if Ascii.eqb c slash then l else dropSegment l'
  | [] => []
  end.

(** [path.basename(p)]: trailing slashes are ignored, then the last
    segment is returned. *)
Definition basename (p : string) : string :=
  Str.ofReversed (takeSegment (dropSlashes (Str.reversed p))) EmptyString.

(** [path.dirname(p)]: the scan runs from the end down to index 1, so the
    first character is never examined as a separator. *)
Definition dirname (p : string) : string :=
  match p with
  | EmptyString => "."
  | String c0 rest =>
      let hasRoot := Ascii.eqb c0 slash in
      match dropSegment (dropSlashes (Str.reversed rest)) with
      | [] => if hasRoot then "/" else "."
      | _ :: before =>
          match before, hasRoot with
          | [], true => "//"
          | _, _ => String c0 (Str.ofReversed before EmptyString)
          end
      end
  end.

(** Segments of a path: the pieces between slashes. *)
Fixpoint segments (s : string) (cur : string) : list string :=
  match s with
  | EmptyString => [cur]
  | String c s' =>
      if Ascii.eqb c slash then cur :: segments s' EmptyString
      else segments s' (cur ++ String c EmptyString)
  end.

(** [normalizeString]: resolves [.] and [..] segments; [acc] holds the
    kept segments, last first. *)
Fixpoint normalizeSegments (allowAboveRoot : bool) (segs : list string)
         (acc : list string) : list string :=
  match segs with
  | [] => rev acc
  | s :: segs' =>
      if (s =? "") || (s =? ".") then normalizeSegments allowAboveRoot segs' acc
      else if s =? ".." then
        match acc with
        | top :: acc' =>
            if top =? ".." then normalizeSegments allowAboveRoot segs' (s :: acc)
            else normalizeSegments allowAboveRoot segs' acc'
        | [] =>
            if allowAboveRoot then normalizeSegments allowAboveRoot segs' [s]
            else normalizeSegments allowAboveRoot segs' []
        end
      else normalizeSegments allowAboveRoot segs' (s :: acc)
  end.

(** [path.normalize(p)] *)
Definition normalize (p : string) : string :=
  match p with
  | EmptyString => "."
  | _ =>
      let abs := isAbsolute p in
      let trailing := Str.endsWith p "/" in
      let body := Str.join "/" (normalizeSegments (negb abs) (segments p EmptyString) []) in
      let body :=
        if body =? "" then (if abs then "" else ".")
        else if trailing then body ++ "/" else body in
      if abs then "/" ++ body else body
  end.

(** [path.resolve(base, p)] with the process working directory [cwd]
    (an absolute path). *)
Definition resolve (cwd base p : string) : string :=
  let full :=
    if isAbsolute p then p
    else if isAbsolute base then base ++ "/" ++ p
    else cwd ++ "/" ++ base ++ "/" ++ p in
  "/" ++ Str.join "/" (normalizeSegments false (segments full EmptyString) []).

End Path.

(* ===================================================================== *)
(** ** [Map<string, V>] and [Set<string>] in insertion order *)
(* ===================================================================== *)

Module JsMap.

Section Ops.
Context {V : Type}.

Fixpoint get (k : string) (m : list (string * V)) : option V :=
  match m with
  | [] => None
  | (k', v) :: m' => if k' =? k then Some v else get k m'
  end.

Definition has (k : string) (m : list (string * V)) : bool :=
  match get k m with
  | Some _ => true
  | None => false
  end.

(** [m.set(k, v)]: an existing key keeps its position. *)
Fixpoint set (k : string) (v : V) (m : list (string * V)) : list (string * V) :=
  match m with
  | [] => [(k, v)]
  | (k', v') :: m' => if k' =? k then (k, v) :: m' else (k', v') :: set k v m'
  end.

(** [Array.from(m.values())] *)
Definition values (m : list (string * V)) : list V := map snd m.

Definition keys (m : list (string * V)) : list string := map fst m.

End Ops.

End JsMap.

Module JsSet.

Definition has (s : list string) (x : string) : bool :=
  existsb (String.eqb x) s.

Definition add (x : string) (s : list string) : list string :=
  if has s x then s else (s ++ [x])%list.

Fixpoint delete (x : string) (s : list string) : list string :=
  match s with
  | [] => []
  | y :: s' => if y =? x then delete x s' else y :: delete x s'
  end.

End JsSet.

(* ===================================================================== *)
(** ** Data model ([src/analyzer/types.ts]) *)
(* ===================================================================== *)

Inductive NodeType : Type :=
| NodeFile | NodeFunction | NodeClass | NodeMethod
| NodeInterface | NodeTypeAlias | NodeVariable.

Inductive EdgeType : Type :=
| EdgeImport | EdgeExport | EdgeCall | EdgeExtends | EdgeImplements | EdgeReference.

Definition NodeType_eqb (a b : NodeType) : bool :=
  match a, b with
  | NodeFile, NodeFile | NodeFunction, NodeFunction | NodeClass, NodeClass
  | NodeMethod, NodeMethod | NodeInterface, NodeInterface
  | NodeTypeAlias, NodeTypeAlias | NodeVariable, NodeVariable => true
  | _, _ => false
  end.

Definition EdgeType_eqb (a b : EdgeType) : bool :=
  match a, b with
  | EdgeImport, EdgeImport | EdgeExport, EdgeExport | EdgeCall, EdgeCall
  | EdgeExtends, EdgeExtends | EdgeImplements, EdgeImplements
  | EdgeReference, EdgeReference => true
  | _, _ => false
  end.

(** The open [metadata] bag, one constructor per shape the engine writes. *)
Inductive Metadata : Type :=
| MetaFile (fullPath : string)
| MetaFunction (isExported isAsync : bool) (parameters : list string)
               (returnType : option string)
| MetaClass (isExported : bool) (extends : option string) (implements : list string)
| MetaMethod (isPublic isStatic isAsync : bool) (parameters : list string)
             (returnType : option string)
| MetaImport (isDefault isNamespace : bool)
| MetaParentChild
| MetaEmpty.

(** [metadata?.name]: no shape written by the engine has a [name] key. *)
Definition metadata_name (m : option Metadata) : option string := None.

Record GraphNode : Type := mkNode {
  n_id : string;
  n_label : string;
  n_type : NodeType;
  n_filePath : string;
  n_line : option nat;
  n_column : option nat;
  n_parentId : option string;
  n_metadata : option Metadata
}.

Record GraphEdge : Type := mkEdge {
  e_id : string;
  e_source : string;
  e_target : string;
  e_type : EdgeType;
  e_label : option string;
  e_metadata : option Metadata
}.

Record GraphData : Type := mkGraph {
  nodes : list GraphNode;
  edges : list GraphEdge
}.

Record FileInfo : Type := mkFile { f_path : string }.

Record FunctionInfo : Type := mkFunction {
  fn_name : string;
  fn_filePath : string;
  fn_line : nat;
  fn_column : nat;
  fn_isExported : bool;
  fn_isAsync : bool;
  fn_parameters : list string;
  fn_returnType : option string
}.

Record MethodInfo : Type := mkMethod {
  m_name : string;
  m_filePath : string;
  m_line : nat;
  m_column : nat;
  m_isPublic : bool;
  m_isStatic : bool;
  m_isAsync : bool;
  m_parameters : list string;
  m_returnType : option string
}.

(** [ClassInfo.properties] is never read by the extractor and is left out. *)
Record ClassInfo : Type := mkClass {
  c_name : string;
  c_filePath : string;
  c_line : nat;
  c_column : nat;
  c_isExported : bool;
  c_extends : option string;
  c_implements : list string;
  c_methods : list MethodInfo
}.

Record ImportInfo : Type := mkImport {
  i_from : string;
  i_imports : list string;
  i_isDefault : bool;
  i_isNamespace : bool
}.

(** The syntax tree as far as [extractCallEdges] looks at it: whether a
    node is a call expression, what its callee expression is, and the
    children [ts.forEachChild] visits. *)
Inductive MemberName : Type :=
| MemberIdentifier (text : string)
| MemberPrivate (text : string).

Inductive Callee : Type :=
| CalleeIdentifier (text : string)
| CalleePropertyAccess (name : MemberName)
| CalleeOther.

#[warnings="-register-all"]
Inductive TsNode : Type :=
| CallExpression (expression : Callee) (children : list TsNode)
| OtherNode (children : list TsNode).

(** The result of [analyzeWorkspace] together with the analyzer's
    [getSourceFile] table. *)
Record AnalysisResult : Type := mkAnalysis {
  files : list FileInfo;
  functions : list FunctionInfo;
  classes : list ClassInfo;
  imports : list ImportInfo;
  getSourceFile : string -> option TsNode
}.

(* ===================================================================== *)
(** ** The Node/Edge Builder ([DependencyExtractor]) *)
(* ===================================================================== *)

Record ExtractorState : Type := mkState {
  nodeMap : list (string * GraphNode);
  edgeMap : list (string * GraphEdge);
  fileToNodes : list (string * list string)
}.

Definition emptyState : ExtractorState := mkState [] [] [].

Definition orEmpty {A : Type} (o : option (list A)) : list A :=
  match o with
  | Some l => l
  | None => []
  end.

(** [this.nodeMap.set(nodeId, node)] *)
Definition setNode (nodeId : string) (node : GraphNode) (st : ExtractorState)
  : ExtractorState :=
  mkState (JsMap.set nodeId node st.(nodeMap)) st.(edgeMap) st.(fileToNodes).

(** The recurring block
    [if (!fileToNodes.has(p)) fileToNodes.set(p, []); fileToNodes.get(p)!.push(id)]. *)
Definition registerInFile (filePath nodeId : string) (st : ExtractorState)
  : ExtractorState :=
  let idx :=
    if JsMap.has filePath st.(fileToNodes) then st.(fileToNodes)
    else JsMap.set filePath [] st.(fileToNodes) in
  mkState st.(nodeMap) st.(edgeMap)
          (JsMap.set filePath (orEmpty (JsMap.get filePath idx) ++ [nodeId])%list idx).

(** The recurring block
    [if (!this.edgeMap.has(edgeId)) this.edgeMap.set(edgeId, edge)]. *)
Definition addEdge (edge : GraphEdge) (st : ExtractorState) : ExtractorState :=
  if JsMap.has edge.(e_id) st.(edgeMap) then st
  else mkState st.(nodeMap) (JsMap.set edge.(e_id) edge st.(edgeMap)) st.(fileToNodes).

Definition createFileNode (filePath : string) (st : ExtractorState) : ExtractorState :=
  let nodeId := "file:" ++ filePath in
  let fileName := Path.basename filePath in
  if JsMap.has nodeId st.(nodeMap) then st
  else
    let node := mkNode nodeId fileName NodeFile filePath None None None
                       (Some (MetaFile filePath)) in
    registerInFile filePath nodeId (setNode nodeId node st).

Definition createFunctionNode (func : FunctionInfo) (st : ExtractorState)
  : ExtractorState :=
  let nodeId := "function:" ++ func.(fn_filePath) ++ ":" ++ func.(fn_name) in
  let fileNodeId := "file:" ++ func.(fn_filePath) in
  if JsMap.has nodeId st.(nodeMap) then st
  else
    let node := mkNode nodeId func.(fn_name) NodeFunction func.(fn_filePath)
                       (Some func.(fn_line)) (Some func.(fn_column)) (Some fileNodeId)
                       (Some (MetaFunction func.(fn_isExported) func.(fn_isAsync)
                                           func.(fn_parameters) func.(fn_returnType))) in
    registerInFile func.(fn_filePath) nodeId (setNode nodeId node st).

Definition createClassNode (cls : ClassInfo) (st : ExtractorState) : ExtractorState :=
  let nodeId := "class:" ++ cls.(c_filePath) ++ ":" ++ cls.(c_name) in
  let fileNodeId := "file:" ++ cls.(c_filePath) in
  if JsMap.has nodeId st.(nodeMap) then st
  else
    let node := mkNode nodeId cls.(c_name) NodeClass cls.(c_filePath)
                       (Some cls.(c_line)) (Some cls.(c_column)) (Some fileNodeId)
                       (Some (MetaClass cls.(c_isExported) cls.(c_extends)
                                        cls.(c_implements))) in
    registerInFile cls.(c_filePath) nodeId (setNode nodeId node st).

(** Method nodes are not registered in the file index. *)
Definition createMethodNode (method : MethodInfo) (cls : ClassInfo)
           (st : ExtractorState) : ExtractorState :=
  let nodeId := "method:" ++ method.(m_filePath) ++ ":" ++ cls.(c_name) ++ "."
                          ++ method.(m_name) in
  let classNodeId := "class:" ++ method.(m_filePath) ++ ":" ++ cls.(c_name) in
  if JsMap.has nodeId st.(nodeMap) then st
  else
    let node := mkNode nodeId (cls.(c_name) ++ "." ++ method.(m_name)) NodeMethod
                       method.(m_filePath)
                       (Some method.(m_line)) (Some method.(m_column)) (Some classNodeId)
                       (Some (MetaMethod method.(m_isPublic) method.(m_isStatic)
                                         method.(m_isAsync) method.(m_parameters)
                                         method.(m_returnType))) in
    setNode nodeId node st.

(** [findFileByExport]: the first node, in insertion order, that is a file
    labelled [exportName] or a function or class labelled [exportName]. *)
Fixpoint findFileByExport_in (exportName : string) (m : list (string * GraphNode))
  : option string :=
  match m with
  | [] => None
  | (_, node) :: m' =>
      if NodeType_eqb node.(n_type) NodeFile && (node.(n_label) =? exportName)
      then Some node.(n_filePath)
      else if (node.(n_label) =? exportName)
              && (NodeType_eqb node.(n_type) NodeFunction
                  || NodeType_eqb node.(n_type) NodeClass)
      then Some node.(n_filePath)
      else findFileByExport_in exportName m'
  end.

Definition findFileByExport (exportName : string) (st : ExtractorState)
  : option string :=
  findFileByExport_in exportName st.(nodeMap).

(** [findNodeByName] *)
Fixpoint findNodeByName_in (name : string) (type : NodeType)
         (m : list (string * GraphNode)) : option string :=
  match m with
  | [] => None
  | (nodeId, node) :: m' =>
      if (node.(n_label) =? name) && NodeType_eqb node.(n_type) type
      then Some nodeId
      else findNodeByName_in name type m'
  end.

Definition findNodeByName (name : string) (type : NodeType) (st : ExtractorState)
  : option string :=
  findNodeByName_in name type st.(nodeMap).

Definition importEdge (importInfo : ImportInfo) (importName sourceId targetId : string)
  : GraphEdge :=
  mkEdge ("import:" ++ sourceId ++ ":" ++ targetId) sourceId targetId EdgeImport
         (Some importName)
         (Some (MetaImport importInfo.(i_isDefault) importInfo.(i_isNamespace))).

(** The body of the loop over [importInfo.imports] in [createImportEdges]. *)
Definition createImportEdgesFor (importInfo : ImportInfo) (sourceFileNodes : list string)
           (st : ExtractorState) (importName : string) : ExtractorState :=
  match findFileByExport importName st with
  | Some targetFile =>
      if Str.truthy targetFile then
        let st1 :=
          if negb (JsMap.has targetFile st.(fileToNodes))
          then createFileNode targetFile st else st in
        let targetNodes := orEmpty (JsMap.get targetFile st1.(fileToNodes)) in
        let sourceFileNodeId := hd "" sourceFileNodes in
        let targetFileNodeId := "file:" ++ targetFile in
        let st2 :=
          if JsMap.has sourceFileNodeId st1.(nodeMap)
             && JsMap.has targetFileNodeId st1.(nodeMap)
          then addEdge (importEdge importInfo importName sourceFileNodeId targetFileNodeId) st1
          else st1 in
        fold_left
          (fun s sourceNodeId =>
             fold_left
               (fun s targetNodeId =>
                  match JsMap.get targetNodeId s.(nodeMap) with
                  | Some targetNode =>
                      if targetNode.(n_label) =? importName
                      then addEdge (importEdge importInfo importName sourceNodeId targetNodeId) s
                      else s
                  | None => s
                  end)
               targetNodes s)
          sourceFileNodes st2
      else st
  | None => st
  end.

(** [createImportEdges].  [sourceFileNodes] is either the array stored in
    the file index (non-empty, and not touched while the loop runs, since
    the loop only ever creates index entries for absent keys) or a fresh
    array; a list value models both. *)
Definition createImportEdges (importInfo : ImportInfo) (st : ExtractorState)
  : ExtractorState :=
  let sourceFileNodes := orEmpty (JsMap.get importInfo.(i_from) st.(fileToNodes)) in
  let '(sourceFileNodes, st) :=
    if (length sourceFileNodes =? 0)%nat then
      if negb (JsMap.has ("file:" ++ importInfo.(i_from)) st.(nodeMap)) then
        let st' := createFileNode importInfo.(i_from) st in
        let newSourceFileNodes := orEmpty (JsMap.get importInfo.(i_from) st'.(fileToNodes)) in
        if (0 <? length newSourceFileNodes)%nat
        then ((sourceFileNodes ++ newSourceFileNodes)%list, st')
        else (sourceFileNodes, st')
      else (sourceFileNodes, st)
    else (sourceFileNodes, st) in
  if (length sourceFileNodes =? 0)%nat then st
  else fold_left (createImportEdgesFor importInfo sourceFileNodes)
                 importInfo.(i_imports) st.

(** [findCallerNode]: the first function node of the callee's file index. *)
Fixpoint findCallerNode_in (m : list (string * GraphNode)) (fileNodes : list string)
  : option string :=
  match fileNodes with
  | [] => None
  | nodeId :: rest =>
      match JsMap.get nodeId m with
      | Some node =>
          if NodeType_eqb node.(n_type) NodeFunction then Some nodeId
          else findCallerNode_in m rest
      | None => findCallerNode_in m rest
      end
  end.

Definition findCallerNode (callNode : GraphNode) (st : ExtractorState) : option string :=
  findCallerNode_in st.(nodeMap)
                    (orEmpty (JsMap.get callNode.(n_filePath) st.(fileToNodes))).

(** The callee name [extractCallEdges] reads off a call expression. *)
Definition functionNameOf (expression : Callee) : option string :=
  match expression with
  | CalleeIdentifier text => if Str.truthy text then Some text else None
  | CalleePropertyAccess (MemberIdentifier text) =>
      if Str.truthy text then Some text else None
  | _ => None
  end.

Definition callEdge (callerNodeId nodeId : string) : GraphEdge :=
  mkEdge ("call:" ++ callerNodeId ++ ":" ++ nodeId) callerNodeId nodeId EdgeCall
         (Some "calls") None.

Definition labelMatches (node : GraphNode) (functionName : string) : bool :=
  (node.(n_label) =? functionName)
  || match metadata_name node.(n_metadata) with
     | Some name => name =? functionName
     | None => false
     end.

(** What [extractCallEdges] does for one call expression naming
    [functionName] in file [filePath]. *)
Definition addCallEdgesFor (filePath functionName : string) (st : ExtractorState)
  : ExtractorState :=
  let fileNodes := orEmpty (JsMap.get filePath st.(fileToNodes)) in
  fold_left
    (fun s nodeId =>
       match JsMap.get nodeId s.(nodeMap) with
       | Some node =>
           if labelMatches node functionName then
             match findCallerNode node s with
             | Some callerNodeId => addEdge (callEdge callerNodeId nodeId) s
             | None => s
             end
           else s
       | None => s
       end)
    fileNodes st.

(** The recursive [visit] closure of [extractCallEdges]. *)
Fixpoint visit (filePath : string) (node : TsNode) (st : ExtractorState)
  : ExtractorState :=
  let visitChildren :=
    fix visitChildren (cs : list TsNode) (s : ExtractorState) : ExtractorState :=
      match cs with
      | [] => s
      | c :: cs' => visitChildren cs' (visit filePath c s)
      end in
  match node with
  | CallExpression expression children =>
      let st' :=
        match functionNameOf expression with
        | Some functionName => addCallEdgesFor filePath functionName st
        | None => st
        end in
      visitChildren children st'
  | OtherNode children => visitChildren children st
  end.

Definition extractCallEdges (sourceFile : TsNode) (filePath : string)
           (st : ExtractorState) : ExtractorState :=
  visit filePath sourceFile st.

Definition createInheritanceEdges (cls : ClassInfo) (st : ExtractorState)
  : ExtractorState :=
  let classNodeId := "class:" ++ cls.(c_filePath) ++ ":" ++ cls.(c_name) in
  let st1 :=
    match cls.(c_extends) with
    | Some ext =>
        if Str.truthy ext then
          match findNodeByName ext NodeClass st with
          | Some extendsNodeId =>
              addEdge (mkEdge ("extends:" ++ classNodeId ++ ":" ++ extendsNodeId)
                              classNodeId extendsNodeId EdgeExtends (Some "extends") None) st
          | None => st
          end
        else st
    | None => st
    end in
  fold_left
    (fun s interfaceName =>
       match findNodeByName interfaceName NodeInterface s with
       | Some implementsNodeId =>
           addEdge (mkEdge ("implements:" ++ classNodeId ++ ":" ++ implementsNodeId)
                           classNodeId implementsNodeId EdgeImplements
                           (Some "implements") None) s
       | None => s
       end)
    cls.(c_implements) st1.

Definition containsEdge (parentId nodeId : string) : GraphEdge :=
  mkEdge ("parent:" ++ parentId ++ ":" ++ nodeId) parentId nodeId EdgeReference
         (Some "contains") (Some MetaParentChild).

(** The counters [createParentChildEdges] keeps for its log line. *)
Record ParentChildLog : Type := mkLog { edgeCount : nat; skippedCount : nat }.

(** One iteration of the loop of [createParentChildEdges]. *)
Definition parentChildStep (acc : ExtractorState * ParentChildLog)
           (entry : string * GraphNode) : ExtractorState * ParentChildLog :=
  let '(st, log) := acc in
  let '(nodeId, node) := entry in
  match node.(n_parentId) with
  | Some parentId =>
      if Str.truthy parentId then
        if JsMap.has parentId st.(nodeMap) then
          if negb (JsMap.has ("parent:" ++ parentId ++ ":" ++ nodeId) st.(edgeMap))
          then (addEdge (containsEdge parentId nodeId) st,
                mkLog (S log.(edgeCount)) log.(skippedCount))
          else (st, log)
        else (st, mkLog log.(edgeCount) (S log.(skippedCount)))
      else (st, log)
  | None => (st, log)
  end.

(** [createParentChildEdges]: the loop runs over the entries of the node
    map, which the loop does not change. *)
Definition createParentChildEdges (st : ExtractorState)
  : ExtractorState * ParentChildLog :=
  fold_left parentChildStep st.(nodeMap) (st, mkLog 0 0).

(** [this.nodeMap.clear(); this.edgeMap.clear(); this.fileToNodes.clear()] *)
Definition clearMaps (st : ExtractorState) : ExtractorState := mkState [] [] [].

(** Steps 1 to 8 of [extractGraphData]: the build pass.  It starts by
    clearing the three maps, so the state it starts from is irrelevant. *)
Definition buildPass (analysisResult : AnalysisResult) (st0 : ExtractorState)
  : ExtractorState * ParentChildLog :=
  let st := clearMaps st0 in
  let st := fold_left (fun s file => createFileNode file.(f_path) s)
                      analysisResult.(files) st in
  let st := fold_left (fun s func => createFunctionNode func s)
                      analysisResult.(functions) st in
  let st := fold_left (fun s cls => createClassNode cls s)
                      analysisResult.(classes) st in
  let st := fold_left
              (fun s cls =>
                 fold_left (fun s method => createMethodNode method cls s)
                           cls.(c_methods) s)
              analysisResult.(classes) st in
  let st := fold_left (fun s importInfo => createImportEdges importInfo s)
                      analysisResult.(imports) st in
  let st := fold_left
              (fun s file =>
                 match analysisResult.(getSourceFile) file.(f_path) with
                 | Some sourceFile => extractCallEdges sourceFile file.(f_path) s
                 | None => s
                 end)
              analysisResult.(files) st in
  let st := fold_left (fun s cls => createInheritanceEdges cls s)
                      analysisResult.(classes) st in
  createParentChildEdges st.

Definition graphOf (st : ExtractorState) : GraphData :=
  mkGraph (JsMap.values st.(nodeMap)) (JsMap.values st.(edgeMap)).

(* ===================================================================== *)
(** ** The Context Filter *)
(* ===================================================================== *)

Record NameHint : Type := mkHint {
  h_name : string;
  h_filePath : option string
}.

(** The five optional hint arguments of [extractGraphData]; [None] is
    [undefined]. *)
Record Hints : Type := mkHints {
  targetFile : option string;
  relatedFiles : option (list string);
  relatedFunctions : option (list NameHint);
  relatedClasses : option (list NameHint);
  focusNodes : option (list string)
}.

Definition noHints : Hints := mkHints None None None None None.

(** Truthiness of an optional string and of an optional array (an array,
    even an empty one, is truthy). *)
Definition truthyString (o : option string) : bool :=
  match o with
  | Some s => Str.truthy s
  | None => false
  end.

Definition truthyArray {A : Type} (o : option (list A)) : bool :=
  match o with
  | Some _ => true
  | None => false
  end.

(** The guard [xs && xs.length > 0] followed by a loop over [xs]. *)
Definition nonEmptyArray {A : Type} (o : option (list A)) : list A :=
  match o with
  | Some l => l
  | None => []
  end.

Fixpoint insertByPathLength (f : FileInfo) (sorted : list FileInfo) : list FileInfo :=
  match sorted with
  | [] => [f]
  | g :: rest =>
      if (String.length f.(f_path) <=? String.length g.(f_path))%nat
      then f :: sorted
      else g :: insertByPathLength f rest
  end.

(** [matchingFiles.sort((a, b) => a.path.length - b.path.length)]: the
    sort is stable, so an element stays in front of the later elements of
    the same length. *)
Definition sortByPathLength (l : list FileInfo) : list FileInfo :=
  fold_right insertByPathLength [] l.

Definition isCandidate (targetFile : string) (f : FileInfo) : bool :=
  (Path.basename f.(f_path) =? Path.basename targetFile)
  || Str.endsWith f.(f_path) targetFile.

Definition containsHint (targetFile : string) (f : FileInfo) : bool :=
  Str.endsWith f.(f_path) targetFile || Str.includes f.(f_path) targetFile.

Definition findTargetFilePath (targetFile : string) (files : list FileInfo)
  : option string :=
  if Path.isAbsolute targetFile then
    option_map f_path (find (fun f => f.(f_path) =? targetFile) files)
  else
    let matchingFiles := filter (isCandidate targetFile) files in
    if (length matchingFiles =? 1)%nat then
      option_map f_path (hd_error matchingFiles)
    else if (1 <? length matchingFiles)%nat then
      option_map f_path (hd_error (sortByPathLength matchingFiles))
    else
      option_map f_path (find (containsHint targetFile) files).

(** [findTargetFilePath] followed by the caller's truthiness test. *)
Definition resolveFile (hint : string) (files : list FileInfo) : option string :=
  match findTargetFilePath hint files with
  | Some p => if Str.truthy p then Some p else None
  | None => None
  end.

(** [graphData.nodes.find((n) => n.id === nodeId)] *)
Definition findNode (g : GraphData) (nodeId : string) : option GraphNode :=
  find (fun n => n.(n_id) =? nodeId) g.(nodes).

Definition hasNode (g : GraphData) (nodeId : string) : bool :=
  existsb (fun n => n.(n_id) =? nodeId) g.(nodes).

(** Step 1: focus nodes. *)
Definition seedFocusNodes (g : GraphData) (h : Hints) (related : list string)
  : list string :=
  fold_left
    (fun s nodeId => if hasNode g nodeId then JsSet.add nodeId s else s)
    (nonEmptyArray h.(focusNodes)) related.

(** Step 2: the target file. *)
Definition seedTargetFile (a : AnalysisResult) (h : Hints) (related : list string)
  : list string :=
  match h.(targetFile) with
  | Some t =>
      if Str.truthy t then
        match resolveFile t a.(files) with
        | Some p => JsSet.add ("file:" ++ p) related
        | None => related
        end
      else related
  | None => related
  end.

(** Step 3: related files. *)
Definition seedRelatedFiles (g : GraphData) (a : AnalysisResult) (h : Hints)
           (related : list string) : list string :=
  fold_left
    (fun s file =>
       match resolveFile file a.(files) with
       | Some p =>
           fold_left
             (fun s node => if node.(n_filePath) =? p then JsSet.add node.(n_id) s else s)
             g.(nodes) (JsSet.add ("file:" ++ p) s)
       | None => s
       end)
    (nonEmptyArray h.(relatedFiles)) related.

(** Step 4: related functions. *)
Definition seedRelatedFunctions (g : GraphData) (a : AnalysisResult) (h : Hints)
           (related : list string) : list string :=
  fold_left
    (fun s func =>
       if truthyString func.(h_filePath) then
         match resolveFile (match func.(h_filePath) with Some p => p | None => "" end)
                           a.(files) with
         | Some p =>
             let funcNodeId := "function:" ++ p ++ ":" ++ func.(h_name) in
             let fileNodeId := "file:" ++ p in
             match findNode g funcNodeId with
             | Some _ => JsSet.add fileNodeId (JsSet.add funcNodeId s)
             | None => s
             end
         | None => s
         end
       else
         fold_left
           (fun s analysisFunc =>
              if analysisFunc.(fn_name) =? func.(h_name) then
                JsSet.add ("file:" ++ analysisFunc.(fn_filePath))
                  (JsSet.add ("function:" ++ analysisFunc.(fn_filePath) ++ ":"
                                          ++ analysisFunc.(fn_name)) s)
              else s)
           a.(functions) s)
    (nonEmptyArray h.(relatedFunctions)) related.

Definition addMethods (clsName : string) (methods : list MethodInfo) (s : list string)
  : list string :=
  fold_left
    (fun s method =>
       JsSet.add ("method:" ++ method.(m_filePath) ++ ":" ++ clsName ++ "."
                            ++ method.(m_name)) s)
    methods s.

(** Step 5: related classes. *)
Definition seedRelatedClasses (g : GraphData) (a : AnalysisResult) (h : Hints)
           (related : list string) : list string :=
  fold_left
    (fun s cls =>
       if truthyString cls.(h_filePath) then
         match resolveFile (match cls.(h_filePath) with Some p => p | None => "" end)
                           a.(files) with
         | Some p =>
             let classNodeId := "class:" ++ p ++ ":" ++ cls.(h_name) in
             if hasNode g classNodeId then
               fold_left
                 (fun s analysisClass =>
                    if (analysisClass.(c_filePath) =? p)
                       && (analysisClass.(c_name) =? cls.(h_name))
                    then addMethods cls.(h_name) analysisClass.(c_methods) s
                    else s)
                 a.(classes)
                 (JsSet.add ("file:" ++ p) (JsSet.add classNodeId s))
             else s
         | None => s
         end
       else
         fold_left
           (fun s analysisClass =>
              if analysisClass.(c_name) =? cls.(h_name) then
                addMethods cls.(h_name) analysisClass.(c_methods)
                  (JsSet.add ("file:" ++ analysisClass.(c_filePath))
                     (JsSet.add ("class:" ++ analysisClass.(c_filePath) ++ ":"
                                          ++ analysisClass.(c_name)) s))
              else s)
           a.(classes) s)
    (nonEmptyArray h.(relatedClasses)) related.

Definition seeds (g : GraphData) (a : AnalysisResult) (h : Hints) : list string :=
  seedRelatedClasses g a h
    (seedRelatedFunctions g a h
       (seedRelatedFiles g a h
          (seedTargetFile a h
             (seedFocusNodes g h [])))).

(** The two sets the traversal grows while it scans the edges of the
    current node. *)
Record Frontier : Type := mkFrontier {
  nodesToProcess : list string;
  relatedNodeIds : list string
}.

(** Reaching [other] over an edge: it joins both sets, and the file node
    id of its node joins the work list. *)
Definition reach (g : GraphData) (processedNodes : list string) (other : string)
           (fr : Frontier) : Frontier :=
  if negb (JsSet.has processedNodes other) then
    let q := JsSet.add other fr.(nodesToProcess) in
    let r := JsSet.add other fr.(relatedNodeIds) in
    match findNode g other with
    | Some otherNode =>
        let fileNodeId := "file:" ++ otherNode.(n_filePath) in
        if negb (JsSet.has processedNodes fileNodeId)
        then mkFrontier (JsSet.add fileNodeId q) r
        else mkFrontier q r
    | None => mkFrontier q r
    end
  else fr.

(** The body of the loop over [graphData.edges] for the current node. *)
Definition scanEdge (g : GraphData) (processedNodes : list string)
           (currentNodeId : string) (fr : Frontier) (edge : GraphEdge) : Frontier :=
  let fr :=
    if edge.(e_source) =? currentNodeId
    then reach g processedNodes edge.(e_target) fr else fr in
  if edge.(e_target) =? currentNodeId
  then reach g processedNodes edge.(e_source) fr else fr.

(** The [while (nodesToProcess.size > 0)] loop.  [fuel] bounds the number
    of iterations; [None] means the bound was too small. *)
Fixpoint traverse (fuel : nat) (g : GraphData) (fr : Frontier)
         (processedNodes : list string) : option (list string) :=
  match fr.(nodesToProcess) with
  | [] => Some fr.(relatedNodeIds)
  | currentNodeId :: _ =>
      match fuel with
      | O => None
      | S fuel' =>
          let q := JsSet.delete currentNodeId fr.(nodesToProcess) in
          if JsSet.has processedNodes currentNodeId then
            traverse fuel' g (mkFrontier q fr.(relatedNodeIds)) processedNodes
          else
            let processedNodes := JsSet.add currentNodeId processedNodes in
            let r := JsSet.add currentNodeId fr.(relatedNodeIds) in
            let fr := fold_left (scanEdge g processedNodes currentNodeId)
                                g.(edges) (mkFrontier q r) in
            let fr :=
              match findNode g currentNodeId with
              | Some currentNode =>
                  match currentNode.(n_parentId) with
                  | Some parentId =>
                      if Str.truthy parentId && negb (JsSet.has processedNodes parentId)
                      then mkFrontier (JsSet.add parentId fr.(nodesToProcess))
                                      fr.(relatedNodeIds)
                      else fr
                  | None => fr
                  end
              | None => fr
              end in
            traverse fuel' g fr processedNodes
      end
  end.

(** Every id the traversal can ever put on its work list. *)
Definition nodeTargets (n : GraphNode) : list string :=
  ("file:" ++ n.(n_filePath))
    :: match n.(n_parentId) with Some p => [p] | None => [] end.

Definition universe (g : GraphData) (seedIds : list string) : list string :=
  app seedIds
      (app (flat_map (fun e => [e.(e_source); e.(e_target)]) g.(edges))
           (flat_map nodeTargets g.(nodes))).

(** The traversal with a bound that always suffices (see
    [traverse_terminates]); the fallback branch is never taken. *)
Definition expand (g : GraphData) (seedIds : list string) : list string :=
  match traverse (S (length (universe g seedIds))) g (mkFrontier seedIds seedIds) [] with
  | Some related => related
  | None => seedIds
  end.

(** The closure pass: for every included file node, every other node with
    the same file path.  The loop runs over a snapshot of the set. *)
Definition fileClosure (g : GraphData) (related : list string) : list string :=
  fold_left
    (fun s nodeId =>
       match findNode g nodeId with
       | Some node =>
           if NodeType_eqb node.(n_type) NodeFile then
             fold_left
               (fun s childNode =>
                  if (childNode.(n_filePath) =? node.(n_filePath))
                     && negb (childNode.(n_id) =? nodeId)
                  then JsSet.add childNode.(n_id) s else s)
               g.(nodes) s
           else s
       | None => s
       end)
    related related.

(** The final set [relatedNodeIds] of [filterGraphByLLMContext]. *)
Definition relatedSet (g : GraphData) (a : AnalysisResult) (h : Hints) : list string :=
  let seedIds := seeds g a h in
  if (0 <? length seedIds)%nat then fileClosure g (expand g seedIds) else seedIds.

Definition filterGraphByLLMContext (g : GraphData) (a : AnalysisResult) (h : Hints)
  : GraphData :=
  let related := relatedSet g a h in
  mkGraph
    (filter (fun n => JsSet.has related n.(n_id)) g.(nodes))
    (filter (fun e => JsSet.has related e.(e_source) && JsSet.has related e.(e_target))
            g.(edges)).

(** [extractGraphData]: the build pass, then the filter if some hint
    argument is truthy.  Returns the graph and the extractor's new state. *)
Definition extractGraphData (a : AnalysisResult) (h : Hints) (st0 : ExtractorState)
  : GraphData * ExtractorState :=
  let st := fst (buildPass a st0) in
  let result := graphOf st in
  if truthyString h.(targetFile) || truthyArray h.(relatedFiles)
     || truthyArray h.(relatedFunctions) || truthyArray h.(relatedClasses)
     || truthyArray h.(focusNodes)
  then (filterGraphByLLMContext result a h, st)
  else (result, st).

(** The File Path Resolution Rule in the words of the specification:
    candidates are selected by basename alone. *)
Fixpoint firstShortest (l : list FileInfo) : option FileInfo :=
  match l with
  | [] => None
  | f :: l' =>
      match firstShortest l' with
      | None => Some f
      | Some g =>
          if (String.length f.(f_path) <=? String.length g.(f_path))%nat
          then Some f else Some g
      end
  end.


(* ===================================================================== *)
(** ** Direct graph ingestion ([createGraphFromLLMSpec]) *)
(* ===================================================================== *)

(** Caller-shaped nodes and edges.  The kind and type tags are untrusted
    strings at run time. *)
Record SpecNode : Type := mkSpecNode {
  sn_id : string;
  sn_label : string;
  sn_type : string;
  sn_filePath : option string;
  sn_line : option nat;
  sn_column : option nat
}.

Record SpecEdge : Type := mkSpecEdge {
  se_source : string;
  se_target : string;
  se_type : string;
  se_label : option string
}.

(** The [console.warn] lines of [createGraphFromLLMSpec]. *)
Inductive Diagnostic : Type :=
| SourceNotFound (index : nat) (source : string)
| TargetNotFound (index : nat) (target : string)
| AvailableNodeIds (ids : list string).

Definition recognizedNodeTags : list string :=
  ["file"; "function"; "class"; "method"; "interface"; "type"; "variable"].

Definition recognizedEdgeTags : list string :=
  ["import"; "export"; "call"; "extends"; "implements"; "reference"].

Definition nodeTypeOfTag (tag : string) : NodeType :=
  if tag =? "file" then NodeFile
  else if tag =? "function" then NodeFunction
  else if tag =? "class" then NodeClass
  else if tag =? "method" then NodeMethod
  else if tag =? "interface" then NodeInterface
  else if tag =? "type" then NodeTypeAlias
  else if tag =? "variable" then NodeVariable
  else NodeFile.

Definition edgeTypeOfTag (tag : string) : EdgeType :=
  if tag =? "import" then EdgeImport
  else if tag =? "export" then EdgeExport
  else if tag =? "call" then EdgeCall
  else if tag =? "extends" then EdgeExtends
  else if tag =? "implements" then EdgeImplements
  else if tag =? "reference" then EdgeReference
  else EdgeReference.

Fixpoint stripPrefix (p s : string) : option string :=
  match p with
  | EmptyString => Some s
  | String c p' =>
      match s with
      | String d s' => if Ascii.eqb c d then stripPrefix p' s' else None
      | EmptyString => None
      end
  end.

(** [id.replace(/^(file|function|class|method):/, '')] *)
Definition stripKindPrefix (nodeId : string) : string :=
  match stripPrefix "file:" nodeId with
  | Some r => r
  | None =>
      match stripPrefix "function:" nodeId with
      | Some r => r
      | None =>
          match stripPrefix "class:" nodeId with
          | Some r => r
          | None =>
              match stripPrefix "method:" nodeId with
              | Some r => r
              | None => nodeId
              end
          end
      end
  end.

Definition ingestNode (n : SpecNode) : GraphNode :=
  mkNode n.(sn_id) n.(sn_label) (nodeTypeOfTag n.(sn_type))
         (if truthyString n.(sn_filePath)
          then match n.(sn_filePath) with Some p => p | None => "" end
          else Str.beforeColon (stripKindPrefix n.(sn_id)))
         n.(sn_line) n.(sn_column) None (Some MetaEmpty).

Definition ingestEdge (graphNodes : list GraphNode) (index : nat) (e : SpecEdge)
  : GraphEdge * list Diagnostic :=
  let sourceExists := existsb (fun n => n.(n_id) =? e.(se_source)) graphNodes in
  let targetExists := existsb (fun n => n.(n_id) =? e.(se_target)) graphNodes in
  let available := AvailableNodeIds (map n_id (firstn 5 graphNodes)) in
  let warnSource :=
    if sourceExists then [] else [SourceNotFound index e.(se_source); available] in
  let warnTarget :=
    if targetExists then [] else [TargetNotFound index e.(se_target); available] in
  (mkEdge ("edge-" ++ Str.ofNat index) e.(se_source) e.(se_target)
          (edgeTypeOfTag e.(se_type))
          (Some (if truthyString e.(se_label)
                 then match e.(se_label) with Some l => l | None => "" end
                 else "contains"))
          (Some MetaEmpty),
   app warnSource warnTarget).

(** [edges.map((e, index) => ...)] *)
Fixpoint ingestEdges (graphNodes : list GraphNode) (index : nat) (es : list SpecEdge)
  : list (GraphEdge * list Diagnostic) :=
  match es with
  | [] => []
  | e :: es' => ingestEdge graphNodes index e :: ingestEdges graphNodes (S index) es'
  end.

Definition createGraphFromLLMSpec (ns : list SpecNode) (es : list SpecEdge)
  : GraphData * list Diagnostic :=
  let graphNodes := map ingestNode ns in
  let results := ingestEdges graphNodes 0 es in
  (mkGraph graphNodes (map fst results), flat_map snd results).

(* ===================================================================== *)
(** ** Import facts ([TypeScriptAnalyzer.extractImportInfo]) *)
(* ===================================================================== *)

Inductive NamedBindings : Type :=
| NamespaceImport (name : string)
| NamedImports (elements : list string).

Record ImportClause : Type := mkClause {
  clauseName : option string;
  namedBindings : option NamedBindings
}.

(** An import declaration: the text of its module specifier when that is
    a string literal, and its import clause. *)
Record ImportDeclaration : Type := mkImportDecl {
  moduleSpecifier : option string;
  importClause : option ImportClause
}.

(** The environment the analyzer reads: [fs.existsSync] and the process
    working directory. *)
Record Env : Type := mkEnv {
  existsSync : string -> bool;
  cwd : string
}.

(** [normalizePath] of [utils/pathUtils.ts] *)
Definition normalizePath (env : Env) (filePath basePath : string) : string :=
  if Path.isAbsolute filePath then Path.normalize filePath
  else if Str.truthy basePath
       then Path.normalize (Path.resolve env.(cwd) basePath filePath)
       else Path.normalize filePath.

Definition probeSuffixes : list string :=
  [".ts"; ".tsx"; ".js"; ".jsx"; "/index.ts"; "/index.js"].

Definition extractImportInfo (env : Env) (node : ImportDeclaration) (filePath : string)
  : option ImportInfo :=
  match node.(moduleSpecifier) with
  | None => None
  | Some from =>
      if negb (Str.truthy from) then None
      else
        let fromClause :=
          match node.(importClause) with
          | None => ([], false, false)
          | Some clause =>
              let '(names, isDefault) :=
                match clause.(clauseName) with
                | Some name => if Str.truthy name then ([name], true) else ([], false)
                | None => ([], false)
                end in
              match clause.(namedBindings) with
              | Some (NamespaceImport name) =>
                  if Str.truthy name then (app names [name], isDefault, true)
                  else (names, isDefault, false)
              | Some (NamedImports elements) =>
                  (app names (filter Str.truthy elements), isDefault, false)
              | None => (names, isDefault, false)
              end
          end in
        let '(names, isDefault, isNamespace) := fromClause in
        let resolvedPath :=
          if Str.startsWith from "." || Str.startsWith from ".." then
            let baseDir := Path.dirname filePath in
            let resolved := normalizePath env from baseDir in
            if env.(existsSync) resolved then resolved
            else
              match find (fun ext => env.(existsSync) (resolved ++ ext)) probeSuffixes with
              | Some ext => resolved ++ ext
              | None => resolved
              end
          else from in
        Some (mkImport resolvedPath names isDefault isNamespace)
  end.

(* ===================================================================== *)
(** ** Well-formedness of facts, and the scenarios of the specification *)
(* ===================================================================== *)

(** No path and no declared name contains the id separator [':']. *)
Definition colonFreeFacts (a : AnalysisResult) : bool :=
  forallb (fun f => Str.colonFree f.(f_path)) a.(files)
  && forallb (fun f => Str.colonFree f.(fn_filePath) && Str.colonFree f.(fn_name))
             a.(functions)
  && forallb (fun c => Str.colonFree c.(c_filePath) && Str.colonFree c.(c_name)
                       && forallb (fun m => Str.colonFree m.(m_filePath)
                                            && Str.colonFree m.(m_name))
                                  c.(c_methods))
             a.(classes)
  && forallb (fun i => Str.colonFree i.(i_from)) a.(imports).

(** Every declaration lies in a listed file, and a method lies in the file
    of its class; [analyzeSourceFile] only produces such facts. *)
Definition locatedFacts (a : AnalysisResult) : bool :=
  let listed p := existsb (fun f => f.(f_path) =? p) a.(files) in
  forallb (fun f => listed f.(fn_filePath)) a.(functions)
  && forallb (fun c => listed c.(c_filePath)
                       && forallb (fun m => m.(m_filePath) =? c.(c_filePath))
                                  c.(c_methods))
             a.(classes).

Module ScenarioA.

(** The workspace holds [/ws/a.ts] and [/ws/b.ts]. *)
Definition env : Env :=
  mkEnv (fun p => (p =? "/ws/a.ts") || (p =? "/ws/b.ts")) "/ws".

(** [import { foo } from './b'] in [/ws/a.ts]. *)
Definition importDecl : ImportDeclaration :=
  mkImportDecl (Some "./b") (Some (mkClause None (Some (NamedImports ["foo"])))).

(** [export function foo() {}] in [/ws/b.ts]. *)
Definition foo : FunctionInfo :=
  mkFunction "foo" "/ws/b.ts" 1 1 true false [] None.

Definition importFacts : list ImportInfo :=
  match extractImportInfo env importDecl "/ws/a.ts" with
  | Some i => [i]
  | None => []
  end.

Definition facts : AnalysisResult :=
  mkAnalysis [mkFile "/ws/a.ts"; mkFile "/ws/b.ts"] [foo] [] importFacts
             (fun _ => Some (OtherNode [])).

Definition graph : GraphData := graphOf (fst (buildPass facts emptyState)).

(** The same facts, had the import fact named the importing file. *)
Definition factsWithImporter : AnalysisResult :=
  mkAnalysis [mkFile "/ws/a.ts"; mkFile "/ws/b.ts"] [foo] []
             [mkImport "/ws/a.ts" ["foo"] false false]
             (fun _ => Some (OtherNode [])).

End ScenarioA.

(* ===================================================================== *)
(** ** Invariants of the extractor state *)
(* ===================================================================== *)

(** Keys of the node map are distinct and each node is stored under its id. *)
Definition nodesOk (st : ExtractorState) : Prop :=
  NoDup (JsMap.keys st.(nodeMap))
  /\ forall k n, In (k, n) st.(nodeMap) -> n.(n_id) = k.

Definition edgesOk (st : ExtractorState) : Prop :=
  NoDup (JsMap.keys st.(edgeMap))
  /\ forall k e, In (k, e) st.(edgeMap) -> e.(e_id) = k.

(** Both endpoints of every stored edge are keys of the node map. *)
Definition edgesClosed (st : ExtractorState) : Prop :=
  forall k e, In (k, e) st.(edgeMap) ->
              JsMap.has e.(e_source) st.(nodeMap) = true
              /\ JsMap.has e.(e_target) st.(nodeMap) = true.

(** The file index lists, under a path, only ids of stored nodes with
    that file path. *)
Definition indexOk (st : ExtractorState) : Prop :=
  forall p ids nodeId,
    JsMap.get p st.(fileToNodes) = Some ids -> In nodeId ids ->
    exists n, JsMap.get nodeId st.(nodeMap) = Some n /\ n.(n_filePath) = p.

Record WF (st : ExtractorState) : Prop := mkWF {
  wf_nodes : nodesOk st;
  wf_edges : edgesOk st;
  wf_closed : edgesClosed st;
  wf_index : indexOk st
}.

(** Stored nodes (resp. edges) stay stored, unchanged. *)
Definition nodesGrow (st st' : ExtractorState) : Prop :=
  forall k n, JsMap.get k st.(nodeMap) = Some n -> JsMap.get k st'.(nodeMap) = Some n.

Definition edgesGrow (st st' : ExtractorState) : Prop :=
  forall k e, JsMap.get k st.(edgeMap) = Some e -> JsMap.get k st'.(edgeMap) = Some e.

(** The callee names of the call expressions of a syntax tree, in the
    order [visit] meets them. *)
Fixpoint callNames (node : TsNode) : list string :=
  let inChildren :=
    fix inChildren (cs : list TsNode) : list string :=
      match cs with
      | [] => []
      | c :: cs' => app (callNames c) (inChildren cs')
      end in
  match node with
  | CallExpression expression children =>
      app (match functionNameOf expression with
           | Some functionName => [functionName]
           | None => []
           end)
          (inChildren children)
  | OtherNode children => inChildren children
  end.

(** Nothing but edges changes between two states. *)
Definition edgeOnly (st st' : ExtractorState) : Prop :=
  nodeMap st' = nodeMap st
  /\ fileToNodes st' = fileToNodes st
  /\ edgesGrow st st'.


(** Stored nodes and edges both stay, and a node that is new has no
    parent id (the import step only ever adds file nodes). *)
Definition grows (st st' : ExtractorState) : Prop :=
  nodesGrow st st'
  /\ edgesGrow st st'
  /\ forall k n, In (k, n) st'.(nodeMap) ->
                 In (k, n) st.(nodeMap) \/ n.(n_parentId) = None.


(** The states of the build pass after steps 4, 5, 6 and 7. *)
Definition afterNodes (a : AnalysisResult) : ExtractorState :=
  let st := fold_left (fun s file => createFileNode file.(f_path) s) a.(files) emptyState in
  let st := fold_left (fun s func => createFunctionNode func s) a.(functions) st in
  let st := fold_left (fun s cls => createClassNode cls s) a.(classes) st in
  fold_left
    (fun s cls =>
       fold_left (fun s method => createMethodNode method cls s) cls.(c_methods) s)
    a.(classes) st.

Definition afterImports (a : AnalysisResult) : ExtractorState :=
  fold_left (fun s importInfo => createImportEdges importInfo s) a.(imports) (afterNodes a).

Definition afterCalls (a : AnalysisResult) : ExtractorState :=
  fold_left
    (fun s file =>
       match a.(getSourceFile) file.(f_path) with
       | Some sourceFile => extractCallEdges sourceFile file.(f_path) s
       | None => s
       end)
    a.(files) (afterImports a).

Definition afterInheritance (a : AnalysisResult) : ExtractorState :=
  fold_left (fun s cls => createInheritanceEdges cls s) a.(classes) (afterCalls a).

(** The graph of a full build pass, before any filtering. *)
Definition builtGraph (a : AnalysisResult) : GraphData :=
  graphOf (fst (buildPass a emptyState)).

(** No hint argument of [extractGraphData] is truthy. *)
Definition noHintGiven (h : Hints) : bool :=
  negb (truthyString h.(targetFile) || truthyArray h.(relatedFiles)
        || truthyArray h.(relatedFunctions) || truthyArray h.(relatedClasses)
        || truthyArray h.(focusNodes)).

(** Every hint list that is supplied is empty and no target file is named:
    no hint category carries anything. *)
Definition onlyEmptyHints (h : Hints) : bool :=
  negb (truthyString h.(targetFile))
  && (length (nonEmptyArray h.(relatedFiles)) =? 0)%nat
  && (length (nonEmptyArray h.(relatedFunctions)) =? 0)%nat
  && (length (nonEmptyArray h.(relatedClasses)) =? 0)%nat
  && (length (nonEmptyArray h.(focusNodes)) =? 0)%nat.

(** A graph without dangling edges. *)
Definition closedGraph (g : GraphData) : Prop :=
  forall e, In e g.(edges) ->
            hasNode g e.(e_source) = true /\ hasNode g e.(e_target) = true.

(** The shape of the nodes the builder creates from colon-free facts: the
    id spells out the kind, the file path and the label, and the parent id
    is the id of the file node or of the class node. *)
Definition shaped (n : GraphNode) : Prop :=
  Str.colonFree n.(n_filePath) = true
  /\ match n.(n_type) with
     | NodeFile =>
         n.(n_id) = "file:" ++ n.(n_filePath) /\ n.(n_parentId) = None
     | NodeFunction =>
         Str.colonFree n.(n_label) = true
         /\ n.(n_id) = "function:" ++ n.(n_filePath) ++ ":" ++ n.(n_label)
         /\ n.(n_parentId) = Some ("file:" ++ n.(n_filePath))
     | NodeClass =>
         Str.colonFree n.(n_label) = true
         /\ n.(n_id) = "class:" ++ n.(n_filePath) ++ ":" ++ n.(n_label)
         /\ n.(n_parentId) = Some ("file:" ++ n.(n_filePath))
     | NodeMethod =>
         Str.colonFree n.(n_label) = true
         /\ n.(n_id) = "method:" ++ n.(n_filePath) ++ ":" ++ n.(n_label)
         /\ exists className,
              Str.colonFree className = true
              /\ n.(n_parentId) = Some ("class:" ++ n.(n_filePath) ++ ":" ++ className)
     | _ => False
     end.

Definition nodesShaped (st : ExtractorState) : Prop :=
  forall k n, In (k, n) st.(nodeMap) -> shaped n.

(** Every stored edge satisfies [P]. *)
Definition edgesSat (P : GraphEdge -> Prop) (st : ExtractorState) : Prop :=
  forall k e, In (k, e) st.(edgeMap) -> P e.

Definition isImportEdge (e : GraphEdge) : Prop :=
  e.(e_type) = EdgeImport
  /\ e.(e_id) = "import:" ++ e.(e_source) ++ ":" ++ e.(e_target).

(** How an edge of a built graph was made, in terms of the node map [N]
    and the file index [F] the build pass ends with. *)
Definition edgeMade (N : list (string * GraphNode)) (F : list (string * list string))
           (e : GraphEdge) : Prop :=
  isImportEdge e
  \/ (exists node,
        e = callEdge e.(e_source) e.(e_target)
        /\ In e.(e_target) (orEmpty (JsMap.get node.(n_filePath) F))
        /\ JsMap.get e.(e_target) N = Some node
        /\ findCallerNode_in N (orEmpty (JsMap.get node.(n_filePath) F))
           = Some e.(e_source))
  \/ (e.(e_type) = EdgeExtends
      /\ e.(e_id) = "extends:" ++ e.(e_source) ++ ":" ++ e.(e_target))
  \/ (e.(e_type) = EdgeImplements
      /\ e.(e_id) = "implements:" ++ e.(e_source) ++ ":" ++ e.(e_target))
  \/ (exists node,
        e = containsEdge e.(e_source) e.(e_target)
        /\ In (e.(e_target), node) N
        /\ node.(n_parentId) = Some e.(e_source)
        /\ JsMap.has e.(e_source) N = true).



(** A function in a file that is not among the listed files: its parent
    id resolves to no node. *)
Definition orphanFacts : AnalysisResult :=
  mkAnalysis [] [mkFunction "f" "/x.ts" 1 1 false false [] None] [] []
             (fun _ => None).

(** A file with two functions, the second calling [helper()], and a
    method: call edges start at the first function node of the file. *)
Definition callFacts : AnalysisResult :=
  mkAnalysis [mkFile "/ws/m.ts"]
             [mkFunction "main" "/ws/m.ts" 1 1 false false [] None;
              mkFunction "helper" "/ws/m.ts" 5 1 false false [] None]
             [mkClass "K" "/ws/m.ts" 9 1 false None []
                      [mkMethod "run" "/ws/m.ts" 10 3 true false false [] None]]
             []
             (fun p => if p =? "/ws/m.ts"
                       then Some (OtherNode [CallExpression (CalleeIdentifier "helper") []])
                       else None).

(** The invariant of the traversal loop: [U] bounds the ids it can meet. *)
Record TraverseInv (g : GraphData) (U : list string) (fr : Frontier)
       (processedNodes : list string) : Prop := mkTraverseInv {
  ti_related : forall x, In x fr.(relatedNodeIds) ->
                         In x processedNodes \/ In x fr.(nodesToProcess);
  ti_processed : forall x, In x processedNodes -> In x fr.(relatedNodeIds);
  ti_parent : forall x n p,
      In x processedNodes -> findNode g x = Some n ->
      n.(n_parentId) = Some p -> Str.truthy p = true ->
      In p processedNodes \/ In p fr.(nodesToProcess);
  ti_nodup : NoDup processedNodes;
  ti_processed_bound : incl processedNodes U;
  ti_queue_bound : incl fr.(nodesToProcess) U;
  ti_fresh : forall x, In x fr.(nodesToProcess) -> ~ In x processedNodes
}.

(** A set of ids that contains, with the id of a node, its parent id. *)
Definition parentClosed (g : GraphData) (related : list string) : Prop :=
  forall x n p,
    In x related -> findNode g x = Some n ->
    n.(n_parentId) = Some p -> Str.truthy p = true -> In p related.

(** What one scan over the edges may do to the two sets it started from. *)
Definition scanned (U processedNodes : list string) (fr0 fr : Frontier) : Prop :=
  incl fr0.(nodesToProcess) fr.(nodesToProcess)
  /\ incl fr0.(relatedNodeIds) fr.(relatedNodeIds)
  /\ (forall x, In x fr.(nodesToProcess) ->
                In x fr0.(nodesToProcess) \/ (~ In x processedNodes /\ In x U))
  /\ (forall x, In x fr.(relatedNodeIds) ->
                In x fr0.(relatedNodeIds) \/ In x fr.(nodesToProcess)).



(** Two functions of a file that is not among the listed files. *)
Definition unlistedFacts : AnalysisResult :=
  mkAnalysis []
             [mkFunction "f" "/x.ts" 1 1 false false [] None;
              mkFunction "g" "/x.ts" 2 1 false false [] None]
             [] [] (fun _ => None).

(** The invariant of steps 6 to 8: the node map and the file index are
    [N] and [F], and every edge was made as [edgeMade] says. *)
Definition stable (N : list (string * GraphNode)) (F : list (string * list string))
           (s : ExtractorState) : Prop :=
  nodeMap s = N /\ fileToNodes s = F /\ edgesSat (edgeMade N F) s.


(* ===================================================================== *)
(** ** Further code: the D3 transformation ([visualizer/graphDataTransformer.ts]) *)
(* ===================================================================== *)

(** The string values of the two enums of [types.ts]. *)
Definition nodeTypeValue (t : NodeType) : string :=
  match t with
  | NodeFile => "file"
  | NodeFunction => "function"
  | NodeClass => "class"
  | NodeMethod => "method"
  | NodeInterface => "interface"
  | NodeTypeAlias => "type"
  | NodeVariable => "variable"
  end.

Definition edgeTypeValue (t : EdgeType) : string :=
  match t with
  | EdgeImport => "import"
  | EdgeExport => "export"
  | EdgeCall => "call"
  | EdgeExtends => "extends"
  | EdgeImplements => "implements"
  | EdgeReference => "reference"
  end.

Record D3Node : Type := mkD3Node {
  d_id : string;
  d_label : string;
  d_type : string;
  d_group : nat;
  d_filePath : string;
  d_line : option nat;
  d_column : option nat;
  d_metadata : option Metadata
}.

Record D3Link : Type := mkD3Link {
  l_source : string;
  l_target : string;
  l_type : string;
  l_label : option string;
  l_value : nat
}.

Record D3GraphData : Type := mkD3Graph {
  d3nodes : list D3Node;
  d3links : list D3Link
}.

Definition getNodeGroup (nodeType : NodeType) : nat :=
  match nodeType with
  | NodeFile => 1
  | NodeFunction => 2
  | NodeClass => 3
  | NodeMethod => 4
  | NodeInterface => 5
  | NodeTypeAlias => 6
  | NodeVariable => 7
  end.

Definition getEdgeValue (edgeType : EdgeType) : nat :=
  match edgeType with
  | EdgeImport => 1
  | EdgeExport => 1
  | EdgeCall => 2
  | EdgeExtends => 3
  | EdgeImplements => 2
  | EdgeReference => 1
  end.

Definition transformNode (node : GraphNode) : D3Node :=
  mkD3Node node.(n_id) node.(n_label) (nodeTypeValue node.(n_type))
           (getNodeGroup node.(n_type)) node.(n_filePath) node.(n_line)
           node.(n_column) node.(n_metadata).

Definition transformLink (edge : GraphEdge) : D3Link :=
  mkD3Link edge.(e_source) edge.(e_target) (edgeTypeValue edge.(e_type))
           edge.(e_label) (getEdgeValue edge.(e_type)).

Definition transformToD3Format (graphData : GraphData) : D3GraphData :=
  mkD3Graph (map transformNode graphData.(nodes)) (map transformLink graphData.(edges)).

Definition getNodeColor (nodeType : NodeType) : string :=
  match nodeType with
  | NodeFile => "#1f77b4"
  | NodeFunction => "#ff7f0e"
  | NodeClass => "#2ca02c"
  | NodeMethod => "#d62728"
  | NodeInterface => "#9467bd"
  | NodeTypeAlias => "#8c564b"
  | NodeVariable => "#e377c2"
  end.

Definition getEdgeColor (edgeType : EdgeType) : string :=
  match edgeType with
  | EdgeImport => "#1f77b4"
  | EdgeExport => "#2ca02c"
  | EdgeCall => "#ff7f0e"
  | EdgeExtends => "#d62728"
  | EdgeImplements => "#9467bd"
  | EdgeReference => "#7f7f7f"
  end.

(** A caller-shaped node that carries an engine node's id, label and kind
    tag and leaves the file path to be derived from the id. *)
Definition specNodeOf (d : D3Node) : SpecNode :=
  mkSpecNode d.(d_id) d.(d_label) d.(d_type) None d.(d_line) d.(d_column).

Definition specEdgeOf (l : D3Link) : SpecEdge :=
  mkSpecEdge l.(l_source) l.(l_target) l.(l_type) l.(l_label).

(* ===================================================================== *)
(** ** Further invariants of the builder *)
(* ===================================================================== *)

(** The node [createFileNode] stores for a path. *)
Definition fileNode (filePath : string) : GraphNode :=
  mkNode ("file:" ++ filePath) (Path.basename filePath) NodeFile filePath
         None None None (Some (MetaFile filePath)).

Definition functionNode (func : FunctionInfo) : GraphNode :=
  mkNode ("function:" ++ func.(fn_filePath) ++ ":" ++ func.(fn_name)) func.(fn_name)
         NodeFunction func.(fn_filePath)
         (Some func.(fn_line)) (Some func.(fn_column))
         (Some ("file:" ++ func.(fn_filePath)))
         (Some (MetaFunction func.(fn_isExported) func.(fn_isAsync)
                             func.(fn_parameters) func.(fn_returnType))).

(** Every stored node satisfies [P]. *)
Definition nodesSat (P : GraphNode -> Prop) (st : ExtractorState) : Prop :=
  forall k n, In (k, n) st.(nodeMap) -> P n.

Definition classNode (cls : ClassInfo) : GraphNode :=
  mkNode ("class:" ++ cls.(c_filePath) ++ ":" ++ cls.(c_name)) cls.(c_name)
         NodeClass cls.(c_filePath)
         (Some cls.(c_line)) (Some cls.(c_column))
         (Some ("file:" ++ cls.(c_filePath)))
         (Some (MetaClass cls.(c_isExported) cls.(c_extends) cls.(c_implements))).

Definition methodNode (method : MethodInfo) (cls : ClassInfo) : GraphNode :=
  mkNode ("method:" ++ method.(m_filePath) ++ ":" ++ cls.(c_name) ++ "."
                    ++ method.(m_name))
         (cls.(c_name) ++ "." ++ method.(m_name)) NodeMethod method.(m_filePath)
         (Some method.(m_line)) (Some method.(m_column))
         (Some ("class:" ++ method.(m_filePath) ++ ":" ++ cls.(c_name)))
         (Some (MetaMethod method.(m_isPublic) method.(m_isStatic) method.(m_isAsync)
                           method.(m_parameters) method.(m_returnType))).

(** The file paths the facts mention. *)
Definition knownPaths (a : AnalysisResult) : list string :=
  app (map f_path a.(files))
      (app (map fn_filePath a.(functions))
           (app (map c_filePath a.(classes))
                (app (flat_map (fun c => map m_filePath c.(c_methods)) a.(classes))
                     (map i_from a.(imports))))).

(** The node is the node of a fact: of a path the facts mention, of a
    function, of a class, or of a method of a class. *)
Definition fromFacts (a : AnalysisResult) (n : GraphNode) : Prop :=
  (exists p, In p (knownPaths a) /\ n = fileNode p)
  \/ (exists func, In func a.(functions) /\ n = functionNode func)
  \/ (exists cls, In cls a.(classes) /\ n = classNode cls)
  \/ (exists cls method,
        In cls a.(classes) /\ In method cls.(c_methods) /\ n = methodNode method cls).

(** The edge types a build pass produces. *)
Definition builtEdgeType (e : GraphEdge) : Prop :=
  e.(e_type) = EdgeImport \/ e.(e_type) = EdgeCall
  \/ e.(e_type) = EdgeExtends \/ e.(e_type) = EdgeReference.

(** The ids of the file index are ids of stored nodes of that file that
    are not method nodes. *)
Definition indexListsDeclarations (st : ExtractorState) : Prop :=
  forall p ids nodeId,
    JsMap.get p st.(fileToNodes) = Some ids -> In nodeId ids ->
    exists n, JsMap.get nodeId st.(nodeMap) = Some n
              /\ n.(n_filePath) = p /\ n.(n_type) <> NodeMethod.

(** What the build pass guarantees about an inheritance edge: an
    [extends] edge starts at the id of a class fact and ends at a class
    node labelled with the name that fact extends; [implements] and
    [export] edges are not produced. *)
Definition inheritanceMade (a : AnalysisResult) (N : list (string * GraphNode))
           (e : GraphEdge) : Prop :=
  match e.(e_type) with
  | EdgeExtends =>
      exists cls target,
        In cls a.(classes)
        /\ cls.(c_extends) = Some target.(n_label)
        /\ e.(e_source) = "class:" ++ cls.(c_filePath) ++ ":" ++ cls.(c_name)
        /\ In (e.(e_target), target) N
        /\ target.(n_type) = NodeClass
  | EdgeImplements => False
  | EdgeExport => False
  | _ => True
  end.

(** The invariant of the traversal loop about edges: the neighbours of a
    processed id are processed or on the work list. *)
Definition neighboursQueued (g : GraphData) (fr : Frontier)
           (processedNodes : list string) : Prop :=
  forall e x y,
    In e g.(edges) ->
    (e.(e_source) = x /\ e.(e_target) = y) \/ (e.(e_target) = x /\ e.(e_source) = y) ->
    In x processedNodes ->
    In y processedNodes \/ In y fr.(nodesToProcess).

(** A set of ids that contains, with one endpoint of an edge, the other. *)
Definition edgeClosed (g : GraphData) (related : list string) : Prop :=
  forall e, In e g.(edges) ->
            (In e.(e_source) related <-> In e.(e_target) related).

(** An endpoint of the edge is not the id of a given node. *)
Definition isDangling (ns : list SpecNode) (e : SpecEdge) : bool :=
  negb (existsb (fun n => n.(sn_id) =? e.(se_source)) ns)
  || negb (existsb (fun n => n.(sn_id) =? e.(se_target)) ns).

(** A file with a function declared twice and two classes, the second
    extending the first and implementing an interface. *)
Definition inheritFacts : AnalysisResult :=
  mkAnalysis [mkFile "/ws/s.ts"]
             [mkFunction "f" "/ws/s.ts" 1 1 true false [] None;
              mkFunction "f" "/ws/s.ts" 7 1 false false [] None]
             [mkClass "Base" "/ws/s.ts" 2 1 true None [] [];
              mkClass "Derived" "/ws/s.ts" 4 1 true (Some "Base") ["Shape"]
                      [mkMethod "run" "/ws/s.ts" 5 3 true false false [] None]]
             []
             (fun _ => None).

(** The id the build pass gives to an edge of this kind between these
    endpoints; its [reference] edges are the containment edges. *)
Definition builtEdgeId (e : GraphEdge) : string :=
  match e.(e_type) with
  | EdgeImport => "import:"
  | EdgeCall => "call:"
  | EdgeExtends => "extends:"
  | EdgeImplements => "implements:"
  | _ => "parent:"
  end ++ e.(e_source) ++ ":" ++ e.(e_target).

(** A hint that names the class [K] without a file path. *)
Definition classHint : Hints :=
  mkHints None None None (Some [mkHint "K" None]) None.

(** The ids the Context Filter can relate to the seeds: from an id it
    follows an edge in either direction, goes to the file node id of the
    node it names, to that node's parent id, and from a file node to the
    nodes with the same file path. *)
Inductive linked (g : GraphData) (seedIds : list string) : string -> Prop :=
| linked_seed x : In x seedIds -> linked g seedIds x
| linked_target e :
    In e g.(edges) -> linked g seedIds e.(e_source) -> linked g seedIds e.(e_target)
| linked_source e :
    In e g.(edges) -> linked g seedIds e.(e_target) -> linked g seedIds e.(e_source)
| linked_file x n :
    linked g seedIds x -> findNode g x = Some n ->
    linked g seedIds ("file:" ++ n.(n_filePath))
| linked_parent x n p :
    linked g seedIds x -> findNode g x = Some n -> n.(n_parentId) = Some p ->
    linked g seedIds p
| linked_sibling x n c :
    linked g seedIds x -> findNode g x = Some n -> n.(n_type) = NodeFile ->
    In c g.(nodes) -> c.(n_filePath) = n.(n_filePath) ->
    linked g seedIds c.(n_id).

(** Every id of the two sets of the traversal is linked to the seeds. *)
Definition frontierLinked (g : GraphData) (seedIds : list string) (fr : Frontier)
  : Prop :=
  forall x, In x fr.(nodesToProcess) \/ In x fr.(relatedNodeIds) -> linked g seedIds x.

(** Two files that do not refer to each other. *)
Definition apartFacts : AnalysisResult :=
  mkAnalysis [mkFile "/ws/p.ts"; mkFile "/ws/q.ts"]
             [mkFunction "f" "/ws/p.ts" 1 1 true false [] None;
              mkFunction "g" "/ws/q.ts" 1 1 true false [] None]
             [] [] (fun _ => None).

(* ===================================================================== *)
(** * Properties *)
(* ===================================================================== *)

(** ** Direct graph ingestion *)

Lemma nodeTypeOfTag_default tag :
  ~ In tag recognizedNodeTags -> nodeTypeOfTag tag = NodeFile.
Proof.
  intros H. unfold nodeTypeOfTag.
  repeat match goal with
         | |- context [?t =? ?c] =>
             destruct (String.eqb_spec t c) as [-> | _];
             [exfalso; apply H; simpl; tauto | ]
         end.
  reflexivity.
Qed.

Lemma edgeTypeOfTag_default tag :
  ~ In tag recognizedEdgeTags -> edgeTypeOfTag tag = EdgeReference.
Proof.
  intros H. unfold edgeTypeOfTag.
  repeat match goal with
         | |- context [?t =? ?c] =>
             destruct (String.eqb_spec t c) as [-> | _];
             [exfalso; apply H; simpl; tauto | ]
         end.
  reflexivity.
Qed.

Lemma ingestEdges_length ns k es : length (ingestEdges ns k es) = length es.
Proof.
  revert k. induction es as [| e es IH]; intros k; simpl; [reflexivity |].
  now rewrite IH.
Qed.

Lemma ingestEdges_nth ns es : forall k i e,
  nth_error es i = Some e ->
  nth_error (ingestEdges ns k es) i = Some (ingestEdge ns (k + i) e).
Proof.
  induction es as [| e0 es IH]; intros k i e H.
  - destruct i; discriminate.
  - destruct i as [| i]; simpl in *.
    + injection H as ->. now rewrite Nat.add_0_r.
    + rewrite (IH (S k) i e H). f_equal. f_equal. lia.
Qed.

Lemma in_flat_map_nth {A B : Type} (f : A -> list B) (l : list A) i a b :
  nth_error l i = Some a -> In b (f a) -> In b (flat_map f l).
Proof.
  intros Hn Hb. apply in_flat_map. exists a. split; [| exact Hb].
  eapply nth_error_In; eauto.
Qed.

(** C8.  Direct ingestion accepts every node and edge array: the output
    has one node per input node and one edge per input edge, in order; an
    unrecognised kind tag becomes [file] and an unrecognised type tag
    becomes [reference]; an edge keeps its source and target ids even when
    they name no supplied node, and each missing endpoint is reported in
    the diagnostics. *)
Theorem createGraphFromLLMSpec_passthrough (ns : list SpecNode) (es : list SpecEdge) :
  let g := fst (createGraphFromLLMSpec ns es) in
  let log := snd (createGraphFromLLMSpec ns es) in
  length g.(nodes) = length ns
  /\ length g.(edges) = length es
  /\ (forall i n, nth_error ns i = Some n ->
        exists gn, nth_error g.(nodes) i = Some gn
                   /\ gn.(n_id) = n.(sn_id)
                   /\ gn.(n_label) = n.(sn_label)
                   /\ gn.(n_type) = nodeTypeOfTag n.(sn_type)
                   /\ (~ In n.(sn_type) recognizedNodeTags -> gn.(n_type) = NodeFile))
  /\ (forall i e, nth_error es i = Some e ->
        exists ge, nth_error g.(edges) i = Some ge
                   /\ ge.(e_id) = "edge-" ++ Str.ofNat i
                   /\ ge.(e_source) = e.(se_source)
                   /\ ge.(e_target) = e.(se_target)
                   /\ ge.(e_type) = edgeTypeOfTag e.(se_type)
                   /\ (~ In e.(se_type) recognizedEdgeTags -> ge.(e_type) = EdgeReference)
                   /\ (hasNode g e.(se_source) = false ->
                       In (SourceNotFound i e.(se_source)) log)
                   /\ (hasNode g e.(se_target) = false ->
                       In (TargetNotFound i e.(se_target)) log)).
Proof.
  unfold createGraphFromLLMSpec; simpl.
  repeat split.
  - apply length_map.
  - rewrite length_map. apply ingestEdges_length.
  - intros i n Hn. exists (ingestNode n).
    rewrite nth_error_map, Hn. simpl.
    repeat split. intros Hu. now apply nodeTypeOfTag_default.
  - intros i e He.
    pose proof (ingestEdges_nth (map ingestNode ns) es 0 i e He) as Hi.
    simpl in Hi.
    exists (fst (ingestEdge (map ingestNode ns) i e)).
    rewrite nth_error_map, Hi. simpl.
    repeat split.
    + intros Hu. now apply edgeTypeOfTag_default.
    + intros Hs. eapply in_flat_map_nth; [exact Hi |].
      unfold ingestEdge, hasNode in *. simpl in *. rewrite Hs. simpl. now left.
    + intros Ht. eapply in_flat_map_nth; [exact Hi |].
      unfold ingestEdge, hasNode in *. simpl in *. rewrite Ht.
      apply in_or_app. right. simpl. now left.
Qed.

(** ** File path resolution *)

Lemma sortByPathLength_head l : hd_error (sortByPathLength l) = firstShortest l.
Proof.
  induction l as [| f l IH]; simpl; [reflexivity |].
  rewrite <- IH. unfold sortByPathLength.
  destruct (fold_right insertByPathLength [] l) as [| g rest]; simpl; [reflexivity |].
  now destruct (String.length (f_path f) <=? String.length (f_path g))%nat.
Qed.


Lemma prefix_refl s : String.prefix s s = true.
Proof.
  induction s as [| c s IH]; simpl; [reflexivity |].
  destruct (ascii_dec c c); [exact IH | congruence].
Qed.

Lemma endsWith_includes s suf : Str.endsWith s suf = true -> Str.includes s suf = true.
Proof.
  induction s as [| c s IH]; intros H.
  - destruct suf; [reflexivity | discriminate].
  - cbn [Str.endsWith] in H. cbn [Str.includes].
    apply orb_true_iff in H. apply orb_true_iff. destruct H as [H | H].
    + apply String.eqb_eq in H. subst suf. left. apply prefix_refl.
    + right. now apply IH.
Qed.

Lemma containsHint_includes hint f : containsHint hint f = Str.includes (f_path f) hint.
Proof.
  unfold containsHint.
  destruct (Str.endsWith (f_path f) hint) eqn:E; [| reflexivity].
  simpl. symmetry. now apply endsWith_includes.
Qed.





(** ** Insertion-ordered maps and sets *)

Section JsMapFacts.
Context {V : Type}.
Implicit Types (m : list (string * V)) (k : string) (v : V).

Lemma get_In k v m : JsMap.get k m = Some v -> In (k, v) m.
Proof.
  induction m as [| [k' v'] m IH]; simpl; [discriminate |].
  destruct (String.eqb_spec k' k) as [-> | _].
  - intros [= ->]. now left.
  - intros H. right. now apply IH.
Qed.

Lemma In_has k v m : In (k, v) m -> JsMap.has k m = true.
Proof.
  unfold JsMap.has.
  induction m as [| [k' v'] m IH]; simpl; [tauto |].
  intros [[= -> ->] | H].
  - now rewrite String.eqb_refl.
  - destruct (k' =? k); [reflexivity | now apply IH].
Qed.

Lemma has_get k m : JsMap.has k m = true -> exists v, JsMap.get k m = Some v.
Proof.
  unfold JsMap.has. destruct (JsMap.get k m) as [v |]; [eauto | discriminate].
Qed.

Lemma get_has k v m : JsMap.get k m = Some v -> JsMap.has k m = true.
Proof. unfold JsMap.has. now intros ->. Qed.

Lemma has_false_get k m : JsMap.has k m = false -> JsMap.get k m = None.
Proof. unfold JsMap.has. destruct (JsMap.get k m); [discriminate | reflexivity]. Qed.

Lemma has_false_keys k m : JsMap.has k m = false -> ~ In k (JsMap.keys m).
Proof.
  intros H Hin. unfold JsMap.keys in Hin. apply in_map_iff in Hin.
  destruct Hin as ([k' v] & Hk & Hin). simpl in Hk. subst k'.
  apply In_has in Hin. congruence.
Qed.

Lemma In_get k v m : NoDup (JsMap.keys m) -> In (k, v) m -> JsMap.get k m = Some v.
Proof.
  induction m as [| [k' v'] m IH]; simpl; [tauto |].
  intros Hnd [[= -> ->] | H].
  - now rewrite String.eqb_refl.
  - inversion Hnd as [| ? ? Hnot Hnd']; subst.
    destruct (String.eqb_spec k' k) as [-> | _].
    + exfalso. apply Hnot. unfold JsMap.keys. apply in_map_iff.
      now exists (k, v).
    + now apply IH.
Qed.

Lemma set_absent k v m : JsMap.has k m = false -> JsMap.set k v m = (m ++ [(k, v)])%list.
Proof.
  unfold JsMap.has.
  induction m as [| [k' v'] m IH]; simpl; [reflexivity |].
  destruct (k' =? k); [discriminate |].
  intros H. now rewrite IH.
Qed.

Lemma get_set_same k v m : JsMap.get k (JsMap.set k v m) = Some v.
Proof.
  induction m as [| [k' v'] m IH]; simpl.
  - now rewrite String.eqb_refl.
  - destruct (k' =? k) eqn:E; simpl.
    + now rewrite String.eqb_refl.
    + now rewrite E.
Qed.

Lemma get_set_other k k' v m : k <> k' -> JsMap.get k' (JsMap.set k v m) = JsMap.get k' m.
Proof.
  intros Hne.
  induction m as [| [k0 v0] m IH]; simpl.
  - destruct (String.eqb_spec k k'); [contradiction | reflexivity].
  - destruct (String.eqb_spec k0 k) as [-> | Hk0]; simpl.
    + destruct (String.eqb_spec k k'); [contradiction | reflexivity].
    + destruct (k0 =? k'); [reflexivity | exact IH].
Qed.

Lemma get_set_mono k k' v v' m :
  JsMap.has k m = false -> JsMap.get k' m = Some v' ->
  JsMap.get k' (JsMap.set k v m) = Some v'.
Proof.
  intros Habs Hget. rewrite get_set_other; [exact Hget |].
  intros ->. apply has_false_get in Habs. congruence.
Qed.

Lemma has_set_mono k k' v m :
  JsMap.has k' m = true -> JsMap.has k' (JsMap.set k v m) = true.
Proof.
  intros H. unfold JsMap.has in *.
  destruct (String.eqb_spec k k') as [-> | Hne].
  - now rewrite get_set_same.
  - now rewrite get_set_other.
Qed.

Lemma keys_app m m' : JsMap.keys (m ++ m')%list = (JsMap.keys m ++ JsMap.keys m')%list.
Proof. apply map_app. Qed.

Lemma NoDup_keys_set k v m :
  JsMap.has k m = false -> NoDup (JsMap.keys m) -> NoDup (JsMap.keys (JsMap.set k v m)).
Proof.
  intros Habs Hnd. rewrite set_absent by assumption. rewrite keys_app. simpl.
  apply NoDup_app; [exact Hnd | repeat constructor; tauto |].
  intros x Hx [<- | []]. now apply has_false_keys in Habs.
Qed.

Lemma In_set_absent k v k' v' m :
  JsMap.has k m = false ->
  In (k', v') (JsMap.set k v m) -> In (k', v') m \/ (k' = k /\ v' = v).
Proof.
  intros Habs. rewrite set_absent by assumption.
  intros H. apply in_app_or in H. destruct H as [H | [[= <- <-] | []]]; auto.
Qed.

Lemma In_set_keep k v k' v' m :
  JsMap.has k m = false -> In (k', v') m -> In (k', v') (JsMap.set k v m).
Proof.
  intros Habs H. rewrite set_absent by assumption. apply in_or_app. now left.
Qed.

Lemma In_set_new k v m : JsMap.has k m = false -> In (k, v) (JsMap.set k v m).
Proof.
  intros Habs. rewrite set_absent by assumption. apply in_or_app. right. now left.
Qed.

End JsMapFacts.

Lemma set_has_In s x : JsSet.has s x = true <-> In x s.
Proof.
  unfold JsSet.has. rewrite existsb_exists. split.
  - intros (y & Hy & E). apply String.eqb_eq in E. now subst.
  - intros H. exists x. split; [exact H | apply String.eqb_refl].
Qed.

Lemma set_has_false s x : JsSet.has s x = false <-> ~ In x s.
Proof.
  rewrite <- set_has_In. destruct (JsSet.has s x); split; congruence.
Qed.

Lemma set_add_In x y s : In y (JsSet.add x s) <-> y = x \/ In y s.
Proof.
  unfold JsSet.add. destruct (JsSet.has s x) eqn:E.
  - apply set_has_In in E. split; [tauto |]. intros [-> | H]; assumption.
  - rewrite in_app_iff. simpl. split; [intros [H | [<- | []]] | intros [-> | H]]; auto.
Qed.

Lemma set_add_keep x y s : In y s -> In y (JsSet.add x s).
Proof. intros H. apply set_add_In. now right. Qed.

Lemma set_add_new x s : In x (JsSet.add x s).
Proof. apply set_add_In. now left. Qed.

Lemma set_add_NoDup x s : NoDup s -> NoDup (JsSet.add x s).
Proof.
  intros H. unfold JsSet.add. destruct (JsSet.has s x) eqn:E; [exact H |].
  apply set_has_false in E.
  apply NoDup_app; [exact H | repeat constructor; tauto |].
  intros y Hy [<- | []]. contradiction.
Qed.

Lemma set_delete_In x y s : In y (JsSet.delete x s) <-> In y s /\ y <> x.
Proof.
  induction s as [| z s IH]; simpl; [tauto |].
  destruct (String.eqb_spec z x) as [-> | Hne]; simpl; rewrite IH.
  - split; [tauto |]. intros [[<- | H] Hn]; [contradiction | tauto].
  - split; [intros [<- | [H Hn]]; auto |]. intros [[<- | H] Hn]; auto.
Qed.

Lemma fold_left_invariant {A B : Type} (P : A -> Prop) (f : A -> B -> A) (l : list B) :
  forall a, P a -> (forall a x, In x l -> P a -> P (f a x)) -> P (fold_left f l a).
Proof.
  induction l as [| x l IH]; intros a Ha Hstep; simpl; [exact Ha |].
  apply IH.
  - apply Hstep; [now left | exact Ha].
  - intros a' y Hy. apply Hstep. now right.
Qed.

(** ** The builder keeps its maps well formed *)

Lemma nodesGrow_refl st : nodesGrow st st.
Proof. intros k n H. exact H. Qed.

Lemma nodesGrow_trans st1 st2 st3 :
  nodesGrow st1 st2 -> nodesGrow st2 st3 -> nodesGrow st1 st3.
Proof. intros H1 H2 k n H. apply H2, H1, H. Qed.

Lemma nodesGrow_has st st' k :
  nodesGrow st st' -> JsMap.has k st.(nodeMap) = true -> JsMap.has k st'.(nodeMap) = true.
Proof.
  intros Hg H. apply has_get in H. destruct H as [n H].
  eapply get_has. apply Hg. exact H.
Qed.

Lemma edgesGrow_refl st : edgesGrow st st.
Proof. intros k n H. exact H. Qed.

Lemma edgesGrow_trans st1 st2 st3 :
  edgesGrow st1 st2 -> edgesGrow st2 st3 -> edgesGrow st1 st3.
Proof. intros H1 H2 k n H. apply H2, H1, H. Qed.

Lemma emptyState_WF : WF emptyState.
Proof.
  split.
  - split; [constructor | intros k n []].
  - split; [constructor | intros k n []].
  - intros k e [].
  - intros p ids nodeId H. discriminate.
Qed.

Lemma setNode_WF k node st :
  WF st -> JsMap.has k st.(nodeMap) = false -> node.(n_id) = k -> WF (setNode k node st).
Proof.
  intros [[Hnd Hid] He Hc Hi] Habs Hk. split.
  - split; simpl.
    + now apply NoDup_keys_set.
    + intros k' n' H. apply In_set_absent in H; [| exact Habs].
      destruct H as [H | [-> ->]]; [now apply Hid | exact Hk].
  - exact He.
  - intros k' e H. simpl. destruct (Hc k' e H) as [H1 H2].
    split; now apply has_set_mono.
  - intros p ids nodeId Hp Hin. simpl in *.
    destruct (Hi p ids nodeId Hp Hin) as (n & Hn & Hf).
    exists n. split; [| exact Hf]. now apply get_set_mono.
Qed.

Lemma setNode_grow k node st :
  JsMap.has k st.(nodeMap) = false -> nodesGrow st (setNode k node st).
Proof. intros Habs k' n H. simpl. now apply get_set_mono. Qed.

Lemma registerInFile_WF p nodeId n st :
  WF st -> JsMap.get nodeId st.(nodeMap) = Some n -> n.(n_filePath) = p ->
  WF (registerInFile p nodeId st).
Proof.
  intros [Hn He Hc Hi] Hget Hp. split; try assumption.
  intros p' ids id Hp' Hin. unfold registerInFile in Hp'. simpl in *.
  destruct (String.eqb_spec p p') as [<- | Hne].
  - rewrite get_set_same in Hp'. injection Hp' as <-.
    apply in_app_or in Hin. destruct Hin as [Hin | [<- | []]].
    + destruct (JsMap.has p (fileToNodes st)) eqn:Hh.
      * destruct (JsMap.get p (fileToNodes st)) as [ids0 |] eqn:Hg; [| destruct Hin].
        exact (Hi p ids0 id Hg Hin).
      * rewrite get_set_same in Hin. destruct Hin.
    + exists n. split; assumption.
  - rewrite get_set_other in Hp' by assumption.
    destruct (JsMap.has p (fileToNodes st)) eqn:Hh.
    + exact (Hi p' ids id Hp' Hin).
    + rewrite get_set_other in Hp' by assumption. exact (Hi p' ids id Hp' Hin).
Qed.

Lemma addEdge_WF e st :
  WF st ->
  JsMap.has e.(e_source) st.(nodeMap) = true ->
  JsMap.has e.(e_target) st.(nodeMap) = true ->
  WF (addEdge e st).
Proof.
  intros Hwf Hs Ht. unfold addEdge.
  destruct (JsMap.has (e_id e) (edgeMap st)) eqn:Habs; [exact Hwf |].
  destruct Hwf as [Hn [Hnd Hid] Hc Hi]. split; try assumption.
  - split; simpl.
    + now apply NoDup_keys_set.
    + intros k' e' H. apply In_set_absent in H; [| exact Habs].
      destruct H as [H | [-> ->]]; [now apply Hid | reflexivity].
  - intros k' e' H. simpl in *. apply In_set_absent in H; [| exact Habs].
    destruct H as [H | [-> ->]]; [now apply (Hc k') | now split].
Qed.

Lemma addEdge_nodeMap e st : nodeMap (addEdge e st) = nodeMap st.
Proof. unfold addEdge. now destruct (JsMap.has _ _). Qed.

Lemma addEdge_fileToNodes e st : fileToNodes (addEdge e st) = fileToNodes st.
Proof. unfold addEdge. now destruct (JsMap.has _ _). Qed.

Lemma addEdge_edgesGrow e st : edgesGrow st (addEdge e st).
Proof.
  unfold addEdge. destruct (JsMap.has _ _) eqn:Habs; [apply edgesGrow_refl |].
  intros k e' H. simpl. now apply get_set_mono.
Qed.

(** A node creation of the shape shared by files, functions and classes. *)
Lemma createNode_WF k node p st :
  WF st -> node.(n_id) = k -> node.(n_filePath) = p ->
  JsMap.has k st.(nodeMap) = false ->
  WF (registerInFile p k (setNode k node st)).
Proof.
  intros Hwf Hk Hp Habs.
  eapply registerInFile_WF with (n := node).
  - now apply setNode_WF.
  - simpl. apply get_set_same.
  - exact Hp.
Qed.

Lemma createFileNode_WF p st : WF st -> WF (createFileNode p st).
Proof.
  intros Hwf. unfold createFileNode.
  destruct (JsMap.has _ _) eqn:Habs; [exact Hwf |].
  now apply createNode_WF.
Qed.

Lemma createFileNode_grow p st : nodesGrow st (createFileNode p st).
Proof.
  unfold createFileNode. destruct (JsMap.has _ _) eqn:Habs; [apply nodesGrow_refl |].
  intros k n H. simpl. now apply get_set_mono.
Qed.

Lemma createFileNode_edgeMap p st : edgeMap (createFileNode p st) = edgeMap st.
Proof. unfold createFileNode. now destruct (JsMap.has _ _). Qed.

Lemma createFileNode_has p st :
  JsMap.has ("file:" ++ p) (nodeMap (createFileNode p st)) = true.
Proof.
  unfold createFileNode.
  destruct (JsMap.has ("file:" ++ p) (nodeMap st)) eqn:Habs; [exact Habs |].
  simpl. unfold JsMap.has. now rewrite get_set_same.
Qed.

Lemma createFunctionNode_WF f st : WF st -> WF (createFunctionNode f st).
Proof.
  intros Hwf. unfold createFunctionNode.
  destruct (JsMap.has _ _) eqn:Habs; [exact Hwf |].
  now apply createNode_WF.
Qed.

Lemma createFunctionNode_grow f st : nodesGrow st (createFunctionNode f st).
Proof.
  unfold createFunctionNode. destruct (JsMap.has _ _) eqn:Habs; [apply nodesGrow_refl |].
  intros k n H. simpl. now apply get_set_mono.
Qed.

Lemma createClassNode_WF c st : WF st -> WF (createClassNode c st).
Proof.
  intros Hwf. unfold createClassNode.
  destruct (JsMap.has _ _) eqn:Habs; [exact Hwf |].
  now apply createNode_WF.
Qed.

Lemma createClassNode_grow c st : nodesGrow st (createClassNode c st).
Proof.
  unfold createClassNode. destruct (JsMap.has _ _) eqn:Habs; [apply nodesGrow_refl |].
  intros k n H. simpl. now apply get_set_mono.
Qed.

Lemma createClassNode_has c st :
  JsMap.has ("class:" ++ c.(c_filePath) ++ ":" ++ c.(c_name))
            (nodeMap (createClassNode c st)) = true.
Proof.
  unfold createClassNode.
  destruct (JsMap.has ("class:" ++ c_filePath c ++ ":" ++ c_name c) (nodeMap st)) eqn:Habs;
    [exact Habs |].
  simpl. unfold JsMap.has. now rewrite get_set_same.
Qed.

Lemma createMethodNode_WF m c st : WF st -> WF (createMethodNode m c st).
Proof.
  intros Hwf. unfold createMethodNode.
  destruct (JsMap.has _ _) eqn:Habs; [exact Hwf |].
  now apply setNode_WF.
Qed.

Lemma createMethodNode_grow m c st : nodesGrow st (createMethodNode m c st).
Proof.
  unfold createMethodNode. destruct (JsMap.has _ _) eqn:Habs; [apply nodesGrow_refl |].
  now apply setNode_grow.
Qed.

Lemma edgeOnly_refl st : edgeOnly st st.
Proof. repeat split. apply edgesGrow_refl. Qed.

Lemma edgeOnly_trans st1 st2 st3 : edgeOnly st1 st2 -> edgeOnly st2 st3 -> edgeOnly st1 st3.
Proof.
  intros (N1 & F1 & E1) (N2 & F2 & E2). repeat split; try congruence.
  eapply edgesGrow_trans; eauto.
Qed.

Lemma addEdge_edgeOnly e st : edgeOnly st (addEdge e st).
Proof.
  repeat split; [apply addEdge_nodeMap | apply addEdge_fileToNodes | apply addEdge_edgesGrow].
Qed.

Lemma edgeOnly_nodesGrow st st' : edgeOnly st st' -> nodesGrow st st'.
Proof. intros (N & _ & _) k n H. now rewrite N. Qed.


Lemma visit_callNames filePath : forall node st,
  visit filePath node st
  = fold_left (fun s name => addCallEdgesFor filePath name s) (callNames node) st.
Proof.
  fix IH 1. intros node st.
  assert (Hch : forall cs s,
             (fix visitChildren (cs : list TsNode) (s : ExtractorState) : ExtractorState :=
                match cs with
                | [] => s
                | c :: cs' => visitChildren cs' (visit filePath c s)
                end) cs s
             = fold_left (fun s name => addCallEdgesFor filePath name s)
                         ((fix inChildren (cs : list TsNode) : list string :=
                             match cs with
                             | [] => []
                             | c :: cs' => app (callNames c) (inChildren cs')
                             end) cs) s).
  { fix IHcs 1. intros cs s. destruct cs as [| c cs']; [reflexivity |].
    rewrite fold_left_app, <- IH. apply IHcs. }
  destruct node as [expression children | children]; cbn [visit callNames].
  - rewrite fold_left_app. rewrite Hch.
    destruct (functionNameOf expression); reflexivity.
  - apply Hch.
Qed.

Lemma findFileByExport_in_node name m p :
  findFileByExport_in name m = Some p ->
  exists k n, In (k, n) m /\ n.(n_filePath) = p.
Proof.
  induction m as [| [k n] m IH]; simpl; [discriminate |].
  destruct (NodeType_eqb (n_type n) NodeFile && (n_label n =? name)).
  - intros [= <-]. exists k, n. split; [now left | reflexivity].
  - destruct ((n_label n =? name)
              && (NodeType_eqb (n_type n) NodeFunction || NodeType_eqb (n_type n) NodeClass)).
    + intros [= <-]. exists k, n. split; [now left | reflexivity].
    + intros H. destruct (IH H) as (k' & n' & Hin & Hp). exists k', n'. split; [now right | exact Hp].
Qed.

Lemma findNodeByName_in_node name type m nodeId :
  findNodeByName_in name type m = Some nodeId ->
  exists n, In (nodeId, n) m /\ n.(n_label) = name /\ n.(n_type) = type.
Proof.
  induction m as [| [k n] m IH]; simpl; [discriminate |].
  destruct ((n_label n =? name) && NodeType_eqb (n_type n) type) eqn:E.
  - intros [= <-]. apply andb_true_iff in E. destruct E as [E1 E2].
    apply String.eqb_eq in E1. exists n. split; [now left |]. split; [exact E1 |].
    destruct (n_type n), type; simpl in E2; congruence.
  - intros H. destruct (IH H) as (n' & Hin & Hl & Ht). exists n'.
    split; [now right | split; assumption].
Qed.

Lemma findCallerNode_in_spec m ids callerId :
  findCallerNode_in m ids = Some callerId ->
  In callerId ids
  /\ exists n, JsMap.get callerId m = Some n /\ n.(n_type) = NodeFunction.
Proof.
  induction ids as [| nodeId ids IH]; simpl; [discriminate |].
  destruct (JsMap.get nodeId m) as [n |] eqn:Hg.
  - destruct (NodeType_eqb (n_type n) NodeFunction) eqn:Ht.
    + intros [= <-]. split; [now left |]. exists n. split; [exact Hg |].
      destruct (n_type n); simpl in Ht; congruence.
    + intros H. destruct (IH H) as [Hin Hn]. split; [now right | exact Hn].
  - intros H. destruct (IH H) as [Hin Hn]. split; [now right | exact Hn].
Qed.

(** The nested loop of [createImportEdges] over source and target ids. *)
Lemma importPairs_WF importInfo importName sources targets st :
  WF st ->
  (forall nodeId, In nodeId sources -> JsMap.has nodeId st.(nodeMap) = true) ->
  let st' :=
    fold_left
      (fun s sourceNodeId =>
         fold_left
           (fun s targetNodeId =>
              match JsMap.get targetNodeId s.(nodeMap) with
              | Some targetNode =>
                  if targetNode.(n_label) =? importName
                  then addEdge (importEdge importInfo importName sourceNodeId targetNodeId) s
                  else s
              | None => s
              end)
           targets s)
      sources st in
  WF st' /\ edgeOnly st st'.
Proof.
  intros Hwf Hsrc. cbv zeta.
  apply (fold_left_invariant (fun s => WF s /\ edgeOnly st s)).
  - split; [exact Hwf | apply edgeOnly_refl].
  - intros s src Hin Hs.
    apply (fold_left_invariant (fun s => WF s /\ edgeOnly st s)); [exact Hs |].
    intros s' tgt _ [Hwf' Heo'].
    destruct (JsMap.get tgt (nodeMap s')) as [tn |] eqn:Hg; [| now split].
    destruct (n_label tn =? importName); [| now split].
    split.
    + apply addEdge_WF; [exact Hwf' | |]; simpl.
      * destruct Heo' as (N & _). rewrite N. now apply Hsrc.
      * eapply get_has; eauto.
    + eapply edgeOnly_trans; [exact Heo' | apply addEdge_edgeOnly].
Qed.

Lemma registerInFile_nodeMap p k st : nodeMap (registerInFile p k st) = nodeMap st.
Proof. reflexivity. Qed.

Lemma grows_refl st : grows st st.
Proof.
  split; [apply nodesGrow_refl |]. split; [apply edgesGrow_refl |].
  intros k n H. now left.
Qed.

Lemma grows_trans st1 st2 st3 : grows st1 st2 -> grows st2 st3 -> grows st1 st3.
Proof.
  intros (N1 & E1 & P1) (N2 & E2 & P2).
  split; [eapply nodesGrow_trans; eauto |]. split; [eapply edgesGrow_trans; eauto |].
  intros k n H. destruct (P2 k n H) as [H' | H']; [now apply P1 | now right].
Qed.

Lemma edgeOnly_grows st st' : edgeOnly st st' -> grows st st'.
Proof.
  intros H. split; [now apply edgeOnly_nodesGrow |]. split; [apply H |].
  intros k n Hin. destruct H as (N & _). rewrite N in Hin. now left.
Qed.

Lemma createFileNode_grows p st : grows st (createFileNode p st).
Proof.
  split; [apply createFileNode_grow |]. split.
  - intros k e H. now rewrite createFileNode_edgeMap.
  - intros k n H. unfold createFileNode in H.
    destruct (JsMap.has ("file:" ++ p) (nodeMap st)) eqn:Habs; [now left |].
    rewrite registerInFile_nodeMap in H. simpl in H.
    apply In_set_absent in H; [| exact Habs].
    destruct H as [H | [_ ->]]; [now left | now right].
Qed.

Lemma createImportEdgesFor_WF importInfo sources st importName :
  WF st ->
  (forall nodeId, In nodeId sources -> JsMap.has nodeId st.(nodeMap) = true) ->
  WF (createImportEdgesFor importInfo sources st importName)
  /\ grows st (createImportEdgesFor importInfo sources st importName).
Proof.
  intros Hwf Hsrc. unfold createImportEdgesFor.
  destruct (findFileByExport importName st) as [targetFile |]; [| split; [exact Hwf | apply grows_refl]].
  destruct (Str.truthy targetFile); [| split; [exact Hwf | apply grows_refl]].
  set (st1 := if negb (JsMap.has targetFile (fileToNodes st))
              then createFileNode targetFile st else st).
  assert (H1 : WF st1 /\ grows st st1).
  { unfold st1. destruct (negb _).
    - split; [now apply createFileNode_WF | apply createFileNode_grows].
    - split; [exact Hwf | apply grows_refl]. }
  destruct H1 as [Hwf1 Hg1].
  set (st2 := if JsMap.has (hd "" sources) (nodeMap st1)
                 && JsMap.has ("file:" ++ targetFile) (nodeMap st1)
              then addEdge (importEdge importInfo importName (hd "" sources)
                                       ("file:" ++ targetFile)) st1
              else st1).
  assert (H2 : WF st2 /\ edgeOnly st1 st2).
  { unfold st2.
    destruct (JsMap.has (hd "" sources) (nodeMap st1)
              && JsMap.has ("file:" ++ targetFile) (nodeMap st1)) eqn:E.
    - apply andb_true_iff in E. destruct E as [E1 E2].
      split; [now apply addEdge_WF | apply addEdge_edgeOnly].
    - split; [exact Hwf1 | apply edgeOnly_refl]. }
  destruct H2 as [Hwf2 Heo2].
  destruct (importPairs_WF importInfo importName sources
              (orEmpty (JsMap.get targetFile (fileToNodes st1))) st2 Hwf2) as [Hwf3 Heo3].
  { intros nodeId Hin. destruct Heo2 as (N & _). rewrite N.
    eapply nodesGrow_has; [apply Hg1 | now apply Hsrc]. }
  split; [exact Hwf3 |].
  eapply grows_trans; [exact Hg1 |].
  eapply grows_trans; apply edgeOnly_grows; eassumption.
Qed.

Lemma createImportEdges_WF importInfo st :
  WF st ->
  WF (createImportEdges importInfo st) /\ grows st (createImportEdges importInfo st).
Proof.
  intros Hwf. unfold createImportEdges.
  set (sources0 := orEmpty (JsMap.get (i_from importInfo) (fileToNodes st))).
  assert (Hs0 : forall nodeId, In nodeId sources0 -> JsMap.has nodeId (nodeMap st) = true).
  { intros nodeId Hin. unfold sources0 in Hin.
    destruct (JsMap.get (i_from importInfo) (fileToNodes st)) as [ids |] eqn:Hg; [| destruct Hin].
    destruct (wf_index st Hwf _ _ _ Hg Hin) as (n & Hn & _). eapply get_has; eauto. }
  assert (Hloop : forall sources s,
             WF s ->
             (forall nodeId, In nodeId sources -> JsMap.has nodeId (nodeMap s) = true) ->
             WF (if (length sources =? 0)%nat then s
                 else fold_left (createImportEdgesFor importInfo sources)
                                (i_imports importInfo) s)
             /\ grows s (if (length sources =? 0)%nat then s
                         else fold_left (createImportEdgesFor importInfo sources)
                                        (i_imports importInfo) s)).
  { intros sources s Hwfs Hsrc.
    destruct (length sources =? 0)%nat; [split; [exact Hwfs | apply grows_refl] |].
    apply (fold_left_invariant (fun s' => WF s' /\ grows s s'));
      [split; [exact Hwfs | apply grows_refl] |].
    intros s' name _ [Hwf' Hg'].
    destruct (createImportEdgesFor_WF importInfo sources s' name Hwf') as [Hw Hg].
    - intros nodeId Hin. eapply nodesGrow_has; [apply Hg' | apply Hsrc, Hin].
    - split; [exact Hw | eapply grows_trans; eauto]. }
  destruct (length sources0 =? 0)%nat eqn:Hlen; [| now apply Hloop].
  destruct (negb (JsMap.has ("file:" ++ i_from importInfo) (nodeMap st))) eqn:Hneg;
    [| now apply Hloop].
  set (st' := createFileNode (i_from importInfo) st).
  assert (Hwf' : WF st') by now apply createFileNode_WF.
  assert (Hsrc' : forall nodeId,
             In nodeId (orEmpty (JsMap.get (i_from importInfo) (fileToNodes st'))) ->
             JsMap.has nodeId (nodeMap st') = true).
  { intros nodeId Hin.
    destruct (JsMap.get (i_from importInfo) (fileToNodes st')) as [ids |] eqn:Hg; [| destruct Hin].
    destruct (wf_index st' Hwf' _ _ _ Hg Hin) as (n & Hn & _). eapply get_has; eauto. }
  assert (Hsrc0 : forall nodeId, In nodeId sources0 -> JsMap.has nodeId (nodeMap st') = true).
  { intros nodeId Hin. eapply nodesGrow_has; [apply createFileNode_grow | now apply Hs0]. }
  destruct (0 <? length (orEmpty (JsMap.get (i_from importInfo) (fileToNodes st'))))%nat.
  - destruct (Hloop (sources0 ++ orEmpty (JsMap.get (i_from importInfo) (fileToNodes st')))%list
                    st' Hwf') as [Hw Hg].
    + intros nodeId Hin. apply in_app_or in Hin. destruct Hin; auto.
    + split; [exact Hw | eapply grows_trans; [apply createFileNode_grows | exact Hg]].
  - destruct (Hloop sources0 st' Hwf' Hsrc0) as [Hw Hg].
    split; [exact Hw | eapply grows_trans; [apply createFileNode_grows | exact Hg]].
Qed.

Lemma buildPass_phases a st0 :
  buildPass a st0 = createParentChildEdges (afterInheritance a).
Proof. reflexivity. Qed.

Lemma addCallEdgesFor_WF filePath functionName st :
  WF st ->
  WF (addCallEdgesFor filePath functionName st)
  /\ edgeOnly st (addCallEdgesFor filePath functionName st).
Proof.
  intros Hwf. unfold addCallEdgesFor.
  apply (fold_left_invariant (fun s => WF s /\ edgeOnly st s));
    [split; [exact Hwf | apply edgeOnly_refl] |].
  intros s nodeId _ [Hw He].
  destruct (JsMap.get nodeId (nodeMap s)) as [node |] eqn:Hg; [| now split].
  destruct (labelMatches node functionName); [| now split].
  destruct (findCallerNode node s) as [callerId |] eqn:Hc; [| now split].
  apply findCallerNode_in_spec in Hc. destruct Hc as (_ & n & Hn & _).
  split.
  - apply addEdge_WF; [exact Hw | |]; simpl; eapply get_has; eauto.
  - eapply edgeOnly_trans; [exact He | apply addEdge_edgeOnly].
Qed.

Lemma extractCallEdges_WF sourceFile filePath st :
  WF st ->
  WF (extractCallEdges sourceFile filePath st)
  /\ edgeOnly st (extractCallEdges sourceFile filePath st).
Proof.
  intros Hwf. unfold extractCallEdges. rewrite visit_callNames.
  apply (fold_left_invariant (fun s => WF s /\ edgeOnly st s));
    [split; [exact Hwf | apply edgeOnly_refl] |].
  intros s name _ [Hw He].
  destruct (addCallEdgesFor_WF filePath name s Hw) as [Hw' He'].
  split; [exact Hw' | eapply edgeOnly_trans; eauto].
Qed.

Lemma createInheritanceEdges_WF cls st :
  WF st ->
  JsMap.has ("class:" ++ cls.(c_filePath) ++ ":" ++ cls.(c_name)) st.(nodeMap) = true ->
  WF (createInheritanceEdges cls st) /\ edgeOnly st (createInheritanceEdges cls st).
Proof.
  intros Hwf Hcls. unfold createInheritanceEdges.
  set (classNodeId := "class:" ++ c_filePath cls ++ ":" ++ c_name cls) in *.
  set (st1 := match c_extends cls with
              | Some ext => _
              | None => st
              end).
  assert (H1 : WF st1 /\ edgeOnly st st1).
  { unfold st1. destruct (c_extends cls) as [ext |]; [| split; [exact Hwf | apply edgeOnly_refl]].
    destruct (Str.truthy ext); [| split; [exact Hwf | apply edgeOnly_refl]].
    destruct (findNodeByName ext NodeClass st) as [target |] eqn:Hf;
      [| split; [exact Hwf | apply edgeOnly_refl]].
    apply findNodeByName_in_node in Hf. destruct Hf as (n & Hin & _).
    split; [| apply addEdge_edgeOnly].
    apply addEdge_WF; [exact Hwf | exact Hcls |]. simpl. eapply In_has; eauto. }
  destruct H1 as [Hwf1 He1].
  apply (fold_left_invariant (fun s => WF s /\ edgeOnly st s)); [now split |].
  intros s name _ [Hw He].
  destruct (findNodeByName name NodeInterface s) as [target |] eqn:Hf; [| now split].
  apply findNodeByName_in_node in Hf. destruct Hf as (n & Hin & _).
  split.
  - apply addEdge_WF; [exact Hw | |]; simpl.
    + destruct He as (N & _). now rewrite N.
    + eapply In_has; eauto.
  - eapply edgeOnly_trans; [exact He | apply addEdge_edgeOnly].
Qed.

Lemma parentChildStep_WF st acc entry :
  In entry st.(nodeMap) ->
  WF (fst acc) /\ edgeOnly st (fst acc) ->
  WF (fst (parentChildStep acc entry)) /\ edgeOnly st (fst (parentChildStep acc entry)).
Proof.
  intros Hin [Hw He]. destruct acc as [s log]. destruct entry as [nodeId node].
  unfold parentChildStep. simpl in Hw, He.
  destruct (n_parentId node) as [parentId |]; [| now split].
  destruct (Str.truthy parentId); [| now split].
  destruct (JsMap.has parentId (nodeMap s)) eqn:Hp; [| now split].
  destruct (negb (JsMap.has ("parent:" ++ parentId ++ ":" ++ nodeId) (edgeMap s)));
    [| now split].
  simpl. split.
  - apply addEdge_WF; [exact Hw | exact Hp |]. simpl.
    destruct He as (N & _). rewrite N. eapply In_has; eauto.
  - eapply edgeOnly_trans; [exact He | apply addEdge_edgeOnly].
Qed.

Lemma createParentChildEdges_WF st :
  WF st ->
  WF (fst (createParentChildEdges st)) /\ edgeOnly st (fst (createParentChildEdges st)).
Proof.
  intros Hwf. unfold createParentChildEdges.
  apply (fold_left_invariant (fun acc => WF (fst acc) /\ edgeOnly st (fst acc)));
    [split; [exact Hwf | apply edgeOnly_refl] |].
  intros acc entry Hin Hacc. now apply parentChildStep_WF.
Qed.

Lemma afterNodes_WF a : WF (afterNodes a).
Proof.
  unfold afterNodes.
  apply (fold_left_invariant WF).
  - apply (fold_left_invariant WF).
    + apply (fold_left_invariant WF).
      * apply (fold_left_invariant WF); [apply emptyState_WF |].
        intros s f _ Hs. now apply createFileNode_WF.
      * intros s f _ Hs. now apply createFunctionNode_WF.
    + intros s c _ Hs. now apply createClassNode_WF.
  - intros s c _ Hs. apply (fold_left_invariant WF); [exact Hs |].
    intros s' m _ Hs'. now apply createMethodNode_WF.
Qed.

Lemma fold_left_nodesGrow {B : Type} (f : ExtractorState -> B -> ExtractorState) l st :
  (forall s x, In x l -> nodesGrow s (f s x)) -> nodesGrow st (fold_left f l st).
Proof.
  intros H.
  apply (fold_left_invariant (fun s => nodesGrow st s)); [apply nodesGrow_refl |].
  intros s x Hx Hs. eapply nodesGrow_trans; [exact Hs | now apply H].
Qed.

(** After the class loop every class fact has its node. *)
Lemma classes_have_nodes (cs : list ClassInfo) st c :
  In c cs ->
  JsMap.has ("class:" ++ c.(c_filePath) ++ ":" ++ c.(c_name))
            (nodeMap (fold_left (fun s cls => createClassNode cls s) cs st)) = true.
Proof.
  revert st. induction cs as [| c0 cs IH]; intros st Hin; [destruct Hin |].
  simpl. destruct Hin as [-> | Hin]; [| now apply IH].
  eapply nodesGrow_has; [| apply createClassNode_has].
  apply fold_left_nodesGrow. intros s x _. apply createClassNode_grow.
Qed.

Lemma afterNodes_classes a c :
  In c a.(classes) ->
  JsMap.has ("class:" ++ c.(c_filePath) ++ ":" ++ c.(c_name)) (nodeMap (afterNodes a)) = true.
Proof.
  intros Hin. unfold afterNodes.
  eapply nodesGrow_has; [| apply classes_have_nodes; exact Hin].
  apply fold_left_nodesGrow. intros s x _.
  apply fold_left_nodesGrow. intros s' m _. apply createMethodNode_grow.
Qed.

Lemma afterImports_WF a : WF (afterImports a) /\ grows (afterNodes a) (afterImports a).
Proof.
  unfold afterImports.
  apply (fold_left_invariant (fun s => WF s /\ grows (afterNodes a) s)).
  - split; [apply afterNodes_WF | apply grows_refl].
  - intros s i _ [Hw Hg]. destruct (createImportEdges_WF i s Hw) as [Hw' Hg'].
    split; [exact Hw' | eapply grows_trans; eauto].
Qed.

Lemma afterCalls_WF a : WF (afterCalls a) /\ edgeOnly (afterImports a) (afterCalls a).
Proof.
  unfold afterCalls.
  apply (fold_left_invariant (fun s => WF s /\ edgeOnly (afterImports a) s)).
  - split; [apply afterImports_WF | apply edgeOnly_refl].
  - intros s f _ [Hw He].
    destruct (getSourceFile a (f_path f)) as [sf |]; [| now split].
    destruct (extractCallEdges_WF sf (f_path f) s Hw) as [Hw' He'].
    split; [exact Hw' | eapply edgeOnly_trans; eauto].
Qed.

Lemma afterInheritance_WF a :
  WF (afterInheritance a) /\ edgeOnly (afterCalls a) (afterInheritance a).
Proof.
  unfold afterInheritance.
  apply (fold_left_invariant (fun s => WF s /\ edgeOnly (afterCalls a) s)).
  - split; [apply afterCalls_WF | apply edgeOnly_refl].
  - intros s c Hin [Hw He].
    destruct (createInheritanceEdges_WF c s Hw) as [Hw' He'].
    + destruct He as (N & _). rewrite N.
      destruct (afterCalls_WF a) as [_ (N' & _)]. rewrite N'.
      eapply nodesGrow_has; [apply afterImports_WF | now apply afterNodes_classes].
    + split; [exact Hw' | eapply edgeOnly_trans; eauto].
Qed.

Lemma buildPass_WF a st0 : WF (fst (buildPass a st0)).
Proof.
  rewrite buildPass_phases. apply createParentChildEdges_WF, afterInheritance_WF.
Qed.

Lemma buildPass_edgeOnly a st0 : edgeOnly (afterInheritance a) (fst (buildPass a st0)).
Proof.
  rewrite buildPass_phases. apply createParentChildEdges_WF, afterInheritance_WF.
Qed.

(** ** From the maps to the graph *)

Lemma hasNode_In g k : hasNode g k = true <-> exists n, In n g.(nodes) /\ n.(n_id) = k.
Proof.
  unfold hasNode. rewrite existsb_exists. split.
  - intros (n & Hin & E). apply String.eqb_eq in E. eauto.
  - intros (n & Hin & E). exists n. split; [exact Hin | now apply String.eqb_eq].
Qed.

Lemma In_values {V : Type} (m : list (string * V)) v :
  In v (JsMap.values m) <-> exists k, In (k, v) m.
Proof.
  unfold JsMap.values. rewrite in_map_iff. split.
  - intros ([k v'] & E & Hin). simpl in E. subst. eauto.
  - intros (k & Hin). now exists (k, v).
Qed.

Lemma hasNode_graphOf st k :
  nodesOk st -> JsMap.has k st.(nodeMap) = true -> hasNode (graphOf st) k = true.
Proof.
  intros [_ Hid] H. apply has_get in H. destruct H as [n Hn]. apply get_In in Hn.
  apply hasNode_In. exists n. split; [| now apply Hid].
  apply In_values. eauto.
Qed.

Lemma map_id_values {V : Type} (f : V -> string) (m : list (string * V)) :
  (forall k v, In (k, v) m -> f v = k) -> map f (JsMap.values m) = JsMap.keys m.
Proof.
  induction m as [| [k v] m IH]; intros H; simpl; [reflexivity |].
  rewrite (H k v) by now left. f_equal. apply IH. intros k' v' Hin. apply H. now right.
Qed.

Lemma graphOf_node_ids st : nodesOk st -> map n_id (nodes (graphOf st)) = JsMap.keys st.(nodeMap).
Proof. intros [_ Hid]. now apply map_id_values. Qed.

Lemma graphOf_edge_ids st : edgesOk st -> map e_id (edges (graphOf st)) = JsMap.keys st.(edgeMap).
Proof. intros [_ Hid]. now apply map_id_values. Qed.

Lemma graphOf_closed st : WF st -> closedGraph (graphOf st).
Proof.
  intros Hwf e He. simpl in He. apply In_values in He. destruct He as [k He].
  destruct (wf_closed st Hwf k e He) as [Hs Ht].
  split; apply hasNode_graphOf; auto using wf_nodes.
Qed.

Lemma builtGraph_closed a : closedGraph (builtGraph a).
Proof. apply graphOf_closed, buildPass_WF. Qed.

Lemma NoDup_map_filter {A B : Type} (f : A -> B) (p : A -> bool) l :
  NoDup (map f l) -> NoDup (map f (filter p l)).
Proof.
  induction l as [| x l IH]; simpl; intros H; [constructor |].
  inversion H as [| ? ? Hnot Hnd]; subst.
  destruct (p x); simpl; [| now apply IH].
  constructor; [| now apply IH].
  intros Hin. apply Hnot. apply in_map_iff in Hin. destruct Hin as (y & E & Hy).
  apply filter_In in Hy. apply in_map_iff. exists y. tauto.
Qed.

(** The filter keeps a graph closed: a kept edge has both endpoints in the
    related set, and the node carrying such an id is kept too. *)
Lemma filter_closed g a h : closedGraph g -> closedGraph (filterGraphByLLMContext g a h).
Proof.
  intros Hc e He. unfold filterGraphByLLMContext in *. simpl in He.
  apply filter_In in He. destruct He as [He Hr].
  apply andb_true_iff in Hr. destruct Hr as [Hs Ht].
  destruct (Hc e He) as [Hs' Ht'].
  apply hasNode_In in Hs', Ht'.
  destruct Hs' as (ns & Hns & Es). destruct Ht' as (nt & Hnt & Et).
  split; apply hasNode_In; simpl.
  - exists ns. split; [| exact Es]. apply filter_In. split; [exact Hns | now rewrite Es].
  - exists nt. split; [| exact Et]. apply filter_In. split; [exact Hnt | now rewrite Et].
Qed.

(** ** The built graph has no dangling edge *)

(** C10.  In the graph of a full build pass, before any filtering, the
    source id and the target id of every edge are ids of nodes of the
    graph, whichever step created the edge. *)
Theorem builtGraph_no_dangling_edges (a : AnalysisResult) (st0 : ExtractorState) :
  let g := graphOf (fst (buildPass a st0)) in
  forall e, In e g.(edges) ->
            (exists n, In n g.(nodes) /\ n.(n_id) = e.(e_source))
            /\ (exists n, In n g.(nodes) /\ n.(n_id) = e.(e_target)).
Proof.
  intros g e He.
  destruct (graphOf_closed _ (buildPass_WF a st0) e He) as [Hs Ht].
  split; now apply hasNode_In.
Qed.

(** C4.  Whatever the facts and the hints, every edge the Context Filter
    returns has its source id and its target id among the ids of the
    returned nodes; the returned edges are exactly the edges of the built
    graph whose two endpoints are returned, so an edge that loses an
    endpoint is dropped. *)
Theorem filtered_edges_keep_both_endpoints (a : AnalysisResult) (h : Hints) :
  let full := builtGraph a in
  let g := filterGraphByLLMContext full a h in
  forall e,
    In e g.(edges)
    <-> In e full.(edges)
        /\ (exists n, In n g.(nodes) /\ n.(n_id) = e.(e_source))
        /\ (exists n, In n g.(nodes) /\ n.(n_id) = e.(e_target)).
Proof.
  intros full g e. split.
  - intros He.
    destruct (filter_closed full a h (builtGraph_closed a) e He) as [Hs Ht].
    split; [| split; now apply hasNode_In].
    unfold g, filterGraphByLLMContext in He. simpl in He.
    now apply filter_In in He.
  - intros (He & (ns & Hns & Es) & (nt & Hnt & Et)).
    unfold g, filterGraphByLLMContext in *. simpl in *.
    apply filter_In in Hns, Hnt. apply filter_In. split; [exact He |].
    rewrite <- Es, <- Et. apply andb_true_iff. tauto.
Qed.

(** ** Idempotence of the build pass *)

Lemma extractGraphData_ids_NoDup a h st0 :
  NoDup (map n_id (nodes (fst (extractGraphData a h st0))))
  /\ NoDup (map e_id (edges (fst (extractGraphData a h st0)))).
Proof.
  pose proof (buildPass_WF a st0) as Hwf.
  assert (Hn : NoDup (map n_id (nodes (graphOf (fst (buildPass a st0)))))).
  { rewrite graphOf_node_ids by apply Hwf. apply Hwf. }
  assert (He : NoDup (map e_id (edges (graphOf (fst (buildPass a st0)))))).
  { rewrite graphOf_edge_ids by apply Hwf. apply Hwf. }
  unfold extractGraphData.
  destruct (truthyString _ || _ || _ || _ || _); simpl fst.
  - unfold filterGraphByLLMContext. simpl nodes. simpl edges.
    split; now apply NoDup_map_filter.
  - now split.
Qed.

(** C9.  A second pass over the same facts and hints, started from the
    state the first pass left behind, returns the same graph (same nodes
    and edges, with the same attributes, in the same order) and leaves the
    same state; node ids and edge ids are free of duplicates.  The pass
    starts by clearing the three maps, so the result is the same from any
    earlier state of the extractor. *)
Theorem extractGraphData_idempotent (a : AnalysisResult) (h : Hints) (st0 : ExtractorState) :
  let first := extractGraphData a h st0 in
  let second := extractGraphData a h (snd first) in
  fst second = fst first
  /\ snd second = snd first
  /\ (forall st, extractGraphData a h st = first)
  /\ NoDup (map n_id (nodes (fst first)))
  /\ NoDup (map e_id (edges (fst first))).
Proof.
  intros first second.
  assert (E : forall st, extractGraphData a h st = first).
  { intros st. unfold first, extractGraphData. rewrite !buildPass_phases. reflexivity. }
  unfold second. rewrite E.
  split; [reflexivity |]. split; [reflexivity |]. split; [exact E |].
  apply extractGraphData_ids_NoDup.
Qed.

(** ** The hint gate *)

Lemma extractGraphData_without_hints a h st0 :
  noHintGiven h = true ->
  fst (extractGraphData a h st0) = graphOf (fst (buildPass a st0)).
Proof.
  unfold noHintGiven, extractGraphData. intros H.
  apply negb_true_iff in H. now rewrite H.
Qed.

Lemma filter_false {A : Type} (l : list A) : filter (fun _ => false) l = [].
Proof. induction l; simpl; auto. Qed.

(** With nothing in any hint category, a filter that runs keeps nothing. *)
Lemma filter_with_empty_hints g a h :
  onlyEmptyHints h = true ->
  filterGraphByLLMContext g a h = mkGraph [] [].
Proof.
  unfold onlyEmptyHints. intros H.
  repeat (apply andb_true_iff in H; destruct H as [H ?]).
  repeat match goal with
         | H : (length _ =? 0)%nat = true |- _ =>
             apply Nat.eqb_eq, length_zero_iff_nil in H
         end.
  apply negb_true_iff in H.
  assert (Hs : seeds g a h = []).
  { unfold seeds, seedRelatedClasses, seedRelatedFunctions, seedRelatedFiles,
      seedTargetFile, seedFocusNodes.
    repeat match goal with
           | H : nonEmptyArray _ = [] |- _ => rewrite H
           end.
    simpl. unfold truthyString in H.
    destruct (targetFile h) as [t |]; [| reflexivity].
    now rewrite H. }
  unfold filterGraphByLLMContext, relatedSet. rewrite Hs. simpl.
  now rewrite !filter_false.
Qed.

(** C2, on the code.  With no hint argument given (each one [undefined],
    or an empty target-file string) the filter is skipped and the built
    graph is returned.  With a hint list supplied but empty, the gate
    [targetFile || relatedFiles || ...] lets the filter run, and the
    filter, finding no seed, returns the empty graph: on the facts of
    Scenario A the three nodes and three edges of the built graph are all
    lost. *)
Theorem extractGraphData_empty_hint_list_filters_everything :
  let a := ScenarioA.factsWithImporter in
  let h := mkHints None (Some []) None None None in
  onlyEmptyHints h = true
  /\ length (nodes (fst (extractGraphData a noHints emptyState))) = 3
  /\ length (edges (fst (extractGraphData a noHints emptyState))) = 3
  /\ fst (extractGraphData a h emptyState) = mkGraph [] [].
Proof. vm_compute. repeat split. Qed.

(** ** Scenario A *)

(** With an import fact that names the importing file, the build pass
    yields the graph Scenario A expects. *)
Lemma scenarioA_expected_when_fact_names_importer :
  let g := builtGraph ScenarioA.factsWithImporter in
  map n_id g.(nodes) = ["file:/ws/a.ts"; "file:/ws/b.ts"; "function:/ws/b.ts:foo"]
  /\ map (fun e => (e.(e_type), e.(e_source), e.(e_target))) g.(edges)
     = [(EdgeImport, "file:/ws/a.ts", "file:/ws/b.ts");
        (EdgeImport, "file:/ws/a.ts", "function:/ws/b.ts:foo");
        (EdgeReference, "file:/ws/b.ts", "function:/ws/b.ts:foo")].
Proof. vm_compute. split; reflexivity. Qed.

(** C1, on the code.  [extractImportInfo] stores the resolved path of the
    imported module, [/ws/b.ts], in the fact's [from] field and does not
    record the importing file; [createImportEdges] takes [from] for the
    importing file.  The built graph has the two file nodes and the
    function node, but every import edge starts at a node of [b.ts]: two
    are self-loops, and no edge leaves [file:/ws/a.ts]. *)
Theorem scenarioA_import_edges_start_at_imported_file :
  let g := ScenarioA.graph in
  ScenarioA.importFacts = [mkImport "/ws/b.ts" ["foo"] false false]
  /\ map (fun n => (n.(n_type), n.(n_id))) g.(nodes)
     = [(NodeFile, "file:/ws/a.ts"); (NodeFile, "file:/ws/b.ts");
        (NodeFunction, "function:/ws/b.ts:foo")]
  /\ map (fun e => (e.(e_type), e.(e_source), e.(e_target))) g.(edges)
     = [(EdgeImport, "file:/ws/b.ts", "file:/ws/b.ts");
        (EdgeImport, "file:/ws/b.ts", "function:/ws/b.ts:foo");
        (EdgeImport, "function:/ws/b.ts:foo", "function:/ws/b.ts:foo");
        (EdgeReference, "file:/ws/b.ts", "function:/ws/b.ts:foo")]
  /\ (forall e, In e g.(edges) -> e.(e_source) <> "file:/ws/a.ts").
Proof.
  cbv zeta. split; [vm_compute; reflexivity |].
  split; [vm_compute; reflexivity |].
  split; [vm_compute; reflexivity |].
  intros e He. vm_compute in He.
  destruct He as [<- | [<- | [<- | [<- | []]]]]; discriminate.
Qed.

(** The witness of [builtGraph_no_dangling_edges]: the import edge from
    [a.ts] to [foo] in the graph built from [ScenarioA.factsWithImporter]. *)
Lemma builtGraph_no_dangling_edges_witness :
  let g := graphOf (fst (buildPass ScenarioA.factsWithImporter emptyState)) in
  (exists n, In n g.(nodes) /\ n.(n_id) = "file:/ws/a.ts")
  /\ (exists n, In n g.(nodes) /\ n.(n_id) = "function:/ws/b.ts:foo").
Proof.
  apply (builtGraph_no_dangling_edges ScenarioA.factsWithImporter emptyState
           (importEdge (mkImport "/ws/a.ts" ["foo"] false false) "foo"
                       "file:/ws/a.ts" "function:/ws/b.ts:foo")).
  vm_compute. right. left. reflexivity.
Defined.

(** ** Colon-separated ids can be decoded *)

Lemma append_assoc (a b c : string) : (a ++ b) ++ c = a ++ b ++ c.
Proof. induction a as [| x a IH]; simpl; [reflexivity | now rewrite IH]. Qed.

Lemma colonFree_app a b :
  Str.colonFree (a ++ b) = Str.colonFree a && Str.colonFree b.
Proof.
  induction a as [| x a IH]; simpl; [reflexivity |].
  rewrite IH. now rewrite andb_assoc.
Qed.

Lemma fields_colonFree a : Str.colonFree a = true -> Str.fields a = [a].
Proof.
  induction a as [| x a IH]; simpl; [reflexivity |].
  intros H. apply andb_true_iff in H. destruct H as [Hx Ha].
  apply negb_true_iff in Hx. rewrite Hx, (IH Ha). reflexivity.
Qed.

Lemma fields_cons_char a b :
  Str.colonFree a = true -> Str.fields (a ++ String ":"%char b) = a :: Str.fields b.
Proof.
  induction a as [| x a IH]; simpl; [reflexivity |].
  intros H. apply andb_true_iff in H. destruct H as [Hx Ha].
  apply negb_true_iff in Hx. rewrite Hx, (IH Ha). reflexivity.
Qed.

Lemma fields_cons a b :
  Str.colonFree a = true -> Str.fields (a ++ ":" ++ b) = a :: Str.fields b.
Proof. exact (fields_cons_char a b). Qed.

Lemma fields_join l b :
  forallb Str.colonFree l = true ->
  Str.fields (fold_right (fun x r => x ++ ":" ++ r) b l) = (l ++ Str.fields b)%list.
Proof.
  induction l as [| x l IH]; cbn [fold_right forallb app]; [reflexivity |].
  intros H. apply andb_true_iff in H. destruct H as [Hx Hl].
  rewrite fields_cons by assumption. now rewrite IH.
Qed.

Lemma append_inj_l (x a b : string) : x ++ a = x ++ b -> a = b.
Proof.
  induction x as [| c x IH]; simpl; [tauto |].
  intros E. injection E as E. now apply IH.
Qed.

(** Two colon-joined strings whose first parts are colon-free and agree in
    number split the same way. *)
Lemma join_inj (l l' : list string) (b b' : string) :
  forallb Str.colonFree l = true -> forallb Str.colonFree l' = true ->
  length l = length l' ->
  fold_right (fun x r => x ++ ":" ++ r) b l = fold_right (fun x r => x ++ ":" ++ r) b' l' ->
  l = l' /\ b = b'.
Proof.
  revert l'. induction l as [| x l IH]; intros [| x' l'] Hl Hl' Hlen E;
    cbn [fold_right forallb length] in *; try discriminate.
  - now split.
  - apply andb_true_iff in Hl, Hl'. destruct Hl as [Hx Hl]. destruct Hl' as [Hx' Hl'].
    assert (Hf : Str.fields (x ++ ":" ++ fold_right (fun x r => x ++ ":" ++ r) b l)
                 = Str.fields (x' ++ ":" ++ fold_right (fun x r => x ++ ":" ++ r) b' l'))
      by now rewrite E.
    rewrite !fields_cons in Hf by assumption.
    injection Hf as Hxx _. subst x'.
    apply append_inj_l in E. injection E as E.
    destruct (IH l' Hl Hl' ltac:(lia) E) as [-> ->]. now split.
Qed.

(** ** Nodes built from colon-free facts are shaped *)

Lemma setNode_shaped k node st :
  nodesShaped st -> JsMap.has k st.(nodeMap) = false -> shaped node ->
  nodesShaped (setNode k node st).
Proof.
  intros Hs Habs Hn k' n' H. simpl in H.
  apply In_set_absent in H; [| exact Habs].
  destruct H as [H | [_ ->]]; [now apply (Hs k') | exact Hn].
Qed.

Lemma createFileNode_shaped p st :
  Str.colonFree p = true -> nodesShaped st -> nodesShaped (createFileNode p st).
Proof.
  intros Hp Hs. unfold createFileNode.
  destruct (JsMap.has ("file:" ++ p) (nodeMap st)) eqn:Habs; [exact Hs |].
  intros k n H. rewrite registerInFile_nodeMap in H. revert k n H.
  apply setNode_shaped; [exact Hs | exact Habs |].
  split; simpl; [exact Hp | now split].
Qed.

Lemma createFunctionNode_shaped f st :
  Str.colonFree f.(fn_filePath) = true -> Str.colonFree f.(fn_name) = true ->
  nodesShaped st -> nodesShaped (createFunctionNode f st).
Proof.
  intros Hp Hn Hs. unfold createFunctionNode.
  destruct (JsMap.has _ (nodeMap st)) eqn:Habs; [exact Hs |].
  intros k n H. rewrite registerInFile_nodeMap in H. revert k n H.
  apply setNode_shaped; [exact Hs | exact Habs |].
  split; simpl; [exact Hp | repeat split; assumption].
Qed.

Lemma createClassNode_shaped c st :
  Str.colonFree c.(c_filePath) = true -> Str.colonFree c.(c_name) = true ->
  nodesShaped st -> nodesShaped (createClassNode c st).
Proof.
  intros Hp Hn Hs. unfold createClassNode.
  destruct (JsMap.has _ (nodeMap st)) eqn:Habs; [exact Hs |].
  intros k n H. rewrite registerInFile_nodeMap in H. revert k n H.
  apply setNode_shaped; [exact Hs | exact Habs |].
  split; simpl; [exact Hp | repeat split; assumption].
Qed.

Lemma createMethodNode_shaped m c st :
  Str.colonFree m.(m_filePath) = true -> Str.colonFree m.(m_name) = true ->
  Str.colonFree c.(c_name) = true ->
  nodesShaped st -> nodesShaped (createMethodNode m c st).
Proof.
  intros Hp Hn Hc Hs. unfold createMethodNode.
  destruct (JsMap.has _ (nodeMap st)) eqn:Habs; [exact Hs |].
  apply setNode_shaped; [exact Hs | exact Habs |].
  split; simpl; [exact Hp |].
  split; [| split; [reflexivity | exists (c_name c); now split]].
  rewrite !colonFree_app. simpl. now rewrite Hc, Hn.
Qed.

Lemma shaped_colonFree_path n : shaped n -> Str.colonFree n.(n_filePath) = true.
Proof. now intros [H _]. Qed.

Lemma edgeOnly_shaped st st' : edgeOnly st st' -> nodesShaped st -> nodesShaped st'.
Proof. intros (N & _) Hs k n H. rewrite N in H. now apply (Hs k). Qed.

Lemma createImportEdgesFor_shaped importInfo sources st importName :
  WF st -> nodesShaped st ->
  (forall nodeId, In nodeId sources -> JsMap.has nodeId st.(nodeMap) = true) ->
  nodesShaped (createImportEdgesFor importInfo sources st importName).
Proof.
  intros Hwf Hs Hsrc. unfold createImportEdgesFor.
  destruct (findFileByExport importName st) as [targetFile |] eqn:Hf; [| exact Hs].
  destruct (Str.truthy targetFile); [| exact Hs].
  apply findFileByExport_in_node in Hf. destruct Hf as (k & n & Hin & Hp).
  assert (Hcf : Str.colonFree targetFile = true).
  { rewrite <- Hp. eapply shaped_colonFree_path, Hs, Hin. }
  set (st1 := if negb (JsMap.has targetFile (fileToNodes st))
              then createFileNode targetFile st else st).
  assert (H1 : nodesShaped st1 /\ WF st1 /\ nodesGrow st st1).
  { unfold st1. destruct (negb _).
    - split; [now apply createFileNode_shaped |].
      split; [now apply createFileNode_WF | apply createFileNode_grow].
    - split; [exact Hs |]. split; [exact Hwf | apply nodesGrow_refl]. }
  destruct H1 as (Hs1 & Hwf1 & Hg1).
  set (st2 := if JsMap.has (hd "" sources) (nodeMap st1)
                 && JsMap.has ("file:" ++ targetFile) (nodeMap st1)
              then addEdge (importEdge importInfo importName (hd "" sources)
                                       ("file:" ++ targetFile)) st1
              else st1).
  assert (H2 : WF st2 /\ edgeOnly st1 st2).
  { unfold st2.
    destruct (JsMap.has (hd "" sources) (nodeMap st1)
              && JsMap.has ("file:" ++ targetFile) (nodeMap st1)) eqn:E.
    - apply andb_true_iff in E. destruct E as [E1 E2].
      split; [now apply addEdge_WF | apply addEdge_edgeOnly].
    - split; [exact Hwf1 | apply edgeOnly_refl]. }
  destruct H2 as [Hwf2 Heo2].
  destruct (importPairs_WF importInfo importName sources
              (orEmpty (JsMap.get targetFile (fileToNodes st1))) st2 Hwf2) as [_ Heo3].
  { intros nodeId Hin'. destruct Heo2 as (N & _). rewrite N.
    eapply nodesGrow_has; [apply Hg1 | now apply Hsrc]. }
  eapply edgeOnly_shaped; [exact Heo3 |].
  eapply edgeOnly_shaped; [exact Heo2 | exact Hs1].
Qed.

Lemma createImportEdges_shaped importInfo st :
  Str.colonFree importInfo.(i_from) = true ->
  WF st -> nodesShaped st -> nodesShaped (createImportEdges importInfo st).
Proof.
  intros Hcf Hwf Hs. unfold createImportEdges.
  set (sources0 := orEmpty (JsMap.get (i_from importInfo) (fileToNodes st))).
  assert (Hs0 : forall nodeId, In nodeId sources0 -> JsMap.has nodeId (nodeMap st) = true).
  { intros nodeId Hin. unfold sources0 in Hin.
    destruct (JsMap.get (i_from importInfo) (fileToNodes st)) as [ids |] eqn:Hg; [| destruct Hin].
    destruct (wf_index st Hwf _ _ _ Hg Hin) as (n & Hn & _). eapply get_has; eauto. }
  assert (Hloop : forall sources s,
             WF s -> nodesShaped s ->
             (forall nodeId, In nodeId sources -> JsMap.has nodeId (nodeMap s) = true) ->
             nodesShaped (if (length sources =? 0)%nat then s
                          else fold_left (createImportEdgesFor importInfo sources)
                                         (i_imports importInfo) s)).
  { intros sources s Hwfs Hss Hsrc.
    destruct (length sources =? 0)%nat; [exact Hss |].
    apply (fold_left_invariant (fun s' => WF s' /\ grows s s' /\ nodesShaped s'));
      [split; [exact Hwfs |]; split; [apply grows_refl | exact Hss] |].
    intros s' name _ (Hwf' & Hg' & Hs').
    assert (Hsrc' : forall nodeId, In nodeId sources -> JsMap.has nodeId (nodeMap s') = true).
    { intros nodeId Hin. eapply nodesGrow_has; [apply Hg' | apply Hsrc, Hin]. }
    destruct (createImportEdgesFor_WF importInfo sources s' name Hwf' Hsrc') as [Hw Hg].
    split; [exact Hw |]. split; [eapply grows_trans; eauto |].
    now apply createImportEdgesFor_shaped. }
  destruct (length sources0 =? 0)%nat eqn:Hlen; [| now apply Hloop].
  destruct (negb (JsMap.has ("file:" ++ i_from importInfo) (nodeMap st))) eqn:Hneg;
    [| now apply Hloop].
  set (st' := createFileNode (i_from importInfo) st).
  assert (Hwf' : WF st') by now apply createFileNode_WF.
  assert (Hs' : nodesShaped st') by now apply createFileNode_shaped.
  assert (Hsrc' : forall nodeId,
             In nodeId (orEmpty (JsMap.get (i_from importInfo) (fileToNodes st'))) ->
             JsMap.has nodeId (nodeMap st') = true).
  { intros nodeId Hin.
    destruct (JsMap.get (i_from importInfo) (fileToNodes st')) as [ids |] eqn:Hg; [| destruct Hin].
    destruct (wf_index st' Hwf' _ _ _ Hg Hin) as (n & Hn & _). eapply get_has; eauto. }
  assert (Hsrc0 : forall nodeId, In nodeId sources0 -> JsMap.has nodeId (nodeMap st') = true).
  { intros nodeId Hin. eapply nodesGrow_has; [apply createFileNode_grow | now apply Hs0]. }
  destruct (0 <? length (orEmpty (JsMap.get (i_from importInfo) (fileToNodes st'))))%nat.
  - apply Hloop; try assumption.
    intros nodeId Hin. apply in_app_or in Hin. destruct Hin; auto.
  - now apply Hloop.
Qed.

Lemma colonFreeFacts_parts a :
  colonFreeFacts a = true ->
  (forall f, In f a.(files) -> Str.colonFree f.(f_path) = true)
  /\ (forall f, In f a.(functions) ->
                Str.colonFree f.(fn_filePath) = true /\ Str.colonFree f.(fn_name) = true)
  /\ (forall c, In c a.(classes) ->
                Str.colonFree c.(c_filePath) = true /\ Str.colonFree c.(c_name) = true
                /\ forall m, In m c.(c_methods) ->
                             Str.colonFree m.(m_filePath) = true
                             /\ Str.colonFree m.(m_name) = true)
  /\ (forall i, In i a.(imports) -> Str.colonFree i.(i_from) = true).
Proof.
  unfold colonFreeFacts. intros H.
  apply andb_true_iff in H. destruct H as [H Hi].
  apply andb_true_iff in H. destruct H as [H Hc].
  apply andb_true_iff in H. destruct H as [Hf Hfn].
  split; [| split; [| split]].
  - intros f Hin. eapply forallb_forall in Hf; eauto.
  - intros f Hin. eapply forallb_forall in Hfn; eauto. now apply andb_true_iff in Hfn.
  - intros c Hin. eapply forallb_forall in Hc; eauto.
    apply andb_true_iff in Hc. destruct Hc as [Hc Hm].
    apply andb_true_iff in Hc. destruct Hc as [Hp Hn].
    split; [exact Hp |]. split; [exact Hn |].
    intros m Hin'. eapply forallb_forall in Hm; eauto. now apply andb_true_iff in Hm.
  - intros i Hin. eapply forallb_forall in Hi; eauto.
Qed.

Lemma afterNodes_shaped a : colonFreeFacts a = true -> nodesShaped (afterNodes a).
Proof.
  intros Hcf. destruct (colonFreeFacts_parts a Hcf) as (Hf & Hfn & Hc & _).
  unfold afterNodes.
  apply (fold_left_invariant nodesShaped).
  - apply (fold_left_invariant nodesShaped).
    + apply (fold_left_invariant nodesShaped).
      * apply (fold_left_invariant nodesShaped); [intros k n [] |].
        intros s f Hin Hs. apply createFileNode_shaped; auto.
      * intros s f Hin Hs. destruct (Hfn f Hin). now apply createFunctionNode_shaped.
    + intros s c Hin Hs. destruct (Hc c Hin) as (? & ? & _). now apply createClassNode_shaped.
  - intros s c Hin Hs. destruct (Hc c Hin) as (? & ? & Hm).
    apply (fold_left_invariant nodesShaped); [exact Hs |].
    intros s' m Hin' Hs'. destruct (Hm m Hin'). now apply createMethodNode_shaped.
Qed.

Lemma afterImports_shaped a : colonFreeFacts a = true -> nodesShaped (afterImports a).
Proof.
  intros Hcf. destruct (colonFreeFacts_parts a Hcf) as (_ & _ & _ & Hi).
  unfold afterImports.
  apply (fold_left_invariant (fun s => WF s /\ nodesShaped s)).
  - split; [apply afterNodes_WF | now apply afterNodes_shaped].
  - intros s i Hin [Hw Hs]. split.
    + now apply createImportEdges_WF.
    + apply createImportEdges_shaped; auto.
Qed.

(** From step 6 on the node map and the file index are those left by the
    import step. *)
Lemma final_nodeMap a st0 : nodeMap (fst (buildPass a st0)) = nodeMap (afterImports a).
Proof.
  destruct (buildPass_edgeOnly a st0) as (N1 & _).
  destruct (afterInheritance_WF a) as [_ (N2 & _)].
  destruct (afterCalls_WF a) as [_ (N3 & _)].
  congruence.
Qed.

Lemma final_fileToNodes a st0 :
  fileToNodes (fst (buildPass a st0)) = fileToNodes (afterImports a).
Proof.
  destruct (buildPass_edgeOnly a st0) as (_ & F1 & _).
  destruct (afterInheritance_WF a) as [_ (_ & F2 & _)].
  destruct (afterCalls_WF a) as [_ (_ & F3 & _)].
  congruence.
Qed.

Lemma buildPass_shaped a st0 :
  colonFreeFacts a = true -> nodesShaped (fst (buildPass a st0)).
Proof.
  intros Hcf k n H. rewrite final_nodeMap in H. eapply afterImports_shaped; eauto.
Qed.

(** ** How the edges of a built graph were made *)

Lemma addEdge_sat (P : GraphEdge -> Prop) e st :
  edgesSat P st -> P e -> edgesSat P (addEdge e st).
Proof.
  intros Hs He k e' H. unfold addEdge in H.
  destruct (JsMap.has (e_id e) (edgeMap st)) eqn:Habs; [now apply (Hs k) |].
  simpl in H. apply In_set_absent in H; [| exact Habs].
  destruct H as [H | [_ ->]]; [now apply (Hs k) | exact He].
Qed.

Lemma createFileNode_sat P p st : edgesSat P st -> edgesSat P (createFileNode p st).
Proof. intros Hs k e H. rewrite createFileNode_edgeMap in H. now apply (Hs k). Qed.

Lemma createImportEdges_sat importInfo st :
  edgesSat isImportEdge st -> edgesSat isImportEdge (createImportEdges importInfo st).
Proof.
  intros Hs.
  assert (Hfor : forall sources s name,
             edgesSat isImportEdge s ->
             edgesSat isImportEdge (createImportEdgesFor importInfo sources s name)).
  { intros sources s name Hss. unfold createImportEdgesFor.
    destruct (findFileByExport name s) as [targetFile |]; [| exact Hss].
    destruct (Str.truthy targetFile); [| exact Hss].
    apply (fold_left_invariant (edgesSat isImportEdge)).
    - destruct (JsMap.has _ _ && JsMap.has _ _).
      + apply addEdge_sat; [| now split].
        destruct (negb _); [now apply createFileNode_sat | exact Hss].
      + destruct (negb _); [now apply createFileNode_sat | exact Hss].
    - intros s1 src _ Hs1.
      apply (fold_left_invariant (edgesSat isImportEdge)); [exact Hs1 |].
      intros s2 tgt _ Hs2.
      destruct (JsMap.get tgt (nodeMap s2)) as [tn |]; [| exact Hs2].
      destruct (n_label tn =? name); [| exact Hs2].
      apply addEdge_sat; [exact Hs2 | now split]. }
  assert (Hloop : forall sources s,
             edgesSat isImportEdge s ->
             edgesSat isImportEdge
                      (if (length sources =? 0)%nat then s
                       else fold_left (createImportEdgesFor importInfo sources)
                                      (i_imports importInfo) s)).
  { intros sources s Hss. destruct (length sources =? 0)%nat; [exact Hss |].
    apply (fold_left_invariant (edgesSat isImportEdge)); [exact Hss |].
    intros s' name _ Hs'. now apply Hfor. }
  unfold createImportEdges.
  destruct (length _ =? 0)%nat; [| now apply Hloop].
  destruct (negb _); [| now apply Hloop].
  destruct (0 <? _)%nat; apply Hloop; now apply createFileNode_sat.
Qed.

Lemma edgeMap_nodePhase a : edgeMap (afterNodes a) = [].
Proof.
  unfold afterNodes.
  apply (fold_left_invariant (fun s => edgeMap s = [])).
  - apply (fold_left_invariant (fun s => edgeMap s = [])).
    + apply (fold_left_invariant (fun s => edgeMap s = [])).
      * apply (fold_left_invariant (fun s => edgeMap s = [])); [reflexivity |].
        intros s f _ Hs. now rewrite createFileNode_edgeMap.
      * intros s f _ Hs. unfold createFunctionNode. now destruct (JsMap.has _ _).
    + intros s c _ Hs. unfold createClassNode. now destruct (JsMap.has _ _).
  - intros s c _ Hs. apply (fold_left_invariant (fun s => edgeMap s = [])); [exact Hs |].
    intros s' m _ Hs'. unfold createMethodNode. now destruct (JsMap.has _ _).
Qed.

Lemma afterImports_sat a : edgesSat isImportEdge (afterImports a).
Proof.
  unfold afterImports.
  apply (fold_left_invariant (edgesSat isImportEdge)).
  - intros k e H. rewrite edgeMap_nodePhase in H. destruct H.
  - intros s i _ Hs. now apply createImportEdges_sat.
Qed.

Section MadeEdges.
Variable N : list (string * GraphNode).
Variable F : list (string * list string).
Hypothesis indexed :
  forall p ids nodeId,
    JsMap.get p F = Some ids -> In nodeId ids ->
    exists n, JsMap.get nodeId N = Some n /\ n.(n_filePath) = p.


Lemma addEdge_stable e s : stable N F s -> edgeMade N F e -> stable N F (addEdge e s).
Proof.
  intros (Hn & Hf & Hs) He. split; [| split].
  - now rewrite addEdge_nodeMap.
  - now rewrite addEdge_fileToNodes.
  - now apply addEdge_sat.
Qed.

Lemma addCallEdgesFor_stable filePath functionName s :
  stable N F s -> stable N F (addCallEdgesFor filePath functionName s).
Proof.
  intros Hst. unfold addCallEdgesFor.
  assert (Hidx : forall nodeId,
             In nodeId (orEmpty (JsMap.get filePath (fileToNodes s))) ->
             In nodeId (orEmpty (JsMap.get filePath F))).
  { destruct Hst as (_ & -> & _). auto. }
  revert Hidx. generalize (orEmpty (JsMap.get filePath (fileToNodes s))) as ids.
  intros ids Hidx.
  apply (fold_left_invariant (stable N F)); [exact Hst |].
  intros s' nodeId Hin Hs'.
  destruct (JsMap.get nodeId (nodeMap s')) as [node |] eqn:Hg; [| exact Hs'].
  destruct (labelMatches node functionName); [| exact Hs'].
  destruct (findCallerNode node s') as [callerId |] eqn:Hc; [| exact Hs'].
  apply addEdge_stable; [exact Hs' |].
  right. left. exists node. simpl.
  destruct Hs' as (Hn' & Hf' & _). unfold findCallerNode in Hc.
  rewrite Hn' in Hg, Hc. rewrite Hf' in Hc.
  split; [reflexivity |]. split; [| split; assumption].
  specialize (Hidx nodeId Hin).
  destruct (JsMap.get filePath F) as [ids' |] eqn:Hget; [| destruct Hidx].
  destruct (indexed filePath ids' nodeId Hget Hidx) as (n & Hn & Hp).
  assert (n = node) by congruence. subst n. now rewrite Hp, Hget.
Qed.

Lemma extractCallEdges_stable sourceFile filePath s :
  stable N F s -> stable N F (extractCallEdges sourceFile filePath s).
Proof.
  intros Hst. unfold extractCallEdges. rewrite visit_callNames.
  apply (fold_left_invariant (stable N F)); [exact Hst |].
  intros s' name _ Hs'. now apply addCallEdgesFor_stable.
Qed.

Lemma createInheritanceEdges_stable cls s :
  stable N F s -> stable N F (createInheritanceEdges cls s).
Proof.
  intros Hst. unfold createInheritanceEdges.
  apply (fold_left_invariant (stable N F)).
  - destruct (c_extends cls) as [ext |]; [| exact Hst].
    destruct (Str.truthy ext); [| exact Hst].
    destruct (findNodeByName ext NodeClass s); [| exact Hst].
    apply addEdge_stable; [exact Hst |].
    right. right. left. now split.
  - intros s' name _ Hs'.
    destruct (findNodeByName name NodeInterface s'); [| exact Hs'].
    apply addEdge_stable; [exact Hs' |].
    right. right. right. left. now split.
Qed.

Lemma createParentChildEdges_stable s :
  stable N F s -> stable N F (fst (createParentChildEdges s)).
Proof.
  intros Hst. unfold createParentChildEdges.
  assert (Hent : forall entry, In entry (nodeMap s) -> In entry N).
  { destruct Hst as (-> & _). auto. }
  revert Hent. generalize (nodeMap s) as entries. intros entries Hent.
  apply (fold_left_invariant (fun acc => stable N F (fst acc))); [exact Hst |].
  intros [s' log] [nodeId node] Hin Hs'. simpl in Hs'. unfold parentChildStep.
  destruct (n_parentId node) as [parentId |] eqn:Hp; [| exact Hs'].
  destruct (Str.truthy parentId); [| exact Hs'].
  destruct (JsMap.has parentId (nodeMap s')) eqn:Hh; [| exact Hs'].
  destruct (negb _); [| exact Hs'].
  simpl. apply addEdge_stable; [exact Hs' |].
  right. right. right. right. exists node. simpl.
  destruct Hs' as (Hn' & _). rewrite Hn' in Hh.
  split; [reflexivity |]. split; [now apply Hent |]. now split.
Qed.

End MadeEdges.

(** Every edge of a built graph was made as [edgeMade] says. *)
Lemma buildPass_edgeMade a st0 :
  let st := fst (buildPass a st0) in
  edgesSat (edgeMade st.(nodeMap) st.(fileToNodes)) st.
Proof.
  cbv zeta. rewrite final_nodeMap, final_fileToNodes.
  set (N := nodeMap (afterImports a)). set (F := fileToNodes (afterImports a)).
  assert (Hidx : forall p ids nodeId,
             JsMap.get p F = Some ids -> In nodeId ids ->
             exists n, JsMap.get nodeId N = Some n /\ n.(n_filePath) = p).
  { apply (wf_index _ (proj1 (afterImports_WF a))). }
  assert (H5 : nodeMap (afterImports a) = N /\ fileToNodes (afterImports a) = F
               /\ edgesSat (edgeMade N F) (afterImports a)).
  { split; [reflexivity |]. split; [reflexivity |].
    intros k e H. left. eapply afterImports_sat; eauto. }
  assert (H6 : nodeMap (afterCalls a) = N /\ fileToNodes (afterCalls a) = F
               /\ edgesSat (edgeMade N F) (afterCalls a)).
  { unfold afterCalls.
    apply (fold_left_invariant
             (fun s => nodeMap s = N /\ fileToNodes s = F /\ edgesSat (edgeMade N F) s));
      [exact H5 |].
    intros s f _ Hs. destruct (getSourceFile a (f_path f)); [| exact Hs].
    now apply extractCallEdges_stable. }
  assert (H7 : nodeMap (afterInheritance a) = N /\ fileToNodes (afterInheritance a) = F
               /\ edgesSat (edgeMade N F) (afterInheritance a)).
  { unfold afterInheritance.
    apply (fold_left_invariant
             (fun s => nodeMap s = N /\ fileToNodes s = F /\ edgesSat (edgeMade N F) s));
      [exact H6 |].
    intros s c _ Hs. now apply createInheritanceEdges_stable. }
  rewrite buildPass_phases.
  now apply createParentChildEdges_stable.
Qed.

(** ** Edge keys of shaped nodes are unambiguous *)

Lemma join_cons x y l : Str.join ":" (x :: y :: l) = x ++ ":" ++ Str.join ":" (y :: l).
Proof. reflexivity. Qed.

Lemma join_app l1 l2 :
  l1 <> [] -> l2 <> [] ->
  Str.join ":" (l1 ++ l2) = Str.join ":" l1 ++ ":" ++ Str.join ":" l2.
Proof.
  intros H1 H2. induction l1 as [| x l1 IH]; [congruence |].
  destruct l1 as [| y l1].
  - destruct l2 as [| z l2]; [congruence | reflexivity].
  - change ((x :: y :: l1) ++ l2)%list with (x :: y :: (l1 ++ l2))%list.
    rewrite !join_cons.
    change (y :: (l1 ++ l2))%list with ((y :: l1) ++ l2)%list.
    rewrite IH by discriminate. now rewrite !append_assoc.
Qed.

Lemma fields_joined l :
  l <> [] -> forallb Str.colonFree l = true -> Str.fields (Str.join ":" l) = l.
Proof.
  intros Hne. induction l as [| x l IH]; [congruence |].
  intros H. cbn [forallb] in H. apply andb_true_iff in H. destruct H as [Hx Hl].
  destruct l as [| y l].
  - now apply fields_colonFree.
  - rewrite join_cons, fields_cons by assumption.
    rewrite IH; [reflexivity | discriminate | exact Hl].
Qed.

Lemma app_inj_length {A : Type} (l1 l2 l1' l2' : list A) :
  (l1 ++ l2 = l1' ++ l2')%list ->
  length l1 = length l1' \/ length l2 = length l2' ->
  l1 = l1' /\ l2 = l2'.
Proof.
  intros E Hlen.
  assert (Hl : length l1 = length l1').
  { destruct Hlen as [H | H]; [exact H |].
    apply (f_equal (@length A)) in E. rewrite !length_app in E. lia. }
  clear Hlen. revert l1' E Hl.
  induction l1 as [| x l1 IH]; intros [| x' l1'] E Hl; simpl in *; try discriminate.
  - now split.
  - injection E as -> E. destruct (IH l1' E ltac:(lia)) as [-> ->]. now split.
Qed.

(** A key [a:b] made of two colon-joined lists of colon-free fields
    determines both, as soon as one of the two field counts is known. *)
Lemma joined_pair_inj la lb la' lb' :
  la <> [] -> lb <> [] -> la' <> [] -> lb' <> [] ->
  forallb Str.colonFree la = true -> forallb Str.colonFree lb = true ->
  forallb Str.colonFree la' = true -> forallb Str.colonFree lb' = true ->
  length la = length la' \/ length lb = length lb' ->
  Str.join ":" la ++ ":" ++ Str.join ":" lb = Str.join ":" la' ++ ":" ++ Str.join ":" lb' ->
  la = la' /\ lb = lb'.
Proof.
  intros Ha Hb Ha' Hb' Ca Cb Ca' Cb' Hlen E.
  rewrite <- !join_app in E by assumption.
  apply (f_equal Str.fields) in E.
  rewrite !fields_joined in E.
  - now apply app_inj_length.
  - destruct la'; [congruence | discriminate].
  - now rewrite forallb_app, Ca', Cb'.
  - destruct la; [congruence | discriminate].
  - now rewrite forallb_app, Ca, Cb.
Qed.

(** The fields of the id of a shaped node. *)
Lemma shaped_id_fields n :
  shaped n ->
  exists l, n.(n_id) = Str.join ":" l
            /\ forallb Str.colonFree l = true
            /\ l <> []
            /\ (n.(n_type) <> NodeFile -> length l = 3).
Proof.
  intros [Hp H]. destruct (n_type n) eqn:Ht; try contradiction.
  - destruct H as [Hid _]. exists ["file"; n_filePath n].
    rewrite Hid. cbn [forallb]. rewrite Hp.
    repeat split; [discriminate | congruence].
  - destruct H as (Hl & Hid & _). exists ["function"; n_filePath n; n_label n].
    rewrite Hid. cbn [forallb]. rewrite Hp, Hl. repeat split. discriminate.
  - destruct H as (Hl & Hid & _). exists ["class"; n_filePath n; n_label n].
    rewrite Hid. cbn [forallb]. rewrite Hp, Hl. repeat split. discriminate.
  - destruct H as (Hl & Hid & _). exists ["method"; n_filePath n; n_label n].
    rewrite Hid. cbn [forallb]. rewrite Hp, Hl. repeat split. discriminate.
Qed.




(** ** Containment edges *)



Lemma edgesGrow_has st st' k :
  edgesGrow st st' -> JsMap.has k st.(edgeMap) = true -> JsMap.has k st'.(edgeMap) = true.
Proof.
  intros Hg H. apply has_get in H. destruct H as [e H].
  eapply get_has. apply Hg. exact H.
Qed.


Lemma addEdge_has e st : JsMap.has e.(e_id) (edgeMap (addEdge e st)) = true.
Proof.
  unfold addEdge. destruct (JsMap.has (e_id e) (edgeMap st)) eqn:H; [exact H |].
  simpl. unfold JsMap.has. now rewrite get_set_same.
Qed.










(** A function whose file is not listed has a parent id that names no
    node: the pass completes, creates no edge and counts one skip. *)
Lemma unresolved_parent_is_skipped :
  map n_id (nodes (builtGraph orphanFacts)) = ["function:/x.ts:f"]
  /\ edges (builtGraph orphanFacts) = []
  /\ snd (buildPass orphanFacts emptyState) = mkLog 0 1.
Proof. vm_compute. repeat split. Qed.

(** ** Call edges *)

Lemma fold_left_reaches {B : Type} (f : ExtractorState -> B -> ExtractorState)
      (P Q : ExtractorState -> Prop) (l : list B) (x : B) :
  In x l ->
  (forall s y, P s -> P (f s y)) ->
  (forall s, P s -> Q (f s x)) ->
  (forall s y, Q s -> Q (f s y)) ->
  forall s0, P s0 -> Q (fold_left f l s0).
Proof.
  intros Hin HP Hx HQ.
  induction l as [| y l IH]; intros s0 H0; [destruct Hin |].
  simpl. destruct Hin as [-> | Hin].
  - assert (Hq : Q (f s0 x)) by now apply Hx.
    revert Hq. generalize (f s0 x). clear -HQ.
    induction l as [| z l IHl]; intros s Hq; simpl; [exact Hq |].
    apply IHl. now apply HQ.
  - apply IH; [exact Hin |]. now apply HP.
Qed.



Section CallPhase.
Variable N : list (string * GraphNode).
Variable F : list (string * list string).









End CallPhase.


(** [findCallerNode_in] returns the first id of the list whose node is a
    function node. *)
Lemma findCallerNode_in_first m ids callerId :
  findCallerNode_in m ids = Some callerId ->
  exists before after,
    ids = (before ++ callerId :: after)%list
    /\ forall b, In b before ->
                 forall n, JsMap.get b m = Some n -> n.(n_type) <> NodeFunction.
Proof.
  induction ids as [| nodeId ids IH]; simpl; [discriminate |].
  destruct (JsMap.get nodeId m) as [n |] eqn:Hg.
  - destruct (NodeType_eqb (n_type n) NodeFunction) eqn:Ht.
    + intros [= <-]. exists [], ids. split; [reflexivity | intros b []].
    + intros H. destruct (IH H) as (before & after & -> & Hb).
      exists (nodeId :: before), after. split; [reflexivity |].
      intros b [<- | Hin] n' Hn'; [| now apply (Hb b)].
      assert (n' = n) by congruence. subst n'.
      intros E. rewrite E in Ht. discriminate.
  - intros H. destruct (IH H) as (before & after & -> & Hb).
    exists (nodeId :: before), after. split; [reflexivity |].
    intros b [<- | Hin] n' Hn'; [congruence | now apply (Hb b)].
Qed.




(** ** The traversal of the Context Filter *)

Lemma findNode_In g nodeId n : findNode g nodeId = Some n -> In n g.(nodes) /\ n.(n_id) = nodeId.
Proof.
  unfold findNode. intros H. apply find_some in H. destruct H as [Hin E].
  apply String.eqb_eq in E. now split.
Qed.

Lemma universe_seed g seedIds x : In x seedIds -> In x (universe g seedIds).
Proof. intros H. unfold universe. apply in_or_app. now left. Qed.

Lemma universe_edge g seedIds e :
  In e g.(edges) ->
  In e.(e_source) (universe g seedIds) /\ In e.(e_target) (universe g seedIds).
Proof.
  intros H. unfold universe.
  split; apply in_or_app; right; apply in_or_app; left; apply in_flat_map;
    exists e; (split; [exact H | simpl; tauto]).
Qed.

Lemma universe_file g seedIds n :
  In n g.(nodes) -> In ("file:" ++ n.(n_filePath)) (universe g seedIds).
Proof.
  intros H. unfold universe. apply in_or_app; right; apply in_or_app; right.
  apply in_flat_map. exists n. split; [exact H | now left].
Qed.

Lemma universe_parent g seedIds n p :
  In n g.(nodes) -> n.(n_parentId) = Some p -> In p (universe g seedIds).
Proof.
  intros H Hp. unfold universe. apply in_or_app; right; apply in_or_app; right.
  apply in_flat_map. exists n. split; [exact H |].
  unfold nodeTargets. rewrite Hp. right. now left.
Qed.

Section Traversal.
Variable g : GraphData.
Variable seedIds : list string.


Lemma scanned_refl P fr : scanned (universe g seedIds) P fr fr.
Proof.
  split; [apply incl_refl |]. split; [apply incl_refl |].
  split; intros x H; now left.
Qed.

Lemma scanned_trans P fr0 fr1 fr2 :
  scanned (universe g seedIds) P fr0 fr1 -> scanned (universe g seedIds) P fr1 fr2 -> scanned (universe g seedIds) P fr0 fr2.
Proof.
  intros (Q1 & R1 & N1 & M1) (Q2 & R2 & N2 & M2).
  split; [eapply incl_tran; eauto |]. split; [eapply incl_tran; eauto |]. split.
  - intros x H. destruct (N2 x H) as [H' | H']; [now apply N1 | now right].
  - intros x H. destruct (M2 x H) as [H' | H']; [| now right].
    destruct (M1 x H') as [H'' | H'']; [now left | right; now apply Q2].
Qed.

Lemma reach_scanned P other fr :
  In other (universe g seedIds) -> scanned (universe g seedIds) P fr (reach g P other fr).
Proof.
  intros HU. unfold reach.
  destruct (JsSet.has P other) eqn:Hp; cbn [negb]; [apply scanned_refl |].
  apply set_has_false in Hp.
  assert (Hbase : scanned (universe g seedIds) P fr
                    (mkFrontier (JsSet.add other (nodesToProcess fr))
                                (JsSet.add other (relatedNodeIds fr)))).
  { split; [intros x; apply set_add_keep |]. split; [intros x; apply set_add_keep |].
    split; simpl.
    - intros x H. apply set_add_In in H. destruct H as [-> | H]; [right | left]; auto.
    - intros x H. apply set_add_In in H. destruct H as [-> | H]; [right | left]; auto.
      apply set_add_new. }
  destruct (findNode g other) as [node |] eqn:Hf; [| exact Hbase].
  destruct (JsSet.has P ("file:" ++ n_filePath node)) eqn:Hpf; cbn [negb]; [exact Hbase |].
  apply set_has_false in Hpf. apply findNode_In in Hf. destruct Hf as [Hin _].
  eapply scanned_trans; [exact Hbase |].
  split; [intros x; apply set_add_keep |]. split; [apply incl_refl |].
  split; cbn [nodesToProcess relatedNodeIds].
  - intros x H. apply set_add_In in H. destruct H as [-> | H]; [right | left]; auto.
    split; [exact Hpf | now apply universe_file].
  - intros x H. now left.
Qed.

Lemma scanEdge_scanned P current fr e :
  In e g.(edges) -> scanned (universe g seedIds) P fr (scanEdge g P current fr e).
Proof.
  intros He. destruct (universe_edge g seedIds e He) as [Hs Ht].
  unfold scanEdge.
  apply scanned_trans
    with (fr1 := if e_source e =? current then reach g P (e_target e) fr else fr).
  - destruct (e_source e =? current); [now apply reach_scanned | apply scanned_refl].
  - destruct (e_target e =? current); [now apply reach_scanned | apply scanned_refl].
Qed.

Lemma scan_scanned P current fr :
  scanned (universe g seedIds) P fr (fold_left (scanEdge g P current) g.(edges) fr).
Proof.
  apply (fold_left_invariant (fun fr' => scanned (universe g seedIds) P fr fr')); [apply scanned_refl |].
  intros fr' e He H. eapply scanned_trans; [exact H | now apply scanEdge_scanned].
Qed.

(** One turn of the loop keeps the invariant. *)
Lemma traverse_step_inv fr P current rest :
  TraverseInv g (universe g seedIds) fr P ->
  fr.(nodesToProcess) = current :: rest ->
  let q := JsSet.delete current fr.(nodesToProcess) in
  let P' := JsSet.add current P in
  let fr1 := fold_left (scanEdge g P' current) g.(edges)
                       (mkFrontier q (JsSet.add current fr.(relatedNodeIds))) in
  let fr2 :=
    match findNode g current with
    | Some currentNode =>
        match currentNode.(n_parentId) with
        | Some parentId =>
            if Str.truthy parentId && negb (JsSet.has P' parentId)
            then mkFrontier (JsSet.add parentId fr1.(nodesToProcess)) fr1.(relatedNodeIds)
            else fr1
        | None => fr1
        end
    | None => fr1
    end in
  TraverseInv g (universe g seedIds) fr2 P' /\ length P' = S (length P).
Proof.
  intros [Hrel Hproc Hpar Hnd HPU HqU Hfresh] Hq q P' fr1 fr2.
  assert (Hcur : In current fr.(nodesToProcess)) by (rewrite Hq; now left).
  assert (HcurP : ~ In current P) by now apply Hfresh.
  assert (HP' : forall x, In x P' <-> x = current \/ In x P).
  { intros x. unfold P'. apply set_add_In. }
  destruct (scan_scanned P' current (mkFrontier q (JsSet.add current fr.(relatedNodeIds))))
    as (Q1 & R1 & N1 & M1).
  fold fr1 in Q1, R1, N1, M1. simpl in Q1, R1, N1, M1.
  assert (Hq2 : forall x, In x fr2.(nodesToProcess) <->
                          In x fr1.(nodesToProcess)
                          \/ exists n, findNode g current = Some n
                                       /\ n.(n_parentId) = Some x
                                       /\ Str.truthy x = true /\ ~ In x P').
  { intros x. unfold fr2.
    destruct (findNode g current) as [n |] eqn:Hf.
    - destruct (n_parentId n) as [p |] eqn:Hp.
      + destruct (Str.truthy p) eqn:Ht; simpl.
        * destruct (JsSet.has P' p) eqn:Hh; simpl.
          -- split; [now left |]. intros [H | (n' & E & Ex & _ & Hn)]; [exact H |].
             injection E as <-. rewrite Hp in Ex. injection Ex as <-.
             apply set_has_In in Hh. contradiction.
          -- apply set_has_false in Hh. rewrite set_add_In. split.
             ++ intros [-> | H]; [right | now left]. exists n. repeat split; assumption.
             ++ intros [H | (n' & E & Ex & _ & _)]; [now right |].
                injection E as <-. rewrite Hp in Ex. injection Ex as <-. now left.
        * split; [now left |]. intros [H | (n' & E & Ex & Htx & _)]; [exact H |].
          injection E as <-. rewrite Hp in Ex. injection Ex as <-. congruence.
      + split; [now left |]. intros [H | (n' & E & Ex & _)]; [exact H |].
        injection E as <-. congruence.
    - split; [now left |]. intros [H | (n' & E & _)]; [exact H | discriminate]. }
  assert (Hr2 : fr2.(relatedNodeIds) = fr1.(relatedNodeIds)).
  { unfold fr2. destruct (findNode g current) as [n |]; [| reflexivity].
    destruct (n_parentId n) as [p |]; [| reflexivity].
    now destruct (Str.truthy p && negb (JsSet.has P' p)). }
  assert (Hqd : forall x, In x q <-> In x fr.(nodesToProcess) /\ x <> current).
  { intros x. unfold q. apply set_delete_In. }
  split.
  - split.
    + (* related ids are processed or queued *)
      intros x Hx. rewrite Hr2 in Hx.
      destruct (M1 x Hx) as [H | H]; [| right; apply Hq2; now left].
      apply set_add_In in H. destruct H as [-> | H]; [left; apply HP'; now left |].
      destruct (Hrel x H) as [H' | H']; [left; apply HP'; now right |].
      destruct (String.eqb_spec x current) as [-> | Hne]; [left; apply HP'; now left |].
      right. apply Hq2. left. apply Q1. now apply Hqd.
    + (* processed ids are related *)
      intros x Hx. rewrite Hr2. apply R1. apply HP' in Hx.
      destruct Hx as [-> | Hx]; [apply set_add_new | apply set_add_keep; now apply Hproc].
    + (* parents of processed ids are processed or queued *)
      intros x n p Hx Hf Hp Ht. apply HP' in Hx. destruct Hx as [-> | Hx].
      * destruct (in_dec string_dec p P') as [Hin | Hnin]; [now left |].
        right. apply Hq2. right. exists n. repeat split; assumption.
      * destruct (Hpar x n p Hx Hf Hp Ht) as [H | H]; [left; apply HP'; now right |].
        destruct (String.eqb_spec p current) as [-> | Hne]; [left; apply HP'; now left |].
        right. apply Hq2. left. apply Q1. now apply Hqd.
    + now apply set_add_NoDup.
    + intros x Hx. apply HP' in Hx. destruct Hx as [-> | Hx]; [now apply HqU | now apply HPU].
    + intros x Hx. apply Hq2 in Hx. destruct Hx as [Hx | (n & Hf & Hp & _)].
      * destruct (N1 x Hx) as [H | [_ H]]; [| exact H]. apply Hqd in H. now apply HqU.
      * apply findNode_In in Hf. destruct Hf as [Hin _]. eapply universe_parent; eauto.
    + intros x Hx. apply Hq2 in Hx. destruct Hx as [Hx | (n & _ & _ & _ & Hn)]; [| exact Hn].
      destruct (N1 x Hx) as [H | [H _]]; [| exact H].
      apply Hqd in H. destruct H as [H Hne]. intros Hin. apply HP' in Hin.
      destruct Hin as [-> | Hin]; [congruence | now apply (Hfresh x)].
  - unfold P', JsSet.add.
    destruct (JsSet.has P current) eqn:E; [apply set_has_In in E; contradiction |].
    rewrite length_app. simpl. lia.
Qed.

(** The loop terminates within the bound and returns a parent-closed set. *)
Lemma traverse_terminates : forall fuel fr P,
  TraverseInv g (universe g seedIds) fr P ->
  length (universe g seedIds) < fuel + length P ->
  exists related,
    traverse fuel g fr P = Some related
    /\ parentClosed g related
    /\ incl fr.(relatedNodeIds) related.
Proof.
  induction fuel as [| fuel IH]; intros fr P Hinv Hlen.
  - exfalso. simpl in Hlen.
    pose proof (NoDup_incl_length (ti_nodup _ _ _ _ Hinv) (ti_processed_bound _ _ _ _ Hinv)).
    lia.
  - destruct (nodesToProcess fr) as [| current rest] eqn:Hq.
    + exists (relatedNodeIds fr). simpl. rewrite Hq. split; [reflexivity |].
      split; [| apply incl_refl].
      intros x n p Hx Hf Hp Ht.
      destruct (ti_related _ _ _ _ Hinv x Hx) as [HxP | HxQ]; [| rewrite Hq in HxQ; destruct HxQ].
      destruct (ti_parent _ _ _ _ Hinv x n p HxP Hf Hp Ht) as [H | H];
        [| rewrite Hq in H; destruct H].
      now apply (ti_processed _ _ _ _ Hinv).
    + assert (HcurP : ~ In current P).
      { apply (ti_fresh _ _ _ _ Hinv). rewrite Hq. now left. }
      destruct (traverse_step_inv fr P current rest Hinv Hq) as [Hinv' Hlen'].
      cbv zeta in Hinv', Hlen'.
      cbn [traverse]. rewrite Hq.
      destruct (JsSet.has P current) eqn:E; [apply set_has_In in E; contradiction |].
      rewrite <- Hq.
      match goal with
      | |- exists r, traverse fuel g ?fr' ?P' = Some r /\ _ =>
          destruct (IH fr' P') as (related & Hr & Hpc & Hincl)
      end.
      * exact Hinv'.
      * rewrite Hlen'.
        assert (HP'U : length (JsSet.add current P) <= length (universe g seedIds)).
        { apply NoDup_incl_length;
            [apply (ti_nodup _ _ _ _ Hinv') | apply (ti_processed_bound _ _ _ _ Hinv')]. }
        lia.
      * exists related. split; [exact Hr |]. split; [exact Hpc |].
        intros x Hx. apply Hincl.
        match goal with
        | |- In x (relatedNodeIds ?fr2) =>
            assert (Hr2 : incl (JsSet.add current (relatedNodeIds fr)) (relatedNodeIds fr2))
        end.
        { destruct (scan_scanned (JsSet.add current P) current
                      (mkFrontier (JsSet.delete current (nodesToProcess fr))
                                  (JsSet.add current (relatedNodeIds fr))))
            as (_ & R1 & _).
          simpl in R1. intros y Hy. apply R1 in Hy.
          destruct (findNode g current) as [n |]; [| exact Hy].
          destruct (n_parentId n) as [p |]; [| exact Hy].
          now destruct (Str.truthy p && negb (JsSet.has (JsSet.add current P) p)). }
        apply Hr2. now apply set_add_keep.
Qed.

(** [expand] is the result of the loop: it holds the seeds and is closed
    under parent links. *)
Lemma expand_spec :
  (exists related,
      traverse (S (length (universe g seedIds))) g (mkFrontier seedIds seedIds) [] = Some related
      /\ expand g seedIds = related)
  /\ parentClosed g (expand g seedIds)
  /\ incl seedIds (expand g seedIds).
Proof.
  destruct (traverse_terminates (S (length (universe g seedIds))) (mkFrontier seedIds seedIds) [])
    as (related & Hr & Hpc & Hincl).
  - constructor; cbn [nodesToProcess relatedNodeIds].
    + intros x H. now right.
    + intros x [].
    + intros x n p [].
    + constructor.
    + intros x [].
    + intros x H. now apply universe_seed.
    + intros x _ [].
  - simpl. lia.
  - unfold expand. rewrite Hr. split; [eauto |]. now split.
Qed.

End Traversal.

(** ** Parents resolve in graphs built from located facts *)






Lemma files_have_nodes (fs : list FileInfo) st f :
  In f fs ->
  JsMap.has ("file:" ++ f.(f_path))
            (nodeMap (fold_left (fun s file => createFileNode file.(f_path) s) fs st)) = true.
Proof.
  revert st. induction fs as [| f0 fs IH]; intros st Hin; [destruct Hin |].
  simpl. destruct Hin as [-> | Hin]; [| now apply IH].
  eapply nodesGrow_has; [| apply createFileNode_has].
  apply fold_left_nodesGrow. intros s x _. apply createFileNode_grow.
Qed.





(** ** Every node of a built graph hangs under its file node *)


Lemma shaped_class_id k p className :
  shaped k -> Str.colonFree p = true -> Str.colonFree className = true ->
  k.(n_id) = "class:" ++ p ++ ":" ++ className ->
  k.(n_type) = NodeClass /\ k.(n_filePath) = p.
Proof.
  intros [Hkp H] Hp Hc Hid. destruct (n_type k); try contradiction.
  - destruct H as [Hf _]. rewrite Hf in Hid. discriminate.
  - destruct H as (_ & Hf & _). rewrite Hf in Hid. discriminate.
  - destruct H as (Hl & Hf & _). rewrite Hf in Hid. injection Hid as Hid.
    split; [reflexivity |].
    destruct (join_inj [n_filePath k] [p] (n_label k) className) as [E _].
    + cbn [forallb]. now rewrite Hkp.
    + cbn [forallb]. now rewrite Hp.
    + reflexivity.
    + exact Hid.
    + now injection E.
  - destruct H as (_ & Hf & _). rewrite Hf in Hid. discriminate.
Qed.


(** ** The closure pass and the file-closure property *)

Lemma fold_left_union {B : Type} (step : list string -> B -> list string)
      (Q : B -> string -> Prop) (l : list B) :
  (forall s x y, In y (step s x) <-> In y s \/ Q x y) ->
  forall s0 y, In y (fold_left step l s0) <-> In y s0 \/ exists x, In x l /\ Q x y.
Proof.
  intros Hstep. induction l as [| x l IH]; intros s0 y; simpl.
  - split; [now left | intros [H | (x & [] & _)]; exact H].
  - rewrite IH, Hstep. split.
    + intros [[H | H] | (x' & Hin & H)]; eauto 6.
    + intros [H | (x' & [<- | Hin] & H)]; eauto 6.
Qed.

Lemma fileClosure_spec g related y :
  In y (fileClosure g related)
  <-> In y related
      \/ exists x, In x related
                   /\ exists node c,
                        findNode g x = Some node /\ node.(n_type) = NodeFile
                        /\ In c g.(nodes)
                        /\ c.(n_filePath) = node.(n_filePath)
                        /\ c.(n_id) <> x /\ c.(n_id) = y.
Proof.
  unfold fileClosure.
  apply (fold_left_union _
           (fun x y => exists node c,
                findNode g x = Some node /\ node.(n_type) = NodeFile
                /\ In c g.(nodes)
                /\ c.(n_filePath) = node.(n_filePath)
                /\ c.(n_id) <> x /\ c.(n_id) = y)).
  clear y. intros s x y.
  destruct (findNode g x) as [node |] eqn:Hf.
  - destruct (NodeType_eqb (n_type node) NodeFile) eqn:Ht.
    + assert (Htype : n_type node = NodeFile)
        by (destruct (n_type node); simpl in Ht; congruence).
      rewrite (fold_left_union
                 (fun s childNode =>
                    if (n_filePath childNode =? n_filePath node)
                       && negb (n_id childNode =? x)
                    then JsSet.add (n_id childNode) s else s)
                 (fun c y => c.(n_filePath) = node.(n_filePath)
                             /\ c.(n_id) <> x /\ c.(n_id) = y)).
      * split.
        -- intros [H | (c & Hc & Hp & Hne & Hy)]; [now left |].
           right. exists node, c. repeat split; assumption.
        -- intros [H | (node' & c & E & _ & Hc & Hp & Hne & Hy)]; [now left |].
           injection E as <-. right. exists c. repeat split; assumption.
      * intros s' c y'.
        destruct (String.eqb_spec (n_filePath c) (n_filePath node)) as [Hp | Hp];
          destruct (String.eqb_spec (n_id c) x) as [Hx | Hx]; simpl;
          rewrite ?set_add_In; split; intros H;
          try (destruct H as [H | H]); try tauto;
          try (destruct H as (? & ? & ?); try contradiction; subst; tauto);
          subst; tauto.
    + split; [now left |].
      intros [H | (node' & c & E & Htype & _)]; [exact H |].
      injection E as <-. rewrite Htype in Ht. discriminate.
  - split; [now left |]. intros [H | (node' & c & E & _)]; [exact H | discriminate].
Qed.

Lemma findNode_unique g n :
  NoDup (map n_id g.(nodes)) -> In n g.(nodes) -> findNode g n.(n_id) = Some n.
Proof.
  unfold findNode. induction (nodes g) as [| m l IH]; intros Hnd Hin; [destruct Hin |].
  simpl in *. inversion Hnd as [| ? ? Hnot Hnd']; subst.
  destruct Hin as [-> | Hin]; [now rewrite String.eqb_refl |].
  destruct (String.eqb_spec (n_id m) (n_id n)) as [E | _]; [| now apply IH].
  exfalso. apply Hnot. rewrite E. now apply in_map.
Qed.

Lemma NoDup_ids_eq g n m :
  NoDup (map n_id g.(nodes)) -> In n g.(nodes) -> In m g.(nodes) ->
  n.(n_id) = m.(n_id) -> n = m.
Proof.
  intros Hnd Hn Hm E.
  pose proof (findNode_unique g n Hnd Hn) as H1.
  pose proof (findNode_unique g m Hnd Hm) as H2.
  rewrite E in H1. congruence.
Qed.




(** The closure pass needs the file node: for facts that declare two
    functions in a file that is not listed, a hint naming one of them
    returns that one alone. *)
Lemma file_closure_needs_listed_files :
  locatedFacts unlistedFacts = false
  /\ map n_id (nodes (builtGraph unlistedFacts)) = ["function:/x.ts:f"; "function:/x.ts:g"]
  /\ map n_id (nodes (filterGraphByLLMContext
                        (builtGraph unlistedFacts) unlistedFacts
                        (mkHints None None (Some [mkHint "f" None]) None None)))
     = ["function:/x.ts:f"].
Proof. vm_compute. repeat split. Qed.

(** A file without a function node gets no call edge, whatever it calls:
    [findCallerNode] finds no caller. *)
Lemma no_function_node_no_call_edge :
  let a := mkAnalysis [mkFile "/ws/k.ts"] []
                      [mkClass "K" "/ws/k.ts" 1 1 false None [] []] []
                      (fun _ => Some (OtherNode [CallExpression (CalleeIdentifier "K") []])) in
  map n_id (nodes (builtGraph a)) = ["file:/ws/k.ts"; "class:/ws/k.ts:K"]
  /\ map (fun e => e.(e_type)) (edges (builtGraph a)) = [EdgeReference].
Proof. vm_compute. split; reflexivity. Qed.

(* ===================================================================== *)
(** * Further properties of the code *)
(* ===================================================================== *)

(** ** [findTargetFilePath] *)

Lemma firstShortest_In l f : firstShortest l = Some f -> In f l.
Proof.
  revert f. induction l as [| g l IH]; intros f; simpl; [discriminate |].
  destruct (firstShortest l) as [m |].
  - destruct (String.length (f_path g) <=? String.length (f_path m))%nat;
      intros [= <-]; [now left | right; now apply IH].
  - intros [= <-]. now left.
Qed.

Lemma findTargetFilePath_known (hint : string) (files : list FileInfo) (p : string) :
  findTargetFilePath hint files = Some p ->
  exists f, In f files /\ f.(f_path) = p
            /\ (p = hint
                \/ Path.basename p = Path.basename hint
                \/ Str.includes p hint = true).
Proof.
  unfold findTargetFilePath. intros H.
  destruct (Path.isAbsolute hint).
  - destruct (find (fun f => f_path f =? hint) files) as [f |] eqn:Hf; [| discriminate].
    injection H as <-. apply find_some in Hf. destruct Hf as [Hin E].
    apply String.eqb_eq in E. exists f. repeat split; auto.
  - assert (Hcand : forall f, In f (filter (isCandidate hint) files) ->
                              In f files
                              /\ (Path.basename (f_path f) = Path.basename hint
                                  \/ Str.includes (f_path f) hint = true)).
    { intros f Hf. apply filter_In in Hf. destruct Hf as [Hin Hc]. split; [exact Hin |].
      unfold isCandidate in Hc. apply orb_true_iff in Hc.
      destruct Hc as [Hc | Hc]; [left; now apply String.eqb_eq | right].
      now apply endsWith_includes. }
    destruct (length (filter (isCandidate hint) files) =? 1)%nat.
    + destruct (filter (isCandidate hint) files) as [| f l] eqn:Hl; [discriminate |].
      injection H as <-. destruct (Hcand f) as [Hin Hrel]; [now left |].
      exists f. repeat split; auto.
    + destruct (1 <? length (filter (isCandidate hint) files))%nat.
      * rewrite sortByPathLength_head in H.
        destruct (firstShortest (filter (isCandidate hint) files)) as [f |] eqn:Hf;
          [| discriminate].
        injection H as <-. apply firstShortest_In in Hf.
        destruct (Hcand f Hf) as [Hin Hrel]. exists f. repeat split; auto.
      * destruct (find (containsHint hint) files) as [f |] eqn:Hf; [| discriminate].
        injection H as <-. apply find_some in Hf. destruct Hf as [Hin Hc].
        rewrite containsHint_includes in Hc. exists f. repeat split; auto.
Qed.

(** X1.  [findTargetFilePath] only ever returns the path of a known file,
    and that file is related to the hint: its path is the (absolute) hint
    itself, or it has the hint's basename, or its path contains the hint. *)
Theorem findTargetFilePath_returns_known_file (hint : string) (files : list FileInfo)
        (p : string) :
  findTargetFilePath hint files = Some p ->
  exists f, In f files /\ f.(f_path) = p
            /\ (p = hint
                \/ Path.basename p = Path.basename hint
                \/ Str.includes p hint = true).
Proof. apply findTargetFilePath_known. Qed.

(** The witness of [findTargetFilePath_returns_known_file]. *)
Lemma findTargetFilePath_returns_known_file_witness :
  exists f, In f [mkFile "/ws/a.ts"; mkFile "/ws/b.ts"] /\ f.(f_path) = "/ws/b.ts"
            /\ ("/ws/b.ts" = "b.ts"
                \/ Path.basename "/ws/b.ts" = Path.basename "b.ts"
                \/ Str.includes "/ws/b.ts" "b.ts" = true).
Proof.
  apply (findTargetFilePath_returns_known_file
           "b.ts" [mkFile "/ws/a.ts"; mkFile "/ws/b.ts"] "/ws/b.ts").
  vm_compute. reflexivity.
Defined.

(** ** Seeds of the Context Filter *)

Lemma fold_left_grows {B : Type} (step : list string -> B -> list string) (l : list B) :
  (forall s x, incl s (step s x)) -> forall s0, incl s0 (fold_left step l s0).
Proof.
  intros Hstep. induction l as [| x l IH]; intros s0; simpl; [apply incl_refl |].
  eapply incl_tran; [apply Hstep | apply IH].
Qed.

Lemma set_add_incl x s : incl s (JsSet.add x s).
Proof. intros y. apply set_add_keep. Qed.

Lemma addMethods_grows clsName methods s : incl s (addMethods clsName methods s).
Proof.
  unfold addMethods. apply fold_left_grows. intros s' m. apply set_add_incl.
Qed.

Lemma seedRelatedFiles_grows g a h s : incl s (seedRelatedFiles g a h s).
Proof.
  unfold seedRelatedFiles. apply fold_left_grows. intros s' file.
  destruct (resolveFile file (files a)); [| apply incl_refl].
  eapply incl_tran; [apply set_add_incl |].
  apply fold_left_grows. intros s'' node.
  destruct (n_filePath node =? s0); [apply set_add_incl | apply incl_refl].
Qed.

Lemma seedRelatedFunctions_grows g a h s : incl s (seedRelatedFunctions g a h s).
Proof.
  unfold seedRelatedFunctions. apply fold_left_grows. intros s' func.
  destruct (truthyString (h_filePath func)).
  - destruct (resolveFile _ (files a)); [| apply incl_refl].
    destruct (findNode g _); [| apply incl_refl].
    eapply incl_tran; apply set_add_incl.
  - apply fold_left_grows. intros s'' f.
    destruct (fn_name f =? h_name func); [| apply incl_refl].
    eapply incl_tran; apply set_add_incl.
Qed.

Lemma seedRelatedClasses_grows g a h s : incl s (seedRelatedClasses g a h s).
Proof.
  unfold seedRelatedClasses. apply fold_left_grows. intros s' cls.
  destruct (truthyString (h_filePath cls)).
  - destruct (resolveFile _ (files a)); [| apply incl_refl].
    destruct (hasNode g _); [| apply incl_refl].
    eapply incl_tran; [apply set_add_incl |].
    eapply incl_tran; [apply set_add_incl |].
    apply fold_left_grows. intros s'' c.
    destruct ((c_filePath c =? s0) && (c_name c =? h_name cls));
      [apply addMethods_grows | apply incl_refl].
  - apply fold_left_grows. intros s'' c.
    destruct (c_name c =? h_name cls); [| apply incl_refl].
    eapply incl_tran; [apply set_add_incl |].
    eapply incl_tran; [apply set_add_incl |]. apply addMethods_grows.
Qed.

Lemma seedTargetFile_grows a h s : incl s (seedTargetFile a h s).
Proof.
  unfold seedTargetFile. destruct (targetFile h) as [t |]; [| apply incl_refl].
  destruct (Str.truthy t); [| apply incl_refl].
  destruct (resolveFile t (files a)); [apply set_add_incl | apply incl_refl].
Qed.

(** A seed stays in the final related set. *)
Lemma seed_in_relatedSet g a h x : In x (seeds g a h) -> In x (relatedSet g a h).
Proof.
  intros Hx. unfold relatedSet.
  destruct (0 <? length (seeds g a h))%nat; [| exact Hx].
  apply fileClosure_spec. left.
  destruct (expand_spec g (seeds g a h)) as (_ & _ & Hincl). now apply Hincl.
Qed.

Lemma focusLoop_In g nodeId ids :
  In nodeId ids -> hasNode g nodeId = true ->
  forall s, In nodeId (fold_left
                         (fun s nodeId => if hasNode g nodeId then JsSet.add nodeId s else s)
                         ids s).
Proof.
  intros Hin Hn. induction ids as [| y ids IH]; intros s; [destruct Hin |].
  simpl. destruct Hin as [-> | Hin].
  - rewrite Hn.
    apply (fold_left_grows
             (fun s nodeId => if hasNode g nodeId then JsSet.add nodeId s else s)).
    + intros s' x. destruct (hasNode g x); [apply set_add_incl | apply incl_refl].
    + apply set_add_new.
  - now apply IH.
Qed.

Lemma seedFocusNodes_In g h nodeId ids :
  focusNodes h = Some ids -> In nodeId ids -> hasNode g nodeId = true ->
  forall s, In nodeId (seedFocusNodes g h s).
Proof.
  intros Hf Hin Hn s. unfold seedFocusNodes. rewrite Hf. cbn [nonEmptyArray].
  now apply focusLoop_In.
Qed.

(** X2.  Seed monotonicity: a focus node id that names a node of the
    graph is never filtered out, whatever the other hints are. *)
Theorem focus_nodes_survive_filter (g : GraphData) (a : AnalysisResult) (h : Hints)
        (ids : list string) (n : GraphNode) :
  focusNodes h = Some ids -> In n.(n_id) ids -> In n g.(nodes) ->
  In n (nodes (filterGraphByLLMContext g a h)).
Proof.
  intros Hf Hin Hn. unfold filterGraphByLLMContext. simpl.
  apply filter_In. split; [exact Hn |]. apply set_has_In.
  apply seed_in_relatedSet. unfold seeds.
  apply seedRelatedClasses_grows, seedRelatedFunctions_grows,
    seedRelatedFiles_grows, seedTargetFile_grows.
  eapply seedFocusNodes_In; eauto.
  apply hasNode_In. eauto.
Qed.

(** The witness of [focus_nodes_survive_filter]. *)
Lemma focus_nodes_survive_filter_witness :
  In (fileNode "/ws/a.ts")
     (nodes (filterGraphByLLMContext
               (builtGraph ScenarioA.factsWithImporter) ScenarioA.factsWithImporter
               (mkHints None None None None (Some ["file:/ws/a.ts"])))).
Proof.
  apply (focus_nodes_survive_filter
           (builtGraph ScenarioA.factsWithImporter) ScenarioA.factsWithImporter
           (mkHints None None None None (Some ["file:/ws/a.ts"]))
           ["file:/ws/a.ts"] (fileNode "/ws/a.ts") eq_refl).
  - left. reflexivity.
  - vm_compute. left. reflexivity.
Defined.

(** X3.  Hints that resolve to no seed give the empty graph, not the full
    one: a target-file hint that matches no known file, with no other hint
    carrying anything, makes [extractGraphData] return no node and no
    edge. *)
Theorem unresolved_target_gives_empty_graph (a : AnalysisResult) (st0 : ExtractorState)
        (h : Hints) (t : string) :
  targetFile h = Some t -> Str.truthy t = true ->
  findTargetFilePath t a.(files) = None ->
  nonEmptyArray h.(relatedFiles) = [] -> nonEmptyArray h.(relatedFunctions) = [] ->
  nonEmptyArray h.(relatedClasses) = [] -> nonEmptyArray h.(focusNodes) = [] ->
  fst (extractGraphData a h st0) = mkGraph [] [].
Proof.
  intros Ht Htr Hnone Hrf Hfn Hcl Hfo.
  unfold extractGraphData. unfold truthyString at 1. rewrite Ht, Htr. cbn [orb fst].
  assert (Hs : seeds (graphOf (fst (buildPass a st0))) a h = []).
  { unfold seeds, seedRelatedClasses, seedRelatedFunctions, seedRelatedFiles,
      seedTargetFile, seedFocusNodes.
    rewrite Hrf, Hfn, Hcl, Hfo, Ht, Htr. unfold resolveFile. rewrite Hnone. reflexivity. }
  unfold filterGraphByLLMContext, relatedSet. rewrite Hs. cbn.
  now rewrite !filter_false.
Qed.

(** The witness of [unresolved_target_gives_empty_graph]. *)
Lemma unresolved_target_gives_empty_graph_witness :
  fst (extractGraphData ScenarioA.factsWithImporter
                        (mkHints (Some "zzz.ts") None None None None) emptyState)
  = mkGraph [] [].
Proof.
  apply (unresolved_target_gives_empty_graph
           ScenarioA.factsWithImporter emptyState
           (mkHints (Some "zzz.ts") None None None None) "zzz.ts");
    reflexivity.
Defined.

(** ** Every built node is the node of a fact *)

Lemma knownPaths_file a f : In f a.(files) -> In f.(f_path) (knownPaths a).
Proof. intros H. unfold knownPaths. apply in_or_app. left. now apply in_map. Qed.

Lemma knownPaths_function a f : In f a.(functions) -> In f.(fn_filePath) (knownPaths a).
Proof.
  intros H. unfold knownPaths. apply in_or_app. right. apply in_or_app. left.
  now apply in_map.
Qed.

Lemma knownPaths_class a c : In c a.(classes) -> In c.(c_filePath) (knownPaths a).
Proof.
  intros H. unfold knownPaths. do 2 (apply in_or_app; right). apply in_or_app. left.
  now apply in_map.
Qed.

Lemma knownPaths_method a c m :
  In c a.(classes) -> In m c.(c_methods) -> In m.(m_filePath) (knownPaths a).
Proof.
  intros Hc Hm. unfold knownPaths. do 3 (apply in_or_app; right). apply in_or_app. left.
  apply in_flat_map. exists c. split; [exact Hc | now apply in_map].
Qed.

Lemma knownPaths_import a i : In i a.(imports) -> In i.(i_from) (knownPaths a).
Proof.
  intros H. unfold knownPaths. do 4 (apply in_or_app; right). now apply in_map.
Qed.

Lemma fromFacts_path a n : fromFacts a n -> In n.(n_filePath) (knownPaths a).
Proof.
  intros [(p & Hp & ->) | [(f & Hf & ->) | [(c & Hc & ->) | (c & m & Hc & Hm & ->)]]];
    cbn [n_filePath fileNode functionNode classNode methodNode].
  - exact Hp.
  - now apply knownPaths_function.
  - now apply knownPaths_class.
  - eapply knownPaths_method; eauto.
Qed.

Lemma fromFacts_file_id a n p : fromFacts a n -> n.(n_id) = "file:" ++ p -> n = fileNode p.
Proof.
  intros [(q & Hq & ->) | [(f & Hf & ->) | [(c & Hc & ->) | (c & m & Hc & Hm & ->)]]] E;
    simpl in E; try discriminate.
  injection E as ->. reflexivity.
Qed.

Lemma fromFacts_kind a n :
  fromFacts a n ->
  match n.(n_type) with
  | NodeFile => exists p, n.(n_id) = "file:" ++ p
  | NodeFunction => exists rest, n.(n_id) = "function:" ++ rest
  | NodeClass => exists rest, n.(n_id) = "class:" ++ rest
  | NodeMethod => exists rest, n.(n_id) = "method:" ++ rest
  | _ => False
  end.
Proof.
  intros [(q & Hq & ->) | [(f & Hf & ->) | [(c & Hc & ->) | (c & m & Hc & Hm & ->)]]];
    cbn [n_type n_id fileNode functionNode classNode methodNode]; eauto.
Qed.

Lemma setNode_nodesSat (P : GraphNode -> Prop) k node st :
  nodesSat P st -> JsMap.has k st.(nodeMap) = false -> P node ->
  nodesSat P (setNode k node st).
Proof.
  intros Hs Habs Hn k' n' H. simpl in H. apply In_set_absent in H; [| exact Habs].
  destruct H as [H | [_ ->]]; [now apply (Hs k') | exact Hn].
Qed.

Lemma createFileNode_nodesSat (P : GraphNode -> Prop) p st :
  nodesSat P st -> P (fileNode p) -> nodesSat P (createFileNode p st).
Proof.
  intros Hs Hn. unfold createFileNode.
  destruct (JsMap.has ("file:" ++ p) (nodeMap st)) eqn:Habs; [exact Hs |].
  intros k n H. rewrite registerInFile_nodeMap in H.
  eapply setNode_nodesSat; eauto.
Qed.

Lemma createFunctionNode_nodesSat (P : GraphNode -> Prop) f st :
  nodesSat P st -> P (functionNode f) -> nodesSat P (createFunctionNode f st).
Proof.
  intros Hs Hn. unfold createFunctionNode.
  destruct (JsMap.has _ (nodeMap st)) eqn:Habs; [exact Hs |].
  intros k n H. rewrite registerInFile_nodeMap in H.
  eapply setNode_nodesSat; eauto.
Qed.

Lemma createClassNode_nodesSat (P : GraphNode -> Prop) c st :
  nodesSat P st -> P (classNode c) -> nodesSat P (createClassNode c st).
Proof.
  intros Hs Hn. unfold createClassNode.
  destruct (JsMap.has _ (nodeMap st)) eqn:Habs; [exact Hs |].
  intros k n H. rewrite registerInFile_nodeMap in H.
  eapply setNode_nodesSat; eauto.
Qed.

Lemma createMethodNode_nodesSat (P : GraphNode -> Prop) m c st :
  nodesSat P st -> P (methodNode m c) -> nodesSat P (createMethodNode m c st).
Proof.
  intros Hs Hn. unfold createMethodNode.
  destruct (JsMap.has _ (nodeMap st)) eqn:Habs; [exact Hs |].
  eapply setNode_nodesSat; eauto.
Qed.

Lemma addEdge_nodesSat (P : GraphNode -> Prop) e st :
  nodesSat P st -> nodesSat P (addEdge e st).
Proof. intros Hs k n H. rewrite addEdge_nodeMap in H. now apply (Hs k). Qed.

(** The import step only adds file nodes: of the importing path, or of
    the path of a node that is already stored. *)
Lemma createImportEdges_nodesSat (P : GraphNode -> Prop) importInfo st :
  (forall n, P n -> P (fileNode n.(n_filePath))) ->
  P (fileNode importInfo.(i_from)) ->
  nodesSat P st -> nodesSat P (createImportEdges importInfo st).
Proof.
  intros Hfile Hfrom Hs.
  assert (Hfor : forall sources s name,
             nodesSat P s -> nodesSat P (createImportEdgesFor importInfo sources s name)).
  { intros sources s name Hss. unfold createImportEdgesFor.
    destruct (findFileByExport name s) as [targetFile |] eqn:Hfind; [| exact Hss].
    destruct (Str.truthy targetFile); [| exact Hss].
    assert (Ht : P (fileNode targetFile)).
    { unfold findFileByExport in Hfind. apply findFileByExport_in_node in Hfind.
      destruct Hfind as (k & n & Hin & <-). apply Hfile. now apply (Hss k). }
    assert (H1 : nodesSat P (if negb (JsMap.has targetFile (fileToNodes s))
                             then createFileNode targetFile s else s)).
    { destruct (negb _); [now apply createFileNode_nodesSat | exact Hss]. }
    apply (fold_left_invariant (nodesSat P)).
    - destruct (JsMap.has _ _ && JsMap.has _ _); [now apply addEdge_nodesSat | exact H1].
    - intros s1 src _ Hs1.
      apply (fold_left_invariant (nodesSat P)); [exact Hs1 |].
      intros s2 tgt _ Hs2.
      destruct (JsMap.get tgt (nodeMap s2)) as [tn |]; [| exact Hs2].
      destruct (n_label tn =? name); [| exact Hs2].
      now apply addEdge_nodesSat. }
  assert (Hloop : forall sources s,
             nodesSat P s ->
             nodesSat P (if (length sources =? 0)%nat then s
                         else fold_left (createImportEdgesFor importInfo sources)
                                        (i_imports importInfo) s)).
  { intros sources s Hss. destruct (length sources =? 0)%nat; [exact Hss |].
    apply (fold_left_invariant (nodesSat P)); [exact Hss |].
    intros s' name _ Hs'. now apply Hfor. }
  unfold createImportEdges.
  destruct (length (orEmpty (JsMap.get (i_from importInfo) (fileToNodes st))) =? 0)%nat;
    [| now apply Hloop].
  destruct (negb (JsMap.has ("file:" ++ i_from importInfo) (nodeMap st)));
    [| now apply Hloop].
  destruct (0 <? length _)%nat; apply Hloop; now apply createFileNode_nodesSat.
Qed.

Lemma afterNodes_fromFacts a : nodesSat (fromFacts a) (afterNodes a).
Proof.
  unfold afterNodes.
  apply (fold_left_invariant (nodesSat (fromFacts a))).
  - apply (fold_left_invariant (nodesSat (fromFacts a))).
    + apply (fold_left_invariant (nodesSat (fromFacts a))).
      * apply (fold_left_invariant (nodesSat (fromFacts a))); [intros k n [] |].
        intros s f Hin Hs. apply createFileNode_nodesSat; [exact Hs |].
        left. exists (f_path f). split; [now apply knownPaths_file | reflexivity].
      * intros s f Hin Hs. apply createFunctionNode_nodesSat; [exact Hs |].
        right. left. eauto.
    + intros s c Hin Hs. apply createClassNode_nodesSat; [exact Hs |].
      right. right. left. eauto.
  - intros s c Hin Hs.
    apply (fold_left_invariant (nodesSat (fromFacts a))); [exact Hs |].
    intros s' m Hm Hs'. apply createMethodNode_nodesSat; [exact Hs' |].
    right. right. right. eauto.
Qed.

Lemma buildPass_fromFacts a st0 : nodesSat (fromFacts a) (fst (buildPass a st0)).
Proof.
  intros k n H. rewrite final_nodeMap in H. revert k n H.
  change (nodesSat (fromFacts a) (afterImports a)). unfold afterImports.
  apply (fold_left_invariant (nodesSat (fromFacts a))); [apply afterNodes_fromFacts |].
  intros s i Hin Hs. apply createImportEdges_nodesSat; [| | exact Hs].
  - intros n Hn. left. exists (n_filePath n). split; [| reflexivity].
    now apply fromFacts_path.
  - left. exists (i_from i). split; [now apply knownPaths_import | reflexivity].
Qed.

(** X4.  Soundness of the node phase: every node of a built graph is the
    node of a fact -- the file node of a path the facts mention, or the
    node of a listed function, class, or method of a listed class. *)
Theorem built_nodes_come_from_facts (a : AnalysisResult) (n : GraphNode) :
  In n (nodes (builtGraph a)) -> fromFacts a n.
Proof.
  intros H. simpl in H. apply In_values in H. destruct H as [k H].
  eapply buildPass_fromFacts; eauto.
Qed.

(** The witness of [built_nodes_come_from_facts]. *)
Lemma built_nodes_come_from_facts_witness :
  fromFacts inheritFacts
            (methodNode (mkMethod "run" "/ws/s.ts" 5 3 true false false [] None)
                        (mkClass "Derived" "/ws/s.ts" 4 1 true (Some "Base") ["Shape"]
                                 [mkMethod "run" "/ws/s.ts" 5 3 true false false [] None])).
Proof.
  apply (built_nodes_come_from_facts inheritFacts).
  vm_compute. do 4 right. left. reflexivity.
Defined.

(** ** Every fact has its node *)

Lemma afterNodes_in_built a k n :
  JsMap.get k (nodeMap (afterNodes a)) = Some n -> In n (nodes (builtGraph a)).
Proof.
  intros H. simpl. apply In_values. exists k. rewrite final_nodeMap.
  apply get_In. destruct (afterImports_WF a) as [_ (Hg & _)]. now apply Hg.
Qed.

Lemma built_node_of_key a k :
  JsMap.has k (nodeMap (afterNodes a)) = true ->
  exists n, In n (nodes (builtGraph a)) /\ n.(n_id) = k /\ fromFacts a n.
Proof.
  intros H. apply has_get in H. destruct H as [n H]. exists n.
  pose proof (afterNodes_in_built a k n H) as Hin.
  split; [exact Hin |]. split.
  - destruct (afterNodes_WF a) as [[_ Hid] _ _ _]. apply Hid. now apply get_In.
  - simpl in Hin. apply In_values in Hin. destruct Hin as [k' Hin].
    eapply buildPass_fromFacts; eauto.
Qed.

Lemma functions_have_nodes (fs : list FunctionInfo) st f :
  In f fs ->
  JsMap.has ("function:" ++ f.(fn_filePath) ++ ":" ++ f.(fn_name))
            (nodeMap (fold_left (fun s func => createFunctionNode func s) fs st)) = true.
Proof.
  revert st. induction fs as [| f0 fs IH]; intros st Hin; [destruct Hin |].
  simpl. destruct Hin as [-> | Hin]; [| now apply IH].
  eapply nodesGrow_has.
  - apply fold_left_nodesGrow. intros s x _. apply createFunctionNode_grow.
  - unfold createFunctionNode.
    destruct (JsMap.has ("function:" ++ fn_filePath f ++ ":" ++ fn_name f) (nodeMap st))
             eqn:Habs; [exact Habs |].
    simpl. unfold JsMap.has. now rewrite get_set_same.
Qed.

Lemma createMethodNode_has m c st :
  JsMap.has ("method:" ++ m.(m_filePath) ++ ":" ++ c.(c_name) ++ "." ++ m.(m_name))
            (nodeMap (createMethodNode m c st)) = true.
Proof.
  unfold createMethodNode.
  destruct (JsMap.has ("method:" ++ m_filePath m ++ ":" ++ c_name c ++ "." ++ m_name m)
                      (nodeMap st)) eqn:Habs; [exact Habs |].
  simpl. unfold JsMap.has. now rewrite get_set_same.
Qed.

Lemma methods_have_nodes (cs : list ClassInfo) st c m :
  In c cs -> In m c.(c_methods) ->
  JsMap.has ("method:" ++ m.(m_filePath) ++ ":" ++ c.(c_name) ++ "." ++ m.(m_name))
            (nodeMap (fold_left
                        (fun s cls =>
                           fold_left (fun s method => createMethodNode method cls s)
                                     cls.(c_methods) s) cs st)) = true.
Proof.
  revert st. induction cs as [| c0 cs IH]; intros st Hc Hm; [destruct Hc |].
  simpl. destruct Hc as [-> | Hc]; [| now apply IH].
  eapply nodesGrow_has.
  - apply fold_left_nodesGrow. intros s x _.
    apply fold_left_nodesGrow. intros s' y _. apply createMethodNode_grow.
  - clear IH. revert st. induction (c_methods c) as [| m0 ms IHm]; intros st; [destruct Hm |].
    simpl. destruct Hm as [-> | Hm]; [| now apply IHm].
    eapply nodesGrow_has; [| apply createMethodNode_has].
    apply fold_left_nodesGrow. intros s' y _. apply createMethodNode_grow.
Qed.

Lemma methodPhase_grow (cs : list ClassInfo) st :
  nodesGrow st (fold_left
                  (fun s cls =>
                     fold_left (fun s method => createMethodNode method cls s)
                               cls.(c_methods) s) cs st).
Proof.
  apply fold_left_nodesGrow. intros s x _.
  apply fold_left_nodesGrow. intros s' y _. apply createMethodNode_grow.
Qed.

Lemma methodPhase_grow_has (cs : list ClassInfo) st k :
  JsMap.has k (nodeMap st) = true ->
  JsMap.has k (nodeMap (fold_left
                          (fun s cls =>
                             fold_left (fun s method => createMethodNode method cls s)
                                       cls.(c_methods) s) cs st)) = true.
Proof. apply nodesGrow_has, methodPhase_grow. Qed.

Lemma built_file_node a f :
  In f a.(files) -> In (fileNode f.(f_path)) (nodes (builtGraph a)).
Proof.
  intros Hf. destruct (built_node_of_key a ("file:" ++ f_path f)) as (n & Hin & Hid & Hff).
  - unfold afterNodes. apply methodPhase_grow_has.
    eapply nodesGrow_has;
      [apply fold_left_nodesGrow; intros s x _; apply createClassNode_grow |].
    eapply nodesGrow_has;
      [apply fold_left_nodesGrow; intros s x _; apply createFunctionNode_grow |].
    now apply files_have_nodes.
  - now rewrite <- (fromFacts_file_id a n _ Hff Hid).
Qed.

(** X5.  Completeness of the node phase: a built graph holds the file
    node of every listed file, a function node under the id of every
    listed function, a class node under the id of every listed class and
    a method node under the id of every method of a listed class. *)
Theorem every_declaration_has_a_node (a : AnalysisResult) :
  (forall f, In f a.(files) -> In (fileNode f.(f_path)) (nodes (builtGraph a)))
  /\ (forall f, In f a.(functions) ->
                exists n, In n (nodes (builtGraph a))
                          /\ n.(n_id) = "function:" ++ f.(fn_filePath) ++ ":" ++ f.(fn_name)
                          /\ n.(n_type) = NodeFunction)
  /\ (forall c, In c a.(classes) ->
                (exists n, In n (nodes (builtGraph a))
                           /\ n.(n_id) = "class:" ++ c.(c_filePath) ++ ":" ++ c.(c_name)
                           /\ n.(n_type) = NodeClass)
                /\ forall m, In m c.(c_methods) ->
                             exists n, In n (nodes (builtGraph a))
                                       /\ n.(n_id) = "method:" ++ m.(m_filePath) ++ ":"
                                                               ++ c.(c_name) ++ "."
                                                               ++ m.(m_name)
                                       /\ n.(n_type) = NodeMethod).
Proof.
  assert (Hkind : forall k,
             JsMap.has k (nodeMap (afterNodes a)) = true ->
             exists n, In n (nodes (builtGraph a)) /\ n.(n_id) = k
                       /\ fromFacts a n) by apply built_node_of_key.
  split; [| split].
  - intros f Hf. now apply built_file_node.
  - intros f Hf.
    destruct (Hkind ("function:" ++ fn_filePath f ++ ":" ++ fn_name f))
      as (n & Hin & Hid & Hff).
    + unfold afterNodes. apply methodPhase_grow_has.
      eapply nodesGrow_has;
        [apply fold_left_nodesGrow; intros s x _; apply createClassNode_grow |].
      now apply functions_have_nodes.
    + exists n. split; [exact Hin |]. split; [exact Hid |].
      destruct Hff as [(q & _ & ->) | [(f' & _ & ->) | [(c & _ & ->) | (c & m & _ & _ & ->)]]];
        simpl in Hid; try discriminate. reflexivity.
  - intros c Hc. split.
    + destruct (Hkind ("class:" ++ c_filePath c ++ ":" ++ c_name c))
        as (n & Hin & Hid & Hff); [now apply afterNodes_classes |].
      exists n. split; [exact Hin |]. split; [exact Hid |].
      destruct Hff as [(q & _ & ->) | [(f' & _ & ->) | [(c' & _ & ->) | (c' & m & _ & _ & ->)]]];
        simpl in Hid; try discriminate. reflexivity.
    + intros m Hm.
      destruct (Hkind ("method:" ++ m_filePath m ++ ":" ++ c_name c ++ "." ++ m_name m))
        as (n & Hin & Hid & Hff).
      * unfold afterNodes. now apply methods_have_nodes.
      * exists n. split; [exact Hin |]. split; [exact Hid |].
        destruct Hff as [(q & _ & ->) | [(f' & _ & ->) | [(c' & _ & ->) | (c' & m' & _ & _ & ->)]]];
          simpl in Hid; try discriminate. reflexivity.
Qed.

Lemma createFileNode_get_other k p st :
  k <> "file:" ++ p ->
  JsMap.get k (nodeMap (createFileNode p st)) = JsMap.get k (nodeMap st).
Proof.
  intros Hne. unfold createFileNode.
  destruct (JsMap.has ("file:" ++ p) (nodeMap st)); [reflexivity |].
  rewrite registerInFile_nodeMap. simpl. apply get_set_other.
  intros E. apply Hne. symmetry. exact E.
Qed.

Lemma createFunctionNode_get_other k f st :
  k <> "function:" ++ f.(fn_filePath) ++ ":" ++ f.(fn_name) ->
  JsMap.get k (nodeMap (createFunctionNode f st)) = JsMap.get k (nodeMap st).
Proof.
  intros Hne. unfold createFunctionNode.
  destruct (JsMap.has _ (nodeMap st)); [reflexivity |].
  rewrite registerInFile_nodeMap. simpl. apply get_set_other.
  intros E. apply Hne. symmetry. exact E.
Qed.

Lemma builtGraph_ids_NoDup a : NoDup (map n_id (nodes (builtGraph a))).
Proof.
  unfold builtGraph. destruct (buildPass_WF a emptyState) as [Hn _ _ _].
  rewrite graphOf_node_ids by exact Hn. apply Hn.
Qed.

(** X6.  The first declaration wins: when several function facts share
    an id, the node of the graph under that id is the node of the first
    of them, and it is the only node with that id. *)
Theorem first_function_declaration_wins (a : AnalysisResult)
        (pre post : list FunctionInfo) (f : FunctionInfo) :
  a.(functions) = (pre ++ f :: post)%list ->
  (forall g, In g pre ->
             "function:" ++ g.(fn_filePath) ++ ":" ++ g.(fn_name)
             <> "function:" ++ f.(fn_filePath) ++ ":" ++ f.(fn_name)) ->
  In (functionNode f) (nodes (builtGraph a))
  /\ forall n, In n (nodes (builtGraph a)) ->
               n.(n_id) = "function:" ++ f.(fn_filePath) ++ ":" ++ f.(fn_name) ->
               n = functionNode f.
Proof.
  intros Hfs Hpre.
  assert (Hin : In (functionNode f) (nodes (builtGraph a))).
  { apply (afterNodes_in_built a ("function:" ++ fn_filePath f ++ ":" ++ fn_name f)).
    unfold afterNodes. rewrite Hfs, fold_left_app. cbn [fold_left].
    apply methodPhase_grow.
    apply (fold_left_nodesGrow (fun s cls => createClassNode cls s));
      [intros s x _; apply createClassNode_grow |].
    apply (fold_left_nodesGrow (fun s func => createFunctionNode func s));
      [intros s x _; apply createFunctionNode_grow |].
    set (S1 := fold_left (fun s func => createFunctionNode func s) pre
                         (fold_left (fun s file => createFileNode (f_path file) s)
                                    (files a) emptyState)).
    assert (Habs : JsMap.get ("function:" ++ fn_filePath f ++ ":" ++ fn_name f)
                             (nodeMap S1) = None).
    { unfold S1.
      apply (fold_left_invariant
               (fun s => JsMap.get ("function:" ++ fn_filePath f ++ ":" ++ fn_name f)
                                   (nodeMap s) = None)).
      - apply (fold_left_invariant
                 (fun s => JsMap.get ("function:" ++ fn_filePath f ++ ":" ++ fn_name f)
                                     (nodeMap s) = None)); [reflexivity |].
        intros s file _ Hs. rewrite createFileNode_get_other; [exact Hs |].
        intros E. simpl in E. discriminate.
      - intros s g Hg Hs. rewrite createFunctionNode_get_other; [exact Hs |].
        intros E. now apply (Hpre g Hg). }
    unfold createFunctionNode, JsMap.has. rewrite Habs.
    rewrite registerInFile_nodeMap. simpl. apply get_set_same. }
  split; [exact Hin |].
  intros n Hn Hid.
  apply (NoDup_ids_eq (builtGraph a)); auto. apply builtGraph_ids_NoDup.
Qed.

(** The witness of [first_function_declaration_wins]. *)
Lemma first_function_declaration_wins_witness :
  In (functionNode (mkFunction "f" "/ws/s.ts" 1 1 true false [] None))
     (nodes (builtGraph inheritFacts))
  /\ forall n, In n (nodes (builtGraph inheritFacts)) ->
               n.(n_id) = "function:/ws/s.ts:f" ->
               n = functionNode (mkFunction "f" "/ws/s.ts" 1 1 true false [] None).
Proof.
  apply (first_function_declaration_wins
           inheritFacts [] [mkFunction "f" "/ws/s.ts" 7 1 false false [] None]
           (mkFunction "f" "/ws/s.ts" 1 1 true false [] None)).
  - reflexivity.
  - intros g [].
Defined.

(** ** The file index lists declarations, not methods *)

Lemma setNode_index k node st :
  indexListsDeclarations st -> JsMap.has k st.(nodeMap) = false ->
  indexListsDeclarations (setNode k node st).
Proof.
  intros Hi Habs p ids nodeId Hp Hin. simpl in *.
  destruct (Hi p ids nodeId Hp Hin) as (n & Hn & Hf).
  exists n. split; [| exact Hf]. now apply get_set_mono.
Qed.

Lemma registerInFile_index p nodeId n st :
  indexListsDeclarations st ->
  JsMap.get nodeId st.(nodeMap) = Some n -> n.(n_filePath) = p ->
  n.(n_type) <> NodeMethod ->
  indexListsDeclarations (registerInFile p nodeId st).
Proof.
  intros Hi Hget Hp Ht p' ids id Hp' Hin. unfold registerInFile in Hp'. simpl in *.
  destruct (String.eqb_spec p p') as [<- | Hne].
  - rewrite get_set_same in Hp'. injection Hp' as <-.
    apply in_app_or in Hin. destruct Hin as [Hin | [<- | []]].
    + destruct (JsMap.has p (fileToNodes st)) eqn:Hh.
      * destruct (JsMap.get p (fileToNodes st)) as [ids0 |] eqn:Hg; [| destruct Hin].
        exact (Hi p ids0 id Hg Hin).
      * rewrite get_set_same in Hin. destruct Hin.
    + exists n. repeat split; assumption.
  - rewrite get_set_other in Hp' by assumption.
    destruct (JsMap.has p (fileToNodes st)) eqn:Hh.
    + exact (Hi p' ids id Hp' Hin).
    + rewrite get_set_other in Hp' by assumption. exact (Hi p' ids id Hp' Hin).
Qed.

Lemma createFileNode_index p st :
  indexListsDeclarations st -> indexListsDeclarations (createFileNode p st).
Proof.
  intros Hi. unfold createFileNode.
  destruct (JsMap.has ("file:" ++ p) (nodeMap st)) eqn:Habs; [exact Hi |].
  eapply registerInFile_index;
    [now apply setNode_index | simpl; apply get_set_same | reflexivity | discriminate].
Qed.

Lemma createFunctionNode_index f st :
  indexListsDeclarations st -> indexListsDeclarations (createFunctionNode f st).
Proof.
  intros Hi. unfold createFunctionNode.
  destruct (JsMap.has _ (nodeMap st)) eqn:Habs; [exact Hi |].
  eapply registerInFile_index;
    [now apply setNode_index | simpl; apply get_set_same | reflexivity | discriminate].
Qed.

Lemma createClassNode_index c st :
  indexListsDeclarations st -> indexListsDeclarations (createClassNode c st).
Proof.
  intros Hi. unfold createClassNode.
  destruct (JsMap.has _ (nodeMap st)) eqn:Habs; [exact Hi |].
  eapply registerInFile_index;
    [now apply setNode_index | simpl; apply get_set_same | reflexivity | discriminate].
Qed.

Lemma createMethodNode_index m c st :
  indexListsDeclarations st -> indexListsDeclarations (createMethodNode m c st).
Proof.
  intros Hi. unfold createMethodNode.
  destruct (JsMap.has _ (nodeMap st)) eqn:Habs; [exact Hi |].
  now apply setNode_index.
Qed.

Lemma addEdge_index e st :
  indexListsDeclarations st -> indexListsDeclarations (addEdge e st).
Proof.
  intros Hi p ids nodeId Hp Hin.
  rewrite addEdge_fileToNodes in Hp. rewrite addEdge_nodeMap. eauto.
Qed.

(** The import step is made of [createFileNode] and [addEdge] steps. *)
Lemma createImportEdges_invariant (Q : ExtractorState -> Prop) importInfo st :
  (forall p s, Q s -> Q (createFileNode p s)) ->
  (forall e s, Q s -> Q (addEdge e s)) ->
  Q st -> Q (createImportEdges importInfo st).
Proof.
  intros Hfile Hedge Hs.
  assert (Hfor : forall sources s name,
             Q s -> Q (createImportEdgesFor importInfo sources s name)).
  { intros sources s name Hss. unfold createImportEdgesFor.
    destruct (findFileByExport name s) as [targetFile |]; [| exact Hss].
    destruct (Str.truthy targetFile); [| exact Hss].
    assert (H1 : Q (if negb (JsMap.has targetFile (fileToNodes s))
                    then createFileNode targetFile s else s)).
    { destruct (negb _); [now apply Hfile | exact Hss]. }
    apply (fold_left_invariant Q).
    - destruct (JsMap.has _ _ && JsMap.has _ _); [now apply Hedge | exact H1].
    - intros s1 src _ Hs1.
      apply (fold_left_invariant Q); [exact Hs1 |].
      intros s2 tgt _ Hs2.
      destruct (JsMap.get tgt (nodeMap s2)) as [tn |]; [| exact Hs2].
      destruct (n_label tn =? name); [| exact Hs2].
      now apply Hedge. }
  assert (Hloop : forall sources s,
             Q s ->
             Q (if (length sources =? 0)%nat then s
                else fold_left (createImportEdgesFor importInfo sources)
                               (i_imports importInfo) s)).
  { intros sources s Hss. destruct (length sources =? 0)%nat; [exact Hss |].
    apply (fold_left_invariant Q); [exact Hss |].
    intros s' name _ Hs'. now apply Hfor. }
  unfold createImportEdges.
  destruct (length (orEmpty (JsMap.get (i_from importInfo) (fileToNodes st))) =? 0)%nat;
    [| now apply Hloop].
  destruct (negb (JsMap.has ("file:" ++ i_from importInfo) (nodeMap st)));
    [| now apply Hloop].
  destruct (0 <? length _)%nat; apply Hloop; now apply Hfile.
Qed.

Lemma buildPass_index a st0 : indexListsDeclarations (fst (buildPass a st0)).
Proof.
  intros p ids nodeId. rewrite final_nodeMap, final_fileToNodes. revert p ids nodeId.
  change (indexListsDeclarations (afterImports a)). unfold afterImports.
  apply (fold_left_invariant indexListsDeclarations).
  - unfold afterNodes.
    apply (fold_left_invariant indexListsDeclarations).
    + apply (fold_left_invariant indexListsDeclarations).
      * apply (fold_left_invariant indexListsDeclarations).
        -- apply (fold_left_invariant indexListsDeclarations);
             [intros p ids nodeId H; discriminate |].
           intros s f _ Hs. now apply createFileNode_index.
        -- intros s f _ Hs. now apply createFunctionNode_index.
      * intros s c _ Hs. now apply createClassNode_index.
    + intros s c _ Hs. apply (fold_left_invariant indexListsDeclarations); [exact Hs |].
      intros s' m _ Hs'. now apply createMethodNode_index.
  - intros s i _ Hs. apply createImportEdges_invariant; [| | exact Hs].
    + intros p s' Hs'. now apply createFileNode_index.
    + intros e s' Hs'. now apply addEdge_index.
Qed.

(** ** Kinds of the edges of a built graph *)

Lemma addCallEdgesFor_sat (P : GraphEdge -> Prop) filePath functionName s :
  (forall caller callee, P (callEdge caller callee)) ->
  edgesSat P s -> edgesSat P (addCallEdgesFor filePath functionName s).
Proof.
  intros Hcall Hs. unfold addCallEdgesFor.
  apply (fold_left_invariant (edgesSat P)); [exact Hs |].
  intros s' nodeId _ Hs'.
  destruct (JsMap.get nodeId (nodeMap s')) as [node |]; [| exact Hs'].
  destruct (labelMatches node functionName); [| exact Hs'].
  destruct (findCallerNode node s'); [| exact Hs'].
  now apply addEdge_sat.
Qed.

Lemma extractCallEdges_sat (P : GraphEdge -> Prop) sourceFile filePath s :
  (forall caller callee, P (callEdge caller callee)) ->
  edgesSat P s -> edgesSat P (extractCallEdges sourceFile filePath s).
Proof.
  intros Hcall Hs. unfold extractCallEdges. rewrite visit_callNames.
  apply (fold_left_invariant (edgesSat P)); [exact Hs |].
  intros s' name _ Hs'. now apply addCallEdgesFor_sat.
Qed.

Lemma createParentChildEdges_sat (P : GraphEdge -> Prop) s :
  (forall parentId nodeId, P (containsEdge parentId nodeId)) ->
  edgesSat P s -> edgesSat P (fst (createParentChildEdges s)).
Proof.
  intros Hc Hs. unfold createParentChildEdges.
  apply (fold_left_invariant (fun acc => edgesSat P (fst acc))); [exact Hs |].
  intros [s' log] [nodeId node] _ Hs'. simpl in Hs'. unfold parentChildStep.
  destruct (n_parentId node) as [parentId |]; [| exact Hs'].
  destruct (Str.truthy parentId); [| exact Hs'].
  destruct (JsMap.has parentId (nodeMap s')); [| exact Hs'].
  destruct (negb _); [| exact Hs'].
  simpl. now apply addEdge_sat.
Qed.

Lemma createInheritanceEdges_made a N cls s :
  In cls a.(classes) ->
  (forall k n, In (k, n) N -> n.(n_type) <> NodeInterface) ->
  nodeMap s = N /\ edgesSat (inheritanceMade a N) s ->
  nodeMap (createInheritanceEdges cls s) = N
  /\ edgesSat (inheritanceMade a N) (createInheritanceEdges cls s).
Proof.
  intros Hcls Hno Hst. unfold createInheritanceEdges.
  apply (fold_left_invariant
           (fun s => nodeMap s = N /\ edgesSat (inheritanceMade a N) s)).
  - destruct (c_extends cls) as [ext |] eqn:Hext; [| exact Hst].
    destruct (Str.truthy ext); [| exact Hst].
    destruct (findNodeByName ext NodeClass s) as [targetId |] eqn:Hfind; [| exact Hst].
    destruct Hst as [HN Hs]. split; [now rewrite addEdge_nodeMap |].
    apply addEdge_sat; [exact Hs |].
    unfold findNodeByName in Hfind. apply findNodeByName_in_node in Hfind.
    destruct Hfind as (n & Hin & Hl & Ht). rewrite HN in Hin.
    exists cls, n. simpl. rewrite Hl. repeat split; assumption.
  - intros s' name _ [HN Hs'].
    destruct (findNodeByName name NodeInterface s') as [targetId |] eqn:Hfind;
      [| now split].
    exfalso. unfold findNodeByName in Hfind. apply findNodeByName_in_node in Hfind.
    destruct Hfind as (n & Hin & _ & Ht). rewrite HN in Hin.
    exact (Hno targetId n Hin Ht).
Qed.

Lemma buildPass_inheritanceMade a st0 :
  edgesSat (inheritanceMade a (nodeMap (fst (buildPass a st0)))) (fst (buildPass a st0)).
Proof.
  rewrite final_nodeMap. set (N := nodeMap (afterImports a)).
  assert (Hno : forall k n, In (k, n) N -> n.(n_type) <> NodeInterface).
  { intros k n Hin Ht.
    assert (Hff : fromFacts a n).
    { apply (buildPass_fromFacts a st0 k). now rewrite final_nodeMap. }
    apply fromFacts_kind in Hff. now rewrite Ht in Hff. }
  assert (H5 : edgesSat (inheritanceMade a N) (afterImports a)).
  { intros k e H. apply afterImports_sat in H. destruct H as [Ht _].
    unfold inheritanceMade. now rewrite Ht. }
  assert (H6 : nodeMap (afterCalls a) = N /\ edgesSat (inheritanceMade a N) (afterCalls a)).
  { split; [apply (afterCalls_WF a) |]. unfold afterCalls.
    apply (fold_left_invariant (edgesSat (inheritanceMade a N))); [exact H5 |].
    intros s f _ Hs. destruct (getSourceFile a (f_path f)); [| exact Hs].
    apply extractCallEdges_sat; [| exact Hs]. intros c0 t0. exact I. }
  assert (H7 : nodeMap (afterInheritance a) = N
               /\ edgesSat (inheritanceMade a N) (afterInheritance a)).
  { unfold afterInheritance.
    apply (fold_left_invariant
             (fun s => nodeMap s = N /\ edgesSat (inheritanceMade a N) s)); [exact H6 |].
    intros s c Hc Hs. now apply createInheritanceEdges_made. }
  rewrite buildPass_phases.
  apply createParentChildEdges_sat; [| apply H7]. intros p0 k0. exact I.
Qed.

(** X7.  A build pass produces edges of four kinds only: import, call,
    extends and reference.  It never produces an implements edge (the
    lookup asks for an interface node, and no step creates one) nor an
    export edge. *)
Theorem built_edges_have_four_kinds (a : AnalysisResult) (e : GraphEdge) :
  In e (edges (builtGraph a)) -> builtEdgeType e.
Proof.
  intros H. simpl in H. apply In_values in H. destruct H as [k H].
  apply buildPass_inheritanceMade in H. unfold inheritanceMade in H.
  unfold builtEdgeType. destruct (e_type e); try contradiction; auto.
Qed.

(** The witness of [built_edges_have_four_kinds]: the class of
    [inheritFacts] that implements [Shape] only gets its extends edge. *)
Lemma built_edges_have_four_kinds_witness :
  builtEdgeType
    (mkEdge "extends:class:/ws/s.ts:Derived:class:/ws/s.ts:Base"
            "class:/ws/s.ts:Derived" "class:/ws/s.ts:Base" EdgeExtends
            (Some "extends") None).
Proof.
  apply (built_edges_have_four_kinds inheritFacts).
  vm_compute. left. reflexivity.
Defined.

(** X8.  Every extends edge of a built graph starts at the id of a
    listed class and ends at a class node of the graph whose label is the
    name that class extends. *)
Theorem extends_edges_follow_class_facts (a : AnalysisResult) (e : GraphEdge) :
  In e (edges (builtGraph a)) -> e.(e_type) = EdgeExtends ->
  exists cls target,
    In cls a.(classes)
    /\ cls.(c_extends) = Some target.(n_label)
    /\ e.(e_source) = "class:" ++ cls.(c_filePath) ++ ":" ++ cls.(c_name)
    /\ In target (nodes (builtGraph a))
    /\ target.(n_id) = e.(e_target)
    /\ target.(n_type) = NodeClass.
Proof.
  intros H Ht. simpl in H. apply In_values in H. destruct H as [k H].
  apply buildPass_inheritanceMade in H. unfold inheritanceMade in H. rewrite Ht in H.
  destruct H as (cls & target & Hc & Hext & Hsrc & Hin & Hty).
  exists cls, target. repeat split; try assumption.
  - simpl. apply In_values. eauto.
  - destruct (buildPass_WF a emptyState) as [[_ Hid] _ _ _]. now apply Hid.
Qed.

(** The witness of [extends_edges_follow_class_facts]. *)
Lemma extends_edges_follow_class_facts_witness :
  exists cls target,
    In cls inheritFacts.(classes)
    /\ cls.(c_extends) = Some target.(n_label)
    /\ "class:/ws/s.ts:Derived" = "class:" ++ cls.(c_filePath) ++ ":" ++ cls.(c_name)
    /\ In target (nodes (builtGraph inheritFacts))
    /\ target.(n_id) = "class:/ws/s.ts:Base"
    /\ target.(n_type) = NodeClass.
Proof.
  apply (extends_edges_follow_class_facts
           inheritFacts
           (mkEdge "extends:class:/ws/s.ts:Derived:class:/ws/s.ts:Base"
                   "class:/ws/s.ts:Derived" "class:/ws/s.ts:Base" EdgeExtends
                   (Some "extends") None)).
  - vm_compute. left. reflexivity.
  - reflexivity.
Defined.

(** X9.  Every call edge of a built graph runs from a function node to a
    node of the same file that is listed in the file index: a file,
    function or class node, never a method node. *)
Theorem call_edges_link_function_to_declaration (a : AnalysisResult) (e : GraphEdge) :
  In e (edges (builtGraph a)) -> e.(e_type) = EdgeCall ->
  exists caller callee,
    In caller (nodes (builtGraph a)) /\ In callee (nodes (builtGraph a))
    /\ caller.(n_id) = e.(e_source) /\ callee.(n_id) = e.(e_target)
    /\ caller.(n_type) = NodeFunction
    /\ callee.(n_type) <> NodeMethod
    /\ caller.(n_filePath) = callee.(n_filePath).
Proof.
  intros H Ht. simpl in H. apply In_values in H. destruct H as [k H].
  pose proof (buildPass_edgeMade a emptyState) as Hmade. cbv zeta in Hmade.
  apply Hmade in H. clear Hmade.
  destruct (buildPass_WF a emptyState) as [[Hnd Hid] _ _ _].
  pose proof (buildPass_index a emptyState) as Hidx.
  destruct H as [[Hi _] | [(node & He & Hin & Hget & Hcaller)
                          | [[Hx _] | [[Hx _] | (node & He & _)]]]];
    try congruence; [| rewrite He in Ht; discriminate].
  apply findCallerNode_in_spec in Hcaller.
  destruct Hcaller as (Hcin & caller & Hcget & Hcty).
  destruct (JsMap.get (n_filePath node) (fileToNodes (fst (buildPass a emptyState))))
    as [ids |] eqn:Hids; [| destruct Hin].
  cbn [orEmpty] in Hin, Hcin.
  destruct (Hidx _ _ _ Hids Hin) as (n1 & Hn1 & Hp1 & Hm1).
  destruct (Hidx _ _ _ Hids Hcin) as (n2 & Hn2 & Hp2 & _).
  assert (n1 = node) by congruence. assert (n2 = caller) by congruence. subst n1 n2.
  exists caller, node.
  apply get_In in Hget. apply get_In in Hcget.
  repeat split; try assumption.
  - simpl. apply In_values. eauto.
  - simpl. apply In_values. eauto.
  - now apply Hid.
  - now apply Hid.
Qed.

(** The witness of [call_edges_link_function_to_declaration]. *)
Lemma call_edges_link_function_to_declaration_witness :
  exists caller callee,
    In caller (nodes (builtGraph callFacts)) /\ In callee (nodes (builtGraph callFacts))
    /\ caller.(n_id) = "function:/ws/m.ts:main"
    /\ callee.(n_id) = "function:/ws/m.ts:helper"
    /\ caller.(n_type) = NodeFunction
    /\ callee.(n_type) <> NodeMethod
    /\ caller.(n_filePath) = callee.(n_filePath).
Proof.
  apply (call_edges_link_function_to_declaration
           callFacts (callEdge "function:/ws/m.ts:main" "function:/ws/m.ts:helper")).
  - vm_compute. left. reflexivity.
  - reflexivity.
Defined.

Lemma edgeMade_id N F e : edgeMade N F e -> e.(e_id) = builtEdgeId e.
Proof.
  unfold builtEdgeId.
  intros [[Ht Hi] | [(node & He & _) | [[Ht Hi] | [[Ht Hi] | (node & He & _)]]]].
  - now rewrite Ht.
  - rewrite He. reflexivity.
  - now rewrite Ht.
  - now rewrite Ht.
  - rewrite He. reflexivity.
Qed.

(** X10.  A built graph has at most one edge of a given kind between a
    given source and a given target: a second import, call, inheritance
    or containment with the same endpoints adds nothing, and the first
    edge (with its label) stays. *)
Theorem one_edge_per_kind_and_endpoints (a : AnalysisResult) (e1 e2 : GraphEdge) :
  In e1 (edges (builtGraph a)) -> In e2 (edges (builtGraph a)) ->
  e1.(e_type) = e2.(e_type) -> e1.(e_source) = e2.(e_source) ->
  e1.(e_target) = e2.(e_target) ->
  e1 = e2.
Proof.
  intros H1 H2 Ht Hs Hg. simpl in H1, H2.
  apply In_values in H1. destruct H1 as [k1 H1].
  apply In_values in H2. destruct H2 as [k2 H2].
  pose proof (buildPass_edgeMade a emptyState) as Hmade. cbv zeta in Hmade.
  destruct (buildPass_WF a emptyState) as [_ [Hnd Hid] _ _].
  assert (E1 : k1 = builtEdgeId e1).
  { rewrite <- (Hid k1 e1 H1). eapply edgeMade_id. eapply Hmade; eauto. }
  assert (E2 : k2 = builtEdgeId e2).
  { rewrite <- (Hid k2 e2 H2). eapply edgeMade_id. eapply Hmade; eauto. }
  assert (E : k1 = k2).
  { rewrite E1, E2. unfold builtEdgeId. now rewrite Ht, Hs, Hg. }
  rewrite <- E in H2.
  apply (In_get _ _ _ Hnd) in H1. apply (In_get _ _ _ Hnd) in H2. congruence.
Qed.

(** The witness of [one_edge_per_kind_and_endpoints]. *)
Lemma one_edge_per_kind_and_endpoints_witness :
  callEdge "function:/ws/m.ts:main" "function:/ws/m.ts:helper"
  = callEdge "function:/ws/m.ts:main" "function:/ws/m.ts:helper".
Proof.
  apply (one_edge_per_kind_and_endpoints callFacts).
  - vm_compute. left. reflexivity.
  - vm_compute. left. reflexivity.
  - reflexivity.
  - reflexivity.
  - reflexivity.
Defined.

(** ** More on the Context Filter *)

Lemma built_findNode_file a f :
  In f a.(files) ->
  findNode (builtGraph a) ("file:" ++ f.(f_path)) = Some (fileNode f.(f_path)).
Proof.
  intros Hf.
  apply (findNode_unique (builtGraph a) (fileNode (f_path f)));
    [apply builtGraph_ids_NoDup | now apply built_file_node].
Qed.

Lemma relatedSet_file_closed g a h p fnode n :
  In ("file:" ++ p) (seeds g a h) ->
  findNode g ("file:" ++ p) = Some fnode -> fnode.(n_type) = NodeFile ->
  fnode.(n_filePath) = p ->
  In n g.(nodes) -> n.(n_filePath) = p ->
  In n (nodes (filterGraphByLLMContext g a h)).
Proof.
  intros Hseed Hfind Hty Hpath Hn Hp. unfold filterGraphByLLMContext. simpl.
  apply filter_In. split; [exact Hn |]. apply set_has_In. unfold relatedSet.
  destruct (seeds g a h) as [| s0 rest] eqn:Hs; [destruct Hseed |].
  cbn [length Nat.ltb Nat.leb]. rewrite <- Hs in *.
  apply fileClosure_spec.
  assert (Hexp : In ("file:" ++ p) (expand g (seeds g a h))).
  { destruct (expand_spec g (seeds g a h)) as (_ & _ & Hincl). now apply Hincl. }
  destruct (String.eqb_spec (n_id n) ("file:" ++ p)) as [E | Hne].
  - left. now rewrite E.
  - right. exists ("file:" ++ p). split; [exact Hexp |].
    exists fnode, n. repeat split; auto. congruence.
Qed.

(** X11.  A target-file hint that resolves keeps the whole file: every
    node of the built graph whose file path is the resolved path -- the
    file node and the functions, classes and methods declared in it -- is
    in the result of [extractGraphData]. *)
Theorem target_file_keeps_whole_file (a : AnalysisResult) (st0 : ExtractorState)
        (h : Hints) (t p : string) (n : GraphNode) :
  targetFile h = Some t -> Str.truthy t = true ->
  findTargetFilePath t a.(files) = Some p -> Str.truthy p = true ->
  In n (nodes (builtGraph a)) -> n.(n_filePath) = p ->
  In n (nodes (fst (extractGraphData a h st0))).
Proof.
  intros Ht Htr Hfind Hp Hn Hpath.
  unfold extractGraphData. unfold truthyString at 1. rewrite Ht, Htr. cbn [orb fst].
  change (graphOf (fst (buildPass a st0))) with (builtGraph a).
  destruct (findTargetFilePath_known t (files a) p Hfind) as (f & Hf & Hfp & _).
  apply (relatedSet_file_closed (builtGraph a) a h p (fileNode p)); auto.
  - unfold seeds.
    apply seedRelatedClasses_grows, seedRelatedFunctions_grows, seedRelatedFiles_grows.
    unfold seedTargetFile, resolveFile. rewrite Ht, Htr, Hfind, Hp. apply set_add_new.
  - rewrite <- Hfp. now apply built_findNode_file.
Qed.

(** The witness of [target_file_keeps_whole_file]: the hint [m.ts] keeps
    the method of the class declared in [/ws/m.ts]. *)
Lemma target_file_keeps_whole_file_witness :
  In (methodNode (mkMethod "run" "/ws/m.ts" 10 3 true false false [] None)
                 (mkClass "K" "/ws/m.ts" 9 1 false None []
                          [mkMethod "run" "/ws/m.ts" 10 3 true false false [] None]))
     (nodes (fst (extractGraphData callFacts (mkHints (Some "m.ts") None None None None)
                                   emptyState))).
Proof.
  apply (target_file_keeps_whole_file
           callFacts emptyState (mkHints (Some "m.ts") None None None None)
           "m.ts" "/ws/m.ts").
  - reflexivity.
  - reflexivity.
  - vm_compute. reflexivity.
  - reflexivity.
  - vm_compute. do 4 right. left. reflexivity.
  - reflexivity.
Defined.

Lemma fold_left_hits {B : Type} (step : list string -> B -> list string)
      (l : list B) (x : B) (y : string) :
  (forall s b, incl s (step s b)) -> In x l -> (forall s, In y (step s x)) ->
  forall s0, In y (fold_left step l s0).
Proof.
  intros Hmono Hin Hhit. induction l as [| b l IH]; intros s0; [destruct Hin |].
  simpl. destruct Hin as [-> | Hin]; [| now apply IH].
  apply (fold_left_grows step l Hmono). apply Hhit.
Qed.

Lemma classStep_grows g a cls s :
  incl s
       (if truthyString cls.(h_filePath) then
          match resolveFile (match cls.(h_filePath) with Some p => p | None => "" end)
                            a.(files) with
          | Some p =>
              let classNodeId := "class:" ++ p ++ ":" ++ cls.(h_name) in
              if hasNode g classNodeId then
                fold_left
                  (fun s analysisClass =>
                     if (analysisClass.(c_filePath) =? p)
                        && (analysisClass.(c_name) =? cls.(h_name))
                     then addMethods cls.(h_name) analysisClass.(c_methods) s
                     else s)
                  a.(classes)
                  (JsSet.add ("file:" ++ p) (JsSet.add classNodeId s))
              else s
          | None => s
          end
        else
          fold_left
            (fun s analysisClass =>
               if analysisClass.(c_name) =? cls.(h_name) then
                 addMethods cls.(h_name) analysisClass.(c_methods)
                   (JsSet.add ("file:" ++ analysisClass.(c_filePath))
                      (JsSet.add ("class:" ++ analysisClass.(c_filePath) ++ ":"
                                           ++ analysisClass.(c_name)) s))
               else s)
            a.(classes) s).
Proof.
  destruct (truthyString (h_filePath cls)).
  - destruct (resolveFile _ (files a)); [| apply incl_refl].
    cbv zeta. destruct (hasNode g _); [| apply incl_refl].
    eapply incl_tran; [apply set_add_incl |].
    eapply incl_tran; [apply set_add_incl |].
    apply fold_left_grows. intros s'' c.
    destruct ((c_filePath c =? s0) && (c_name c =? h_name cls));
      [apply addMethods_grows | apply incl_refl].
  - apply fold_left_grows. intros s'' c.
    destruct (c_name c =? h_name cls); [| apply incl_refl].
    eapply incl_tran; [apply set_add_incl |].
    eapply incl_tran; [apply set_add_incl |]. apply addMethods_grows.
Qed.

(** X12.  A class hint without a file path keeps, for every listed class
    of that name, the class node, the file node of its file and the nodes
    of all its methods, whenever the graph has nodes with those ids. *)
Theorem class_hint_keeps_class_and_methods (g : GraphData) (a : AnalysisResult)
        (h : Hints) (hints : list NameHint) (hint : NameHint) (cls : ClassInfo)
        (n : GraphNode) :
  relatedClasses h = Some hints -> In hint hints ->
  truthyString hint.(h_filePath) = false ->
  In cls a.(classes) -> cls.(c_name) = hint.(h_name) ->
  In n g.(nodes) ->
  (n.(n_id) = "class:" ++ cls.(c_filePath) ++ ":" ++ cls.(c_name)
   \/ n.(n_id) = "file:" ++ cls.(c_filePath)
   \/ exists m, In m cls.(c_methods)
                /\ n.(n_id) = "method:" ++ m.(m_filePath) ++ ":" ++ cls.(c_name) ++ "."
                                        ++ m.(m_name)) ->
  In n (nodes (filterGraphByLLMContext g a h)).
Proof.
  intros Hh Hin Hfalsy Hcls Hname Hn Hid.
  unfold filterGraphByLLMContext. simpl.
  apply filter_In. split; [exact Hn |]. apply set_has_In. apply seed_in_relatedSet.
  unfold seeds, seedRelatedClasses. rewrite Hh. cbn [nonEmptyArray].
  apply fold_left_hits with (x := hint); [intros s b; apply classStep_grows | exact Hin |].
  intros s. rewrite Hfalsy.
  apply fold_left_hits with (x := cls).
  - intros s' c. destruct (c_name c =? h_name hint); [| apply incl_refl].
    eapply incl_tran; [apply set_add_incl |].
    eapply incl_tran; [apply set_add_incl |]. apply addMethods_grows.
  - exact Hcls.
  - intros s'. rewrite Hname, String.eqb_refl.
    destruct Hid as [E | [E | (m & Hm & E)]]; rewrite E, ?Hname.
    + apply addMethods_grows. apply set_add_keep. apply set_add_new.
    + apply addMethods_grows. apply set_add_new.
    + unfold addMethods. apply fold_left_hits with (x := m).
      * intros s'' b. apply set_add_incl.
      * exact Hm.
      * intros s''. apply set_add_new.
Qed.

(** The witness of [class_hint_keeps_class_and_methods]. *)
Lemma class_hint_keeps_class_and_methods_witness :
  In (methodNode (mkMethod "run" "/ws/m.ts" 10 3 true false false [] None)
                 (mkClass "K" "/ws/m.ts" 9 1 false None []
                          [mkMethod "run" "/ws/m.ts" 10 3 true false false [] None]))
     (nodes (filterGraphByLLMContext (builtGraph callFacts) callFacts classHint)).
Proof.
  apply (class_hint_keeps_class_and_methods
           (builtGraph callFacts) callFacts classHint
           [mkHint "K" None] (mkHint "K" None)
           (mkClass "K" "/ws/m.ts" 9 1 false None []
                    [mkMethod "run" "/ws/m.ts" 10 3 true false false [] None])).
  - reflexivity.
  - left. reflexivity.
  - reflexivity.
  - left. reflexivity.
  - reflexivity.
  - vm_compute. do 4 right. left. reflexivity.
  - right. right.
    exists (mkMethod "run" "/ws/m.ts" 10 3 true false false [] None).
    split; [left; reflexivity | reflexivity].
Defined.

(** ** The traversal follows every edge, in both directions *)

Section TraversalEdges.
Variable g : GraphData.
Variable seedIds : list string.

Lemma reach_adds P other fr :
  In other P \/ In other (nodesToProcess (reach g P other fr)).
Proof.
  unfold reach. destruct (JsSet.has P other) eqn:Hp; cbn [negb].
  - left. now apply set_has_In.
  - right. destruct (findNode g other) as [node |]; cbn [nodesToProcess].
    + destruct (negb (JsSet.has P ("file:" ++ n_filePath node))); cbn [nodesToProcess].
      * apply set_add_keep, set_add_new.
      * apply set_add_new.
    + apply set_add_new.
Qed.

Lemma scanEdge_adds P current fr e y :
  In e g.(edges) ->
  (e.(e_source) = current /\ e.(e_target) = y)
  \/ (e.(e_target) = current /\ e.(e_source) = y) ->
  In y P \/ In y (nodesToProcess (scanEdge g P current fr e)).
Proof.
  intros He Hend. destruct (universe_edge g seedIds e He) as [Hs Ht].
  unfold scanEdge. destruct Hend as [[<- <-] | [<- <-]].
  - rewrite String.eqb_refl.
    destruct (reach_adds P (e_target e) fr) as [H | H]; [now left |].
    right.
    destruct (e_target e =? e_source e); [| exact H].
    destruct (reach_scanned g seedIds P (e_source e) (reach g P (e_target e) fr) Hs)
      as (Q & _). now apply Q.
  - rewrite String.eqb_refl. apply reach_adds.
Qed.

Lemma scan_adds P current y : forall l fr e,
  incl l g.(edges) -> In e l ->
  (e.(e_source) = current /\ e.(e_target) = y)
  \/ (e.(e_target) = current /\ e.(e_source) = y) ->
  In y P \/ In y (nodesToProcess (fold_left (scanEdge g P current) l fr)).
Proof.
  induction l as [| e0 l IH]; intros fr e Hl Hin Hend; [destruct Hin |].
  simpl. destruct Hin as [-> | Hin].
  - destruct (scanEdge_adds P current fr e y) as [H | H]; auto.
    { apply Hl. now left. }
    right.
    assert (Hsc : scanned (universe g seedIds) P (scanEdge g P current fr e)
                          (fold_left (scanEdge g P current) l (scanEdge g P current fr e))).
    { apply (fold_left_invariant
               (fun fr' => scanned (universe g seedIds) P (scanEdge g P current fr e) fr'));
        [apply scanned_refl |].
      intros fr' e' He' Hfr'. eapply scanned_trans; [exact Hfr' |].
      apply scanEdge_scanned. apply Hl. now right. }
    destruct Hsc as (Q & _). now apply Q.
  - apply (IH _ e); auto. intros x Hx. apply Hl. now right.
Qed.

(** One turn of the loop keeps the invariant about neighbours. *)
Lemma traverse_step_neighbours fr P current rest :
  TraverseInv g (universe g seedIds) fr P ->
  neighboursQueued g fr P ->
  fr.(nodesToProcess) = current :: rest ->
  let q := JsSet.delete current fr.(nodesToProcess) in
  let P' := JsSet.add current P in
  let fr1 := fold_left (scanEdge g P' current) g.(edges)
                       (mkFrontier q (JsSet.add current fr.(relatedNodeIds))) in
  let fr2 :=
    match findNode g current with
    | Some currentNode =>
        match currentNode.(n_parentId) with
        | Some parentId =>
            if Str.truthy parentId && negb (JsSet.has P' parentId)
            then mkFrontier (JsSet.add parentId fr1.(nodesToProcess)) fr1.(relatedNodeIds)
            else fr1
        | None => fr1
        end
    | None => fr1
    end in
  neighboursQueued g fr2 P'.
Proof.
  intros Hinv Hnq Hq q P' fr1 fr2.
  assert (Hq12 : incl fr1.(nodesToProcess) fr2.(nodesToProcess)).
  { unfold fr2. destruct (findNode g current) as [n |]; [| apply incl_refl].
    destruct (n_parentId n) as [p |]; [| apply incl_refl].
    destruct (Str.truthy p && negb (JsSet.has P' p)); [| apply incl_refl].
    intros x. apply set_add_keep. }
  destruct (scan_scanned g seedIds P' current
              (mkFrontier q (JsSet.add current fr.(relatedNodeIds)))) as (Q1 & _).
  fold fr1 in Q1. cbn [nodesToProcess] in Q1.
  intros e x y He Hend Hx. unfold P' in Hx. apply set_add_In in Hx.
  destruct Hx as [-> | Hx].
  - destruct (scan_adds P' current y g.(edges)
                (mkFrontier q (JsSet.add current fr.(relatedNodeIds))) e
                (incl_refl _) He Hend) as [H | H]; [now left |].
    right. apply Hq12. exact H.
  - destruct (Hnq e x y He Hend Hx) as [H | H].
    + left. unfold P'. now apply set_add_keep.
    + destruct (String.eqb_spec y current) as [-> | Hne].
      * left. unfold P'. apply set_add_new.
      * right. apply Hq12, Q1. unfold q. apply set_delete_In. now split.
Qed.

Lemma traverse_edgeClosed : forall fuel fr P related,
  TraverseInv g (universe g seedIds) fr P ->
  neighboursQueued g fr P ->
  traverse fuel g fr P = Some related ->
  edgeClosed g related.
Proof.
  induction fuel as [| fuel IH]; intros fr P related Hinv Hnq Hrun.
  - simpl in Hrun. destruct (nodesToProcess fr) as [| current rest] eqn:Hq; [| discriminate].
    injection Hrun as <-.
    assert (Hall : forall x, In x (relatedNodeIds fr) <-> In x P).
    { intros x. split; [| apply (ti_processed _ _ _ _ Hinv)].
      intros Hx. destruct (ti_related _ _ _ _ Hinv x Hx) as [H | H]; [exact H |].
      rewrite Hq in H. destruct H. }
    intros e He. rewrite !Hall. split; intros Hx.
    + destruct (Hnq e (e_source e) (e_target e) He) as [H | H]; auto.
      rewrite Hq in H. destruct H.
    + destruct (Hnq e (e_target e) (e_source e) He) as [H | H]; auto.
      rewrite Hq in H. destruct H.
  - destruct (nodesToProcess fr) as [| current rest] eqn:Hq.
    + simpl in Hrun. rewrite Hq in Hrun. injection Hrun as <-.
      assert (Hall : forall x, In x (relatedNodeIds fr) <-> In x P).
      { intros x. split; [| apply (ti_processed _ _ _ _ Hinv)].
        intros Hx. destruct (ti_related _ _ _ _ Hinv x Hx) as [H | H]; [exact H |].
        rewrite Hq in H. destruct H. }
      intros e He. rewrite !Hall. split; intros Hx.
      * destruct (Hnq e (e_source e) (e_target e) He) as [H | H]; auto.
        rewrite Hq in H. destruct H.
      * destruct (Hnq e (e_target e) (e_source e) He) as [H | H]; auto.
        rewrite Hq in H. destruct H.
    + assert (HcurP : ~ In current P).
      { apply (ti_fresh _ _ _ _ Hinv). rewrite Hq. now left. }
      destruct (traverse_step_inv g seedIds fr P current rest Hinv Hq) as [Hinv' _].
      pose proof (traverse_step_neighbours fr P current rest Hinv Hnq Hq) as Hnq'.
      cbv zeta in Hinv', Hnq'.
      cbn [traverse] in Hrun. rewrite Hq in Hrun.
      destruct (JsSet.has P current) eqn:E; [apply set_has_In in E; contradiction |].
      rewrite <- Hq in Hrun.
      exact (IH _ _ related Hinv' Hnq' Hrun).
Qed.

Lemma expand_edgeClosed : edgeClosed g (expand g seedIds).
Proof.
  destruct (expand_spec g seedIds) as ((related & Hrun & ->) & _ & _).
  apply (traverse_edgeClosed (S (length (universe g seedIds)))
                             (mkFrontier seedIds seedIds) [] related); [| | exact Hrun].
  - constructor; cbn [nodesToProcess relatedNodeIds].
    + intros x H. now right.
    + intros x [].
    + intros x n p [].
    + constructor.
    + intros x [].
    + intros x H. now apply universe_seed.
    + intros x _ [].
  - intros e x y _ _ [].
Qed.

End TraversalEdges.

(** X13.  The traversal of the Context Filter follows every edge in both
    directions: an edge of the graph with one endpoint among the ids the
    traversal reaches has the other endpoint among them too, and the
    filtered graph keeps that edge. *)
Theorem traversal_keeps_incident_edges (g : GraphData) (a : AnalysisResult) (h : Hints)
        (e : GraphEdge) :
  In e g.(edges) ->
  In e.(e_source) (expand g (seeds g a h)) \/ In e.(e_target) (expand g (seeds g a h)) ->
  In e.(e_source) (expand g (seeds g a h))
  /\ In e.(e_target) (expand g (seeds g a h))
  /\ In e (edges (filterGraphByLLMContext g a h)).
Proof.
  intros He Hend.
  pose proof (expand_edgeClosed g (seeds g a h) e He) as Hc.
  assert (Hboth : In (e_source e) (expand g (seeds g a h))
                  /\ In (e_target e) (expand g (seeds g a h))).
  { destruct Hend as [H | H]; split; auto; now apply Hc. }
  destruct Hboth as [Hs Ht]. split; [exact Hs |]. split; [exact Ht |].
  unfold filterGraphByLLMContext. simpl. apply filter_In. split; [exact He |].
  assert (Hrel : forall x, In x (expand g (seeds g a h)) -> In x (relatedSet g a h)).
  { intros x Hx. unfold relatedSet.
    destruct (seeds g a h) as [| s0 rest] eqn:Hseeds.
    - vm_compute in Hx. destruct Hx.
    - cbn [length Nat.ltb Nat.leb]. apply fileClosure_spec. now left. }
  apply andb_true_iff. split; apply set_has_In; now apply Hrel.
Qed.

(** The witness of [traversal_keeps_incident_edges]: from the seed
    [main], the call edge to [helper] is followed and kept. *)
Lemma traversal_keeps_incident_edges_witness :
  In "function:/ws/m.ts:main"
     (expand (builtGraph callFacts)
             (seeds (builtGraph callFacts) callFacts
                    (mkHints None None None None (Some ["function:/ws/m.ts:main"]))))
  /\ In "function:/ws/m.ts:helper"
        (expand (builtGraph callFacts)
                (seeds (builtGraph callFacts) callFacts
                       (mkHints None None None None (Some ["function:/ws/m.ts:main"]))))
  /\ In (callEdge "function:/ws/m.ts:main" "function:/ws/m.ts:helper")
        (edges (filterGraphByLLMContext
                  (builtGraph callFacts) callFacts
                  (mkHints None None None None (Some ["function:/ws/m.ts:main"])))).
Proof.
  apply (traversal_keeps_incident_edges
           (builtGraph callFacts) callFacts
           (mkHints None None None None (Some ["function:/ws/m.ts:main"]))
           (callEdge "function:/ws/m.ts:main" "function:/ws/m.ts:helper")).
  - vm_compute. left. reflexivity.
  - left. vm_compute. left. reflexivity.
Defined.

(** ** More on Direct Ingestion *)

Lemma existsb_ingested (ns : list SpecNode) (k : string) :
  existsb (fun n => n.(n_id) =? k) (map ingestNode ns)
  = existsb (fun n => n.(sn_id) =? k) ns.
Proof.
  induction ns as [| n ns IH]; [reflexivity |]. simpl. now rewrite IH.
Qed.

Lemma ingestEdges_quiet (ns : list SpecNode) : forall es index,
  flat_map snd (ingestEdges (map ingestNode ns) index es) = []
  <-> forall e, In e es -> isDangling ns e = false.
Proof.
  induction es as [| e es IH]; intros index; simpl.
  - split; [intros _ e [] | reflexivity].
  - rewrite !existsb_ingested. split.
    + intros H. apply app_eq_nil in H. destruct H as [H1 H2].
      intros e' [<- | Hin]; [| now apply (proj1 (IH (S index)))].
      unfold isDangling.
      destruct (existsb (fun n => sn_id n =? se_source e) ns); [| discriminate].
      destruct (existsb (fun n => sn_id n =? se_target e) ns); [reflexivity | discriminate].
    + intros H.
      assert (He : isDangling ns e = false) by (apply H; now left).
      unfold isDangling in He. apply orb_false_iff in He. destruct He as [Hs Ht].
      apply negb_false_iff in Hs, Ht. rewrite Hs, Ht. simpl.
      apply IH. intros e' Hin. apply H. now right.
Qed.

(** X14.  Direct ingestion warns exactly about dangling edges: it emits
    no diagnostic if and only if both endpoints of every given edge are
    ids of given nodes. *)
Theorem ingestion_warns_iff_dangling (ns : list SpecNode) (es : list SpecEdge) :
  snd (createGraphFromLLMSpec ns es) = []
  <-> forall e, In e es -> isDangling ns e = false.
Proof. unfold createGraphFromLLMSpec. simpl. apply ingestEdges_quiet. Qed.

Lemma ofNat_inj n m : Str.ofNat n = Str.ofNat m -> n = m.
Proof.
  unfold Str.ofNat. intros E. apply Unsigned.to_uint_inj.
  apply (f_equal NilEmpty.uint_of_string) in E. rewrite !NilEmpty.usu in E.
  now injection E.
Qed.

Lemma ingestEdges_ids G : forall es index,
  map e_id (map fst (ingestEdges G index es))
  = map (fun i => "edge-" ++ Str.ofNat i) (seq index (length es)).
Proof.
  induction es as [| e es IH]; intros index; [reflexivity |].
  simpl. now rewrite IH.
Qed.

Lemma NoDup_map_injective {A B : Type} (f : A -> B) (l : list A) :
  (forall x y, f x = f y -> x = y) -> NoDup l -> NoDup (map f l).
Proof.
  intros Hinj Hnd. induction Hnd as [| x l Hx Hnd IH]; simpl; constructor; [| exact IH].
  intros Hin. apply in_map_iff in Hin. destruct Hin as (y & E & Hy).
  apply Hinj in E. now subst y.
Qed.

(** X15.  Direct ingestion gives the edges pairwise distinct ids
    ([edge-0], [edge-1], ...), also when the caller lists the same edge
    more than once. *)
Theorem ingested_edge_ids_are_distinct (ns : list SpecNode) (es : list SpecEdge) :
  NoDup (map e_id (edges (fst (createGraphFromLLMSpec ns es)))).
Proof.
  unfold createGraphFromLLMSpec. simpl. rewrite ingestEdges_ids.
  apply NoDup_map_injective; [| apply seq_NoDup].
  intros x y E. apply append_inj_l in E. now apply ofNat_inj.
Qed.

Lemma beforeColon_field path rest :
  Str.colonFree path = true -> Str.beforeColon (path ++ ":" ++ rest) = path.
Proof.
  induction path as [| c path IH]; intros H; [reflexivity |].
  simpl in H. apply andb_true_iff in H. destruct H as [Hc Hp].
  specialize (IH Hp). simpl in IH |- *.
  destruct (Ascii.eqb c ":"); [discriminate |]. now rewrite IH.
Qed.

Lemma beforeColon_colonFree path :
  Str.colonFree path = true -> Str.beforeColon path = path.
Proof.
  induction path as [| c path IH]; intros H; [reflexivity |].
  simpl in H. apply andb_true_iff in H. destruct H as [Hc Hp].
  simpl. destruct (Ascii.eqb c ":"); [discriminate |]. now rewrite IH.
Qed.

Lemma stripKindPrefix_kind kind rest :
  In kind ["file"; "function"; "class"; "method"] ->
  stripKindPrefix (kind ++ ":" ++ rest) = rest.
Proof.
  intros [<- | [<- | [<- | [<- | []]]]]; reflexivity.
Qed.

(** X16.  When the caller gives no file path, direct ingestion derives
    it from the id: for an id of the form the builder uses,
    [kind:path] or [kind:path:name] with kind file, function, class or
    method, the derived file path is [path], provided [path] holds no
    colon. *)
Theorem ingestion_derives_file_path (kind path name label tag : string)
        (fp : option string) (line col : option nat) :
  In kind ["file"; "function"; "class"; "method"] ->
  Str.colonFree path = true ->
  truthyString fp = false ->
  n_filePath (ingestNode (mkSpecNode (kind ++ ":" ++ path) label tag fp line col)) = path
  /\ n_filePath (ingestNode (mkSpecNode (kind ++ ":" ++ path ++ ":" ++ name)
                                        label tag fp line col)) = path.
Proof.
  intros Hk Hp Hfp. unfold ingestNode. cbn [sn_filePath sn_id n_filePath].
  rewrite Hfp, !stripKindPrefix_kind by exact Hk.
  split; [now apply beforeColon_colonFree | now apply beforeColon_field].
Qed.

(** The witness of [ingestion_derives_file_path]. *)
Lemma ingestion_derives_file_path_witness :
  n_filePath (ingestNode (mkSpecNode ("function" ++ ":" ++ "/ws/m.ts") "main" "function"
                                     None None None)) = "/ws/m.ts"
  /\ n_filePath (ingestNode (mkSpecNode ("function" ++ ":" ++ "/ws/m.ts" ++ ":" ++ "main")
                                        "main" "function" None None None)) = "/ws/m.ts".
Proof.
  apply (ingestion_derives_file_path "function" "/ws/m.ts" "main" "main" "function"
                                     None None None).
  - right. left. reflexivity.
  - reflexivity.
  - reflexivity.
Defined.

(** ** From a graph to the D3 view *)

Lemma nodeTag_round tag :
  nodeTypeValue (nodeTypeOfTag tag)
  = if existsb (String.eqb tag) recognizedNodeTags then tag else "file".
Proof.
  unfold nodeTypeOfTag, recognizedNodeTags. cbn [existsb].
  destruct (String.eqb_spec tag "file") as [-> | ?]; [reflexivity |].
  destruct (String.eqb_spec tag "function") as [-> | ?]; [reflexivity |].
  destruct (String.eqb_spec tag "class") as [-> | ?]; [reflexivity |].
  destruct (String.eqb_spec tag "method") as [-> | ?]; [reflexivity |].
  destruct (String.eqb_spec tag "interface") as [-> | ?]; [reflexivity |].
  destruct (String.eqb_spec tag "type") as [-> | ?]; [reflexivity |].
  destruct (String.eqb_spec tag "variable") as [-> | ?]; reflexivity.
Qed.

Lemma edgeTag_round tag :
  edgeTypeValue (edgeTypeOfTag tag)
  = if existsb (String.eqb tag) recognizedEdgeTags then tag else "reference".
Proof.
  unfold edgeTypeOfTag, recognizedEdgeTags. cbn [existsb].
  destruct (String.eqb_spec tag "import") as [-> | ?]; [reflexivity |].
  destruct (String.eqb_spec tag "export") as [-> | ?]; [reflexivity |].
  destruct (String.eqb_spec tag "call") as [-> | ?]; [reflexivity |].
  destruct (String.eqb_spec tag "extends") as [-> | ?]; [reflexivity |].
  destruct (String.eqb_spec tag "implements") as [-> | ?]; [reflexivity |].
  destruct (String.eqb_spec tag "reference") as [-> | ?]; reflexivity.
Qed.

Lemma ingestEdges_map {B : Type} (f : GraphEdge -> B) (f' : SpecEdge -> B) G :
  (forall index e, f (fst (ingestEdge G index e)) = f' e) ->
  forall es index, map f (map fst (ingestEdges G index es)) = map f' es.
Proof.
  intros Hf. induction es as [| e es IH]; intros index; [reflexivity |].
  cbn [ingestEdges map]. now rewrite Hf, IH.
Qed.

(** X17.  What the view shows for a graph given by the caller
    ([createGraphFromLLMSpec], then [transformToD3Format]): the nodes and
    links come in the given order with the given ids and endpoints; a
    recognised kind tag is shown as given, an unrecognised node tag is
    shown as [file] and an unrecognised edge tag as [reference]. *)
Theorem spec_to_d3_view (ns : list SpecNode) (es : list SpecEdge) :
  let d := transformToD3Format (fst (createGraphFromLLMSpec ns es)) in
  map d_id d.(d3nodes) = map sn_id ns
  /\ map d_type d.(d3nodes)
     = map (fun n => if existsb (String.eqb n.(sn_type)) recognizedNodeTags
                     then n.(sn_type) else "file") ns
  /\ map (fun l => (l.(l_source), l.(l_target))) d.(d3links)
     = map (fun e => (e.(se_source), e.(se_target))) es
  /\ map l_type d.(d3links)
     = map (fun e => if existsb (String.eqb e.(se_type)) recognizedEdgeTags
                     then e.(se_type) else "reference") es.
Proof.
  cbv zeta. unfold transformToD3Format, createGraphFromLLMSpec.
  cbn [fst nodes edges d3nodes d3links].
  split; [now rewrite !map_map |]. split.
  - rewrite !map_map. apply map_ext. intros n.
    cbn [transformNode d_type ingestNode n_type]. apply nodeTag_round.
  - split.
    + rewrite (map_map transformLink).
      apply (ingestEdges_map
               (fun x => (l_source (transformLink x), l_target (transformLink x)))
               (fun e => (se_source e, se_target e))).
      reflexivity.
    + rewrite (map_map transformLink).
      apply (ingestEdges_map
               (fun x => l_type (transformLink x))
               (fun e => if existsb (String.eqb (se_type e)) recognizedEdgeTags
                         then se_type e else "reference")).
      intros index e. cbn [ingestEdge fst transformLink l_type e_type].
      apply edgeTag_round.
Qed.

Lemma extractGraphData_closed a h st0 : closedGraph (fst (extractGraphData a h st0)).
Proof.
  unfold extractGraphData.
  destruct (truthyString _ || _ || _ || _ || _); cbn [fst].
  - apply filter_closed, graphOf_closed, buildPass_WF.
  - apply graphOf_closed, buildPass_WF.
Qed.

(** X18.  The view of an extracted graph has no dangling link: after
    [extractGraphData] (filtered or not) and [transformToD3Format], the
    source and the target of every link are ids of nodes of the view. *)
Theorem d3_links_of_extracted_graph_resolve (a : AnalysisResult) (h : Hints)
        (st0 : ExtractorState) (l : D3Link) :
  let d := transformToD3Format (fst (extractGraphData a h st0)) in
  In l d.(d3links) ->
  (exists n, In n d.(d3nodes) /\ n.(d_id) = l.(l_source))
  /\ (exists n, In n d.(d3nodes) /\ n.(d_id) = l.(l_target)).
Proof.
  cbv zeta. unfold transformToD3Format. cbn [d3nodes d3links]. intros Hl.
  apply in_map_iff in Hl. destruct Hl as (e & <- & He).
  destruct (extractGraphData_closed a h st0 e He) as [Hs Ht].
  apply hasNode_In in Hs, Ht.
  destruct Hs as (ns & Hns & Es). destruct Ht as (nt & Hnt & Et).
  split.
  - exists (transformNode ns). split; [now apply in_map | exact Es].
  - exists (transformNode nt). split; [now apply in_map | exact Et].
Qed.

(** The witness of [d3_links_of_extracted_graph_resolve]. *)
Lemma d3_links_of_extracted_graph_resolve_witness :
  (exists n, In n (d3nodes (transformToD3Format
                              (fst (extractGraphData callFacts noHints emptyState))))
             /\ n.(d_id) = "function:/ws/m.ts:main")
  /\ (exists n, In n (d3nodes (transformToD3Format
                                 (fst (extractGraphData callFacts noHints emptyState))))
                /\ n.(d_id) = "function:/ws/m.ts:helper").
Proof.
  apply (d3_links_of_extracted_graph_resolve
           callFacts noHints emptyState
           (transformLink (callEdge "function:/ws/m.ts:main" "function:/ws/m.ts:helper"))).
  vm_compute. left. reflexivity.
Defined.

(** ** Resolution of import specifiers *)


Lemma normalize_absolute p :
  Path.isAbsolute p = true -> Path.isAbsolute (Path.normalize p) = true.
Proof.
  intros H. unfold Path.normalize. destruct p as [| c p]; [discriminate |].
  rewrite H. reflexivity.
Qed.

Lemma normalizePath_absolute env filePath basePath :
  Str.truthy basePath = true ->
  Path.isAbsolute (normalizePath env filePath basePath) = true.
Proof.
  intros Hb. unfold normalizePath.
  destruct (Path.isAbsolute filePath) eqn:Ha; [now apply normalize_absolute |].
  rewrite Hb. apply normalize_absolute. reflexivity.
Qed.




(** ** The Context Filter keeps only what is linked to the seeds *)

Section Linked.
Variable g : GraphData.
Variable seedIds : list string.

Lemma reach_linked P other fr :
  frontierLinked g seedIds fr -> linked g seedIds other ->
  frontierLinked g seedIds (reach g P other fr).
Proof.
  intros Hfr Ho. unfold reach. destruct (negb (JsSet.has P other)); [| exact Hfr].
  assert (Hbase : frontierLinked g seedIds
                    (mkFrontier (JsSet.add other (nodesToProcess fr))
                                (JsSet.add other (relatedNodeIds fr)))).
  { intros x [H | H]; cbn [nodesToProcess relatedNodeIds] in H;
      apply set_add_In in H; destruct H as [-> | H]; auto. }
  destruct (findNode g other) as [node |] eqn:Hf; [| exact Hbase].
  destruct (negb (JsSet.has P ("file:" ++ n_filePath node))); [| exact Hbase].
  intros x [H | H]; cbn [nodesToProcess relatedNodeIds] in H.
  - apply set_add_In in H. destruct H as [-> | H].
    + eapply linked_file; eauto.
    + apply Hbase. now left.
  - apply Hbase. now right.
Qed.

Lemma scanEdge_linked P current fr e :
  In e g.(edges) -> linked g seedIds current ->
  frontierLinked g seedIds fr -> frontierLinked g seedIds (scanEdge g P current fr e).
Proof.
  intros He Hc Hfr. unfold scanEdge.
  assert (H1 : frontierLinked g seedIds
                 (if e_source e =? current then reach g P (e_target e) fr else fr)).
  { destruct (String.eqb_spec (e_source e) current) as [E | _]; [| exact Hfr].
    apply reach_linked; [exact Hfr |]. apply linked_target; [exact He | now rewrite E]. }
  destruct (String.eqb_spec (e_target e) current) as [E | _]; [| exact H1].
  apply reach_linked; [exact H1 |]. apply linked_source; [exact He | now rewrite E].
Qed.

Lemma traverse_linked : forall fuel fr P related,
  frontierLinked g seedIds fr ->
  traverse fuel g fr P = Some related ->
  forall x, In x related -> linked g seedIds x.
Proof.
  induction fuel as [| fuel IH]; intros fr P related Hfr Hrun x Hx.
  - simpl in Hrun. destruct (nodesToProcess fr); [| discriminate].
    injection Hrun as <-. apply Hfr. now right.
  - cbn [traverse] in Hrun.
    destruct (nodesToProcess fr) as [| current rest] eqn:Hq.
    + injection Hrun as <-. apply Hfr. now right.
    + assert (Hcur : linked g seedIds current).
      { apply Hfr. left. rewrite Hq. now left. }
      rewrite <- Hq in Hrun.
      destruct (JsSet.has P current).
      * eapply IH; [| exact Hrun | exact Hx].
        intros y Hy. cbn [nodesToProcess relatedNodeIds] in Hy. apply Hfr.
        destruct Hy as [Hy | Hy]; [left | now right].
        apply set_delete_In in Hy. apply Hy.
      * eapply IH; [| exact Hrun | exact Hx].
        assert (H1 : frontierLinked g seedIds
                       (fold_left (scanEdge g (JsSet.add current P) current) (edges g)
                                  (mkFrontier (JsSet.delete current (nodesToProcess fr))
                                              (JsSet.add current (relatedNodeIds fr))))).
        { apply (fold_left_invariant (frontierLinked g seedIds)).
          - intros y [Hy | Hy]; cbn [nodesToProcess relatedNodeIds] in Hy.
            + apply Hfr. left. apply set_delete_In in Hy. apply Hy.
            + apply set_add_In in Hy. destruct Hy as [-> | Hy]; [exact Hcur |].
              apply Hfr. now right.
          - intros fr' e He Hfr'. now apply scanEdge_linked. }
        destruct (findNode g current) as [n |] eqn:Hf; [| exact H1].
        destruct (n_parentId n) as [p |] eqn:Hp; [| exact H1].
        destruct (Str.truthy p && negb (JsSet.has (JsSet.add current P) p)); [| exact H1].
        intros y [Hy | Hy]; cbn [nodesToProcess relatedNodeIds] in Hy.
        -- apply set_add_In in Hy. destruct Hy as [-> | Hy].
           ++ eapply linked_parent; eauto.
           ++ apply H1. now left.
        -- apply H1. now right.
Qed.

Lemma expand_linked x : In x (expand g seedIds) -> linked g seedIds x.
Proof.
  destruct (expand_spec g seedIds) as ((related & Hrun & ->) & _ & _).
  eapply traverse_linked; [| exact Hrun].
  intros y Hy. cbn [nodesToProcess relatedNodeIds] in Hy.
  apply linked_seed. now destruct Hy.
Qed.

End Linked.

(** X22.  The Context Filter never keeps a node that is unrelated to the
    seeds: the id of every kept node is reached from a seed by following
    edges (in either direction), file links, parent links and, from a
    file node, the nodes of that file. *)
Theorem filter_keeps_only_linked_nodes (g : GraphData) (a : AnalysisResult) (h : Hints)
        (n : GraphNode) :
  In n (nodes (filterGraphByLLMContext g a h)) ->
  linked g (seeds g a h) n.(n_id).
Proof.
  unfold filterGraphByLLMContext. simpl. intros H.
  apply filter_In in H. destruct H as [Hn Hr]. apply set_has_In in Hr.
  unfold relatedSet in Hr.
  destruct (0 <? length (seeds g a h))%nat; [| now apply linked_seed].
  apply fileClosure_spec in Hr.
  destruct Hr as [Hr | (x & Hx & node & c & Hf & Hty & Hc & Hp & _ & Hid)].
  - now apply expand_linked.
  - rewrite <- Hid. eapply linked_sibling; eauto. now apply expand_linked.
Qed.

(** The witness of [filter_keeps_only_linked_nodes]. *)
Lemma filter_keeps_only_linked_nodes_witness :
  linked (builtGraph apartFacts)
         (seeds (builtGraph apartFacts) apartFacts
                (mkHints None None None None (Some ["function:/ws/p.ts:f"])))
         (n_id (fileNode "/ws/p.ts")).
Proof.
  apply (filter_keeps_only_linked_nodes
           (builtGraph apartFacts) apartFacts
           (mkHints None None None None (Some ["function:/ws/p.ts:f"]))
           (fileNode "/ws/p.ts")).
  vm_compute. left. reflexivity.
Defined.

(** ** Inheritance edges are made when the superclass is known *)

Lemma findNodeByName_in_complete name type m k n :
  In (k, n) m -> n.(n_label) = name -> n.(n_type) = type ->
  exists nodeId, findNodeByName_in name type m = Some nodeId.
Proof.
  intros Hin Hl Ht. induction m as [| [k0 n0] m IH]; [destruct Hin |].
  simpl. destruct ((n_label n0 =? name) && NodeType_eqb (n_type n0) type) eqn:E; [eauto |].
  destruct Hin as [H | Hin]; [| now apply IH].
  injection H as -> ->. rewrite Hl, Ht, String.eqb_refl in E.
  destruct type; discriminate.
Qed.

Lemma createInheritanceEdges_fixed cls s :
  nodeMap (createInheritanceEdges cls s) = nodeMap s
  /\ edgesGrow s (createInheritanceEdges cls s).
Proof.
  unfold createInheritanceEdges.
  apply (fold_left_invariant (fun s' => nodeMap s' = nodeMap s /\ edgesGrow s s')).
  - destruct (c_extends cls) as [ext |]; [| split; [reflexivity | apply edgesGrow_refl]].
    destruct (Str.truthy ext); [| split; [reflexivity | apply edgesGrow_refl]].
    destruct (findNodeByName ext NodeClass s);
      [| split; [reflexivity | apply edgesGrow_refl]].
    split; [apply addEdge_nodeMap | apply addEdge_edgesGrow].
  - intros s' name _ [HN Hg].
    destruct (findNodeByName name NodeInterface s'); [| now split].
    split; [now rewrite addEdge_nodeMap |].
    intros k e H. apply addEdge_edgesGrow. now apply Hg.
Qed.

Lemma createInheritanceEdges_adds cls s ext targetId :
  cls.(c_extends) = Some ext -> Str.truthy ext = true ->
  findNodeByName ext NodeClass s = Some targetId ->
  JsMap.has ("extends:" ++ ("class:" ++ cls.(c_filePath) ++ ":" ++ cls.(c_name))
                        ++ ":" ++ targetId)
            (edgeMap (createInheritanceEdges cls s)) = true.
Proof.
  intros Hext Ht Hfind. unfold createInheritanceEdges. rewrite Hext, Ht, Hfind.
  apply (fold_left_invariant
           (fun s' => JsMap.has ("extends:" ++ ("class:" ++ c_filePath cls ++ ":"
                                                        ++ c_name cls) ++ ":" ++ targetId)
                                (edgeMap s') = true)).
  - apply (addEdge_has
             (mkEdge ("extends:" ++ ("class:" ++ c_filePath cls ++ ":" ++ c_name cls)
                                 ++ ":" ++ targetId)
                     ("class:" ++ c_filePath cls ++ ":" ++ c_name cls) targetId
                     EdgeExtends (Some "extends") None)).
  - intros s' name _ Hs'.
    destruct (findNodeByName name NodeInterface s'); [| exact Hs'].
    eapply edgesGrow_has; [apply addEdge_edgesGrow | exact Hs'].
Qed.

Lemma buildPass_extends_key a st0 cls ext targetId :
  In cls a.(classes) -> cls.(c_extends) = Some ext -> Str.truthy ext = true ->
  findNodeByName_in ext NodeClass (nodeMap (fst (buildPass a st0))) = Some targetId ->
  JsMap.has ("extends:" ++ ("class:" ++ cls.(c_filePath) ++ ":" ++ cls.(c_name))
                        ++ ":" ++ targetId)
            (edgeMap (fst (buildPass a st0))) = true.
Proof.
  intros Hcls Hext Ht Hfind. rewrite final_nodeMap in Hfind.
  eapply edgesGrow_has; [apply (buildPass_edgeOnly a st0) |].
  unfold afterInheritance.
  apply (fold_left_reaches
           (fun s c => createInheritanceEdges c s)
           (fun s => nodeMap s = nodeMap (afterImports a))
           (fun s => JsMap.has ("extends:" ++ ("class:" ++ c_filePath cls ++ ":"
                                                        ++ c_name cls) ++ ":" ++ targetId)
                               (edgeMap s) = true)
           (classes a) cls Hcls).
  - intros s c Hs. now rewrite (proj1 (createInheritanceEdges_fixed c s)).
  - intros s Hs. apply (createInheritanceEdges_adds cls s ext targetId Hext Ht).
    unfold findNodeByName. now rewrite Hs.
  - intros s c Hs. eapply edgesGrow_has; [apply createInheritanceEdges_fixed | exact Hs].
  - apply (afterCalls_WF a).
Qed.

Lemma shaped_class_label n p className :
  shaped n -> Str.colonFree p = true -> Str.colonFree className = true ->
  n.(n_id) = "class:" ++ p ++ ":" ++ className ->
  n.(n_type) = NodeClass /\ n.(n_label) = className.
Proof.
  intros Hs Hp Hc Hid.
  destruct (shaped_class_id n p className Hs Hp Hc Hid) as [Ht Hfp].
  split; [exact Ht |].
  destruct Hs as [_ Hs]. rewrite Ht in Hs. destruct Hs as (_ & Hid' & _).
  rewrite Hid', Hfp in Hid.
  apply (append_inj_l "class:") in Hid. apply (append_inj_l p) in Hid.
  now apply (append_inj_l ":") in Hid.
Qed.

(** X19.  Completeness of the extends edges, for facts whose paths and
    names hold no colon: when a listed class extends a name and some
    listed class has that name, the built graph has an extends edge from
    the extending class to a class node labelled with that name (the
    first such node, found by name alone). *)
Theorem extends_edge_for_known_superclass (a : AnalysisResult) (cls sup : ClassInfo)
        (ext : string) :
  colonFreeFacts a = true ->
  In cls a.(classes) -> cls.(c_extends) = Some ext -> Str.truthy ext = true ->
  In sup a.(classes) -> sup.(c_name) = ext ->
  exists e target,
    In e (edges (builtGraph a))
    /\ e.(e_type) = EdgeExtends
    /\ e.(e_source) = "class:" ++ cls.(c_filePath) ++ ":" ++ cls.(c_name)
    /\ e.(e_target) = target.(n_id)
    /\ In target (nodes (builtGraph a))
    /\ target.(n_type) = NodeClass
    /\ target.(n_label) = ext.
Proof.
  intros Hcf Hcls Hext Htr Hsup Hname.
  set (st := fst (buildPass a emptyState)).
  pose proof (buildPass_shaped a emptyState Hcf) as Hshaped. fold st in Hshaped.
  destruct (buildPass_WF a emptyState) as [[Hnnd Hnid] [Hend Heid] _ _].
  fold st in Hnnd, Hnid, Hend, Heid.
  destruct (colonFreeFacts_parts a Hcf) as (_ & _ & Hcc & _).
  destruct (Hcc cls Hcls) as (Hcp & Hcn & _).
  destruct (Hcc sup Hsup) as (Hsp & Hsn & _).
  (* the superclass has a class node labelled [ext] *)
  assert (Hsupnode : exists k n, In (k, n) (nodeMap st)
                                 /\ n.(n_label) = ext /\ n.(n_type) = NodeClass).
  { pose proof (afterNodes_classes a sup Hsup) as Hhas.
    apply has_get in Hhas. destruct Hhas as [n Hget].
    assert (Hin : In ("class:" ++ c_filePath sup ++ ":" ++ c_name sup, n) (nodeMap st)).
    { unfold st. rewrite final_nodeMap. apply get_In.
      destruct (afterImports_WF a) as [_ (Hg & _)]. now apply Hg. }
    exists ("class:" ++ c_filePath sup ++ ":" ++ c_name sup), n.
    split; [exact Hin |].
    destruct (shaped_class_label n (c_filePath sup) (c_name sup)) as [Ht Hl].
    - eapply Hshaped; eauto.
    - exact Hsp.
    - exact Hsn.
    - now apply Hnid in Hin.
    - split; [congruence | exact Ht]. }
  destruct Hsupnode as (k0 & n0 & Hin0 & Hl0 & Ht0).
  destruct (findNodeByName_in_complete ext NodeClass (nodeMap st) k0 n0 Hin0 Hl0 Ht0)
    as [targetId Hfind].
  pose proof (buildPass_extends_key a emptyState cls ext targetId Hcls Hext Htr Hfind)
    as Hkey.
  fold st in Hkey.
  apply findNodeByName_in_node in Hfind. destruct Hfind as (tn & Htin & Htl & Htt).
  apply has_get in Hkey. destruct Hkey as [e Hget]. apply get_In in Hget.
  pose proof (Heid _ _ Hget) as Hid.
  pose proof (buildPass_edgeMade a emptyState) as Hmade. cbv zeta in Hmade.
  pose proof (Hmade _ _ Hget) as He.
  pose proof (buildPass_inheritanceMade a emptyState _ _ Hget) as Hinh.
  fold st in Hinh.
  destruct He as [[_ Hi] | [(node & Hc & _) | [[Hty Hi] | [[_ Hi] | (node & Hc & _)]]]].
  - rewrite Hi in Hid. simpl in Hid. discriminate.
  - rewrite Hc in Hid. simpl in Hid. discriminate.
  - unfold inheritanceMade in Hinh. rewrite Hty in Hinh.
    destruct Hinh as (cls' & target' & Hcls' & _ & Hsrc & Htin' & Htt').
    destruct (Hcc cls' Hcls') as (Hcp' & Hcn' & _).
    rewrite Hi in Hid. apply (append_inj_l "extends:") in Hid.
    pose proof (Hnid _ _ Htin') as Htid'. pose proof (Hnid _ _ Htin) as Htid.
    destruct (shaped_id_fields target' (Hshaped _ _ Htin')) as (lt' & Et' & Ct' & Nt' & Lt').
    destruct (shaped_id_fields tn (Hshaped _ _ Htin)) as (lt & Et & Ct & Nt & Lt).
    assert (Hpair : ["class"; c_filePath cls'; c_name cls'] = ["class"; c_filePath cls; c_name cls]
                    /\ lt' = lt).
    { apply joined_pair_inj; try discriminate; try assumption.
      - cbn [forallb]. now rewrite Hcp', Hcn'.
      - cbn [forallb]. now rewrite Hcp, Hcn.
      - left. reflexivity.
      - rewrite <- Et', <- Et, Htid', Htid.
        change (Str.join ":" ["class"; c_filePath cls'; c_name cls'])
          with ("class:" ++ c_filePath cls' ++ ":" ++ c_name cls').
        change (Str.join ":" ["class"; c_filePath cls; c_name cls])
          with ("class:" ++ c_filePath cls ++ ":" ++ c_name cls).
        rewrite <- Hsrc. exact Hid. }
    destruct Hpair as [Hsame Hlt]. injection Hsame as Hp' Hn'.
    exists e, tn. split; [simpl; apply In_values; eauto |].
    split; [exact Hty |]. split; [rewrite Hsrc; congruence |].
    split; [rewrite <- Htid', Et', Hlt, <- Et; reflexivity |].
    split; [simpl; apply In_values; eauto |]. now split.
  - rewrite Hi in Hid. simpl in Hid. discriminate.
  - rewrite Hc in Hid. simpl in Hid. discriminate.
Qed.

(** The witness of [extends_edge_for_known_superclass]. *)
Lemma extends_edge_for_known_superclass_witness :
  exists e target,
    In e (edges (builtGraph inheritFacts))
    /\ e.(e_type) = EdgeExtends
    /\ e.(e_source) = "class:" ++ "/ws/s.ts" ++ ":" ++ "Derived"
    /\ e.(e_target) = target.(n_id)
    /\ In target (nodes (builtGraph inheritFacts))
    /\ target.(n_type) = NodeClass
    /\ target.(n_label) = "Base".
Proof.
  assert (Hcf : colonFreeFacts inheritFacts = true) by (vm_compute; reflexivity).
  apply (extends_edge_for_known_superclass
           inheritFacts
           (mkClass "Derived" "/ws/s.ts" 4 1 true (Some "Base") ["Shape"]
                    [mkMethod "run" "/ws/s.ts" 5 3 true false false [] None])
           (mkClass "Base" "/ws/s.ts" 2 1 true None [] [])
           "Base" Hcf).
  - right. left. reflexivity.
  - reflexivity.
  - reflexivity.
  - left. reflexivity.
  - reflexivity.
Defined.

(** X21.  [normalizePath] returns an absolute path whenever the path it
    is given is absolute or a non-empty base path comes with it. *)
Theorem normalizePath_gives_absolute_path (env : Env) (filePath basePath : string) :
  Path.isAbsolute filePath = true \/ Str.truthy basePath = true ->
  Path.isAbsolute (normalizePath env filePath basePath) = true.
Proof.
  intros [Ha | Hb]; [| now apply normalizePath_absolute].
  unfold normalizePath. rewrite Ha. now apply normalize_absolute.
Qed.

(** The witness of [normalizePath_gives_absolute_path]. *)
Lemma normalizePath_gives_absolute_path_witness :
  Path.isAbsolute (normalizePath ScenarioA.env "../lib/./x" "/ws/src") = true.
Proof.
  apply (normalizePath_gives_absolute_path ScenarioA.env "../lib/./x" "/ws/src").
  right. reflexivity.
Defined.

Lemma fileStep_grows g a file s :
  incl s
       (match resolveFile file a.(files) with
        | Some p =>
            fold_left
              (fun s node => if node.(n_filePath) =? p then JsSet.add node.(n_id) s else s)
              g.(nodes) (JsSet.add ("file:" ++ p) s)
        | None => s
        end).
Proof.
  destruct (resolveFile file (files a)); [| apply incl_refl].
  eapply incl_tran; [apply set_add_incl |].
  apply fold_left_grows. intros s'' node.
  destruct (n_filePath node =? s0); [apply set_add_incl | apply incl_refl].
Qed.

(** X23.  A related-file hint that resolves keeps every node of the
    given graph whose file path is the resolved path, whether or not the
    graph has a file node for it. *)
Theorem related_file_keeps_its_nodes (g : GraphData) (a : AnalysisResult) (h : Hints)
        (hints : list string) (file p : string) (n : GraphNode) :
  relatedFiles h = Some hints -> In file hints ->
  findTargetFilePath file a.(files) = Some p -> Str.truthy p = true ->
  In n g.(nodes) -> n.(n_filePath) = p ->
  In n (nodes (filterGraphByLLMContext g a h)).
Proof.
  intros Hh Hin Hfind Hp Hn Hpath.
  unfold filterGraphByLLMContext. simpl.
  apply filter_In. split; [exact Hn |]. apply set_has_In. apply seed_in_relatedSet.
  unfold seeds. apply seedRelatedClasses_grows, seedRelatedFunctions_grows.
  unfold seedRelatedFiles. rewrite Hh. cbn [nonEmptyArray].
  apply fold_left_hits with (x := file); [intros s b; apply fileStep_grows | exact Hin |].
  intros s. unfold resolveFile. rewrite Hfind, Hp.
  apply fold_left_hits with (x := n).
  - intros s' node. destruct (n_filePath node =? p); [apply set_add_incl | apply incl_refl].
  - exact Hn.
  - intros s'. rewrite Hpath, String.eqb_refl. apply set_add_new.
Qed.

(** The witness of [related_file_keeps_its_nodes]. *)
Lemma related_file_keeps_its_nodes_witness :
  In (functionNode (mkFunction "g" "/ws/q.ts" 1 1 true false [] None))
     (nodes (filterGraphByLLMContext
               (builtGraph apartFacts) apartFacts
               (mkHints None (Some ["q.ts"]) None None None))).
Proof.
  apply (related_file_keeps_its_nodes
           (builtGraph apartFacts) apartFacts
           (mkHints None (Some ["q.ts"]) None None None)
           ["q.ts"] "q.ts" "/ws/q.ts").
  - reflexivity.
  - left. reflexivity.
  - vm_compute. reflexivity.
  - reflexivity.
  - vm_compute. do 3 right. left. reflexivity.
  - reflexivity.
Defined.
